(** * Prompt DJ: the streaming playback engine and its PCM codec

    A shallow embedding of [utils.ts] (base64 transport, PCM codec, WAV
    writer) and of [index.tsx]: [throttle], the colour picker and the
    default prompts, the weight slider, and of [PromptDj] the audio
    message handler, the transport controls, the prompt map, the
    elapsed-time display and the name of the download; with the
    properties of the engine stated and proved over it.

    Conventions.
    - A JavaScript number is modelled by a rational ([Q]): the finite
      values, with exact arithmetic.  On the sample paths this is the
      arithmetic the program performs: a binary32 sample times 32768 or
      32767 and a 16-bit integer over 32768 are exact in binary64.
      Times on the audio clock are rationals as well; a sample rate is a
      positive whole number of Hz.
    - Typed arrays ([Float32Array], [Int16Array], [Uint8Array]) are lists;
      a byte is a [Z] in [0, 256).  Platform calls ([createBuffer],
      [copyToChannel], the typed-array constructors, [DataView]) follow
      ECMAScript and the Web Audio API, and report their exceptions as
      [JS.Throw].
    - A method of [PromptDj] is a function from the component state to the
      new state and the list of calls it makes on its collaborators (the
      audio graph, the timers, the remote session).  Each handler runs to
      completion before the next event: the event loop is single-threaded,
      and the one [await] on the audio path (of [decodeAudioData], which
      itself never suspends) is taken to resume at once.  The rejection
      of a submission by the session reaches the component later, as an
      event of its own.
    - What the program reads from outside is an argument of the function
      that reads it: the audio clock, [Date.now()], a value of
      [Math.random()], the order that a [sort] with a random comparator
      leaves, the angle of the pointer. *)

From Stdlib Require Import ZArith QArith Qminmax Qround Qabs Lia Lqa.
From stdpp Require Import base list strings pretty gmap.

Local Open Scope Z_scope.

(** ** Number conversions of ECMAScript *)

Module JS.

(** [ToIntegerOrInfinity] on a finite number: truncation toward zero. *)
Definition truncate (x : Q) : Z := Z.quot (Qnum x) (Z.pos (Qden x)).

Definition ToUint8 (n : Z) : Z := n mod 256.
Definition ToUint16 (n : Z) : Z := n mod 65536.
Definition ToUint32 (n : Z) : Z := n mod 4294967296.

(** [ToInt16]: reduce modulo 2^16, then read the result as two's
    complement. *)
Definition ToInt16 (n : Z) : Z :=
  let int16bit := n mod 65536 in
  if 32768 <=? int16bit then int16bit - 65536 else int16bit.

(** Exceptions the modelled calls can throw. *)
Inductive Exception :=
| NotSupportedError
| IndexSizeError
| RangeError
| TypeError.

Inductive Completion (A : Type) :=
| Normal (a : A)
| Throw (e : Exception).
Arguments Normal {A} a.
Arguments Throw {A} e.

Definition bind {A B} (k : A -> Completion B) (c : Completion A) : Completion B :=
  match c with
  | Normal a => k a
  | Throw e => Throw e
  end.

End JS.

(** Sequencing of calls that may throw, written [x ← c; k]. *)
#[global] Instance Completion_bind : MBind JS.Completion := @JS.bind.

(** ** Typed arrays and [DataView] *)

Module TypedArray.

(** The two bytes of a 16-bit integer, little-endian (the layout of an
    [Int16Array]'s buffer, and of [DataView.setInt16(.., .., true)]). *)
Definition bytes16 (n : Z) : list Z :=
  [JS.ToUint8 n; JS.ToUint8 (n / 256)].

Definition bytes32 (n : Z) : list Z :=
  [JS.ToUint8 n; JS.ToUint8 (n / 256);
   JS.ToUint8 (n / 65536); JS.ToUint8 (n / 16777216)].

(** [new Uint8Array(int16.buffer)]. *)
Definition Uint8Array_of_Int16Array (a : list Z) : list Z :=
  flat_map bytes16 a.

Fixpoint pairs16 (bs : list Z) : list Z :=
  match bs with
  | b0 :: b1 :: rest => JS.ToInt16 (b0 + 256 * b1) :: pairs16 rest
  | _ => []
  end.

(** [new Int16Array(data.buffer)]: a [RangeError] unless the byte length
    is a multiple of two. *)
Definition Int16Array_of_buffer (bs : list Z) : JS.Completion (list Z) :=
  if Nat.even (length bs) then JS.Normal (pairs16 bs) else JS.Throw JS.RangeError.

(** [a.filter((_, index) => p(index))]. *)
Fixpoint filter_index_from {A} (p : nat -> bool) (index : nat) (a : list A) : list A :=
  match a with
  | [] => []
  | x :: rest =>
      if p index then x :: filter_index_from p (S index) rest
      else filter_index_from p (S index) rest
  end.

Definition filter_index {A} (p : nat -> bool) (a : list A) : list A :=
  filter_index_from p 0 a.

End TypedArray.

(** ** [DataView] over a zero-filled [ArrayBuffer] *)

Module DataView.

(** [new DataView(new ArrayBuffer(byteLength))]; the allocation is taken
    to succeed.  The setters are used within bounds only, where stdpp's
    list insert is the store of one byte. *)
Definition create (byteLength : nat) : list Z := repeat 0 byteLength.

Fixpoint setBytes (offset : nat) (bs : list Z) (view : list Z) : list Z :=
  match bs with
  | [] => view
  | b :: rest => setBytes (S offset) rest (<[offset := b]> view)
  end.

Definition setUint8 (offset : nat) (value : Z) (view : list Z) : list Z :=
  <[offset := JS.ToUint8 value]> view.

(** The setters below are the little-endian ones (third argument
    [true] in the source). *)
Definition setUint16 (offset : nat) (value : Z) (view : list Z) : list Z :=
  setBytes offset (TypedArray.bytes16 (JS.ToUint16 value)) view.

Definition setUint32 (offset : nat) (value : Z) (view : list Z) : list Z :=
  setBytes offset (TypedArray.bytes32 (JS.ToUint32 value)) view.

Definition setInt16 (offset : nat) (value : Q) (view : list Z) : list Z :=
  setBytes offset (TypedArray.bytes16 (JS.ToInt16 (JS.truncate value))) view.

Definition byteAt (offset : nat) (view : list Z) : Z := default 0 (view !! offset).

Definition getUint16 (offset : nat) (view : list Z) : Z :=
  byteAt offset view + 256 * byteAt (offset + 1) view.

Definition getUint32 (offset : nat) (view : list Z) : Z :=
  byteAt offset view + 256 * byteAt (offset + 1) view
  + 65536 * byteAt (offset + 2) view + 16777216 * byteAt (offset + 3) view.

Definition getInt16 (offset : nat) (view : list Z) : Z :=
  JS.ToInt16 (getUint16 offset view).

End DataView.

(** ** The PCM codec and the WAV writer ([utils.ts]) *)

Module Utils.

Import JS.

(** Comparisons of numbers, as booleans. *)
Definition Qltb (x y : Q) : bool := negb (Qle_bool y x).

(** An [AudioBuffer] of the Web Audio API: [getChannelData j i] is sample
    [i] of channel [j]; the code reads it for [j < numberOfChannels] and
    [i < length] only. *)
Record AudioBuffer := {
  numberOfChannels : nat;
  length : nat;
  sampleRate : positive;
  getChannelData : nat -> nat -> Q
}.

(** [AudioBuffer.duration], in seconds. *)
Definition duration (b : AudioBuffer) : Q :=
  Qmake (Z.of_nat (length b)) (sampleRate b).

(** [BaseAudioContext.createBuffer] (Web Audio API): a zero-filled buffer;
    [NotSupportedError] when the channel count or the frame count is
    outside its nominal range, which starts at one.  The upper limits are
    left to the implementation and are not modelled. *)
Definition createBuffer (numberOfChannels length : nat) (sampleRate : positive)
  : Completion AudioBuffer :=
  if (numberOfChannels =? 0)%nat || (length =? 0)%nat then Throw NotSupportedError
  else Normal {| numberOfChannels := numberOfChannels;
                 length := length;
                 sampleRate := sampleRate;
                 getChannelData := fun _ _ => 0%Q |}.

(** [AudioBuffer.copyToChannel(source, channelNumber)]: [IndexSizeError]
    when there is no such channel; otherwise the first
    [min(source.length, length)] samples of the channel are overwritten. *)
Definition copyToChannel (source : list Q) (channelNumber : nat) (buffer : AudioBuffer)
  : Completion AudioBuffer :=
  if (numberOfChannels buffer <=? channelNumber)%nat then Throw IndexSizeError
  else Normal {| numberOfChannels := numberOfChannels buffer;
                 length := length buffer;
                 sampleRate := sampleRate buffer;
                 getChannelData := fun j i =>
                   if (j =? channelNumber)%nat
                      && (i <? Nat.min (List.length source) (length buffer))%nat
                   then nth i source 0%Q
                   else getChannelData buffer j i |}.

(** The conversion loop of [createBlob]: [int16[i] = data[i] * 32768],
    a store into an [Int16Array]. *)
Definition createBlob_int16 (data : list Q) : list Z :=
  map (fun x => ToInt16 (truncate (x * 32768))) data.

(** [createBlob], up to the base64 text: the bytes handed to [encode]
    ([btoa]) and the MIME type. *)
Definition createBlob (data : list Q) : list Z * string :=
  (TypedArray.Uint8Array_of_Int16Array (createBlob_int16 data),
   "audio/pcm;rate=16000"%string).

(** The frame count handed to [createBuffer],
    [data.length / 2 / numChannels], after its conversion to an unsigned
    long: the quotient is truncated, and the infinite or undefined
    quotient by zero becomes 0. *)
Definition frameCount (byteLength numChannels : nat) : nat :=
  if (numChannels =? 0)%nat then 0%nat else (byteLength / 2 / numChannels)%nat.

(** The loop [dataFloat32[i] = dataInt16[i] / 32768.0]. *)
Definition decode_float32 (dataInt16 : list Z) : list Q :=
  map (fun v => (inject_Z v / 32768)%Q) dataInt16.

Fixpoint copyChannels (dataFloat32 : list Q) (numChannels : nat)
  (channelNumbers : list nat) (buffer : AudioBuffer) : Completion AudioBuffer :=
  match channelNumbers with
  | [] => Normal buffer
  | i :: rest =>
      let channel :=
        TypedArray.filter_index (fun index => (index mod numChannels =? i)%nat) dataFloat32 in
      buffer ← copyToChannel channel i buffer;
      copyChannels dataFloat32 numChannels rest buffer
  end.

(** [decodeAudioData(data, ctx, sampleRate, numChannels)]; [data] is the
    byte array that [decode] ([atob]) returns. *)
Definition decodeAudioData (data : list Z) (sampleRate : positive) (numChannels : nat)
  : Completion AudioBuffer :=
  buffer ← createBuffer numChannels (frameCount (List.length data) numChannels) sampleRate;
  dataInt16 ← TypedArray.Int16Array_of_buffer data;
  let dataFloat32 := decode_float32 dataInt16 in
  if (numChannels =? 0)%nat then copyToChannel dataFloat32 0 buffer
  else copyChannels dataFloat32 numChannels (seq 0 numChannels) buffer.

(** [str.charCodeAt(i)] for each character of [str]. *)
Definition charCodes (str : string) : list Z :=
  map (fun c => Z.of_nat (Ascii.nat_of_ascii c)) (String.list_ascii_of_string str).

Fixpoint writeString_from (offset : nat) (codes : list Z) (view : list Z) : list Z :=
  match codes with
  | [] => view
  | c :: rest => writeString_from (S offset) rest (DataView.setUint8 offset c view)
  end.

Definition writeString (offset : nat) (str : string) (view : list Z) : list Z :=
  writeString_from offset (charCodes str) view.

(** The 44 bytes of RIFF, fmt and data headers, written into [view]. *)
Definition writeHeader (numOfChan frames : nat) (rate : positive) (view : list Z) : list Z :=
  let view := writeString 0 "RIFF" view in
  let view := DataView.setUint32 4 (36 + Z.of_nat frames * Z.of_nat numOfChan * 2) view in
  let view := writeString 8 "WAVE" view in
  let view := writeString 12 "fmt " view in
  let view := DataView.setUint32 16 16 view in
  let view := DataView.setUint16 20 1 view in
  let view := DataView.setUint16 22 (Z.of_nat numOfChan) view in
  let view := DataView.setUint32 24 (Z.pos rate) view in
  let view := DataView.setUint32 28 (Z.pos rate * 2 * Z.of_nat numOfChan) view in
  let view := DataView.setUint16 32 (Z.of_nat numOfChan * 2) view in
  let view := DataView.setUint16 34 16 view in
  let view := writeString 36 "data" view in
  DataView.setUint32 40 (Z.of_nat frames * Z.of_nat numOfChan * 2) view.

(** [Math.max(-1, Math.min(1, x))]. *)
Definition clamp (x : Q) : Q := Qmax (-1) (Qmin 1 x).

(** [sample < 0 ? sample * 0x8000 : sample * 0x7fff]. *)
Definition scale (sample : Q) : Q :=
  if Qltb sample 0 then (sample * 32768)%Q else (sample * 32767)%Q.

(** The inner loop over the channels of frame [i]; the state is the view
    and the running [offset]. *)
Definition writeFrame (buffer : AudioBuffer) (i : nat) (st : list Z * nat) : list Z * nat :=
  fold_left
    (fun (st : list Z * nat) (j : nat) =>
       let sample := clamp (getChannelData buffer j i) in
       let sample := scale sample in
       (DataView.setInt16 (snd st) sample (fst st), (snd st + 2)%nat))
    (seq 0 (numberOfChannels buffer)) st.

Definition writeSamples (buffer : AudioBuffer) (st : list Z * nat) : list Z * nat :=
  fold_left (fun st i => writeFrame buffer i st) (seq 0 (length buffer)) st.

(** [audioBufferToWav(buffer)]: the bytes of the blob. *)
Definition audioBufferToWav (buffer : AudioBuffer) : list Z :=
  let numOfChan := numberOfChannels buffer in
  let length_ := (length buffer * numOfChan * 2 + 44)%nat in
  let view := DataView.create length_ in
  let view := writeHeader numOfChan (length buffer) (sampleRate buffer) view in
  fst (writeSamples buffer (view, 44%nat)).

(** The header alone: what [writeHeader] makes of 44 zero bytes. *)
Definition wavHeader (numOfChan frames : nat) (rate : positive) : list Z :=
  writeHeader numOfChan frames rate (DataView.create 44).

(** The 16-bit integer that the export stores for a sample: what
    [setInt16] makes of the clamped and scaled value. *)
Definition pcm16 (x : Q) : Z := ToInt16 (truncate (scale (clamp x))).

(** The samples of a buffer in the order of the export loops: frame by
    frame, and channel by channel within a frame. *)
Definition interleaved (b : AudioBuffer) : list Q :=
  flat_map (fun i => map (fun j => getChannelData b j i) (seq 0 (numberOfChannels b)))
    (seq 0 (length b)).

(** One sample through the loop of [createBlob] and back through the loop
    of [decodeAudioData]. *)
Definition roundtrip (x : Q) : Q :=
  (inject_Z (ToInt16 (truncate (x * 32768))) / 32768)%Q.

End Utils.

(** ** [throttle] and the [PromptDj] component ([index.tsx]) *)

Module PromptDj.

Import JS Utils.

Inductive PlaybackState := stopped | playing | loading | paused.

Record Prompt := {
  promptId : string;
  text : string;
  weight : Q;
  color : string
}.

(** The closures the component hands to [setTimeout] and [setInterval]. *)
Inductive Callback :=
| BufferElapsed   (* the arrow function that sets the state to 'playing' *)
| TimerTick       (* the one-second update of [elapsedTime] *)
| LoadAudio.      (* [this.loadAudio.bind(this)] *)

(** The calls the component makes on its collaborators.  Of the console
    output only the under-run notice is kept; the nodes of the audio graph
    are reduced to the gain ramps and the source starts. *)
Inductive Call :=
| DecodeAudioData (data : list Z)
| SourceStart (buffer : AudioBuffer) (when : Q)
| SetTimeout (callback : Callback) (ms : Q)
| SetInterval (callback : Callback) (ms : Q)
| ClearInterval
| ConsoleLog (message : string)
| ToastShow (message : string)
| AudioContextResume
| GainRamp (from to startTime endTime : Q)
| Connect
| SessionPlay
| SessionPause
| SessionStop
| SessionResetContext
| SessionSetWeightedPrompts (weightedPrompts : list Prompt)
| SessionSetMusicGenerationConfig
| SettingsResetToDefaults.

(** The fields of [PromptDj] that playback reads and writes.  [prompts] is
    the values of the [Map], in insertion order; [timerIntervalId] tells
    whether an interval id is held; [lastCall] is the variable of that name
    in the closure that [throttle] returns for [setSessionPrompts], and
    [settingsLastCall] the one in the closure it returns for
    [updateSettings]. *)
Record State := {
  prompts : list Prompt;
  nextStartTime : Q;
  playbackState : PlaybackState;
  recordedChunks : list AudioBuffer;
  filteredPrompts : gset string;
  connectionError : bool;
  timerStartTime : Q;
  timerIntervalId : bool;
  elapsedTime : Z;
  lastCall : Z;
  settingsLastCall : Z
}.

Definition bufferTime : Q := 2.

Definition set_prompts (v : list Prompt) (s : State) : State :=
  {| prompts := v; nextStartTime := nextStartTime s;
     playbackState := playbackState s; recordedChunks := recordedChunks s;
     filteredPrompts := filteredPrompts s; connectionError := connectionError s;
     timerStartTime := timerStartTime s; timerIntervalId := timerIntervalId s;
     elapsedTime := elapsedTime s; lastCall := lastCall s;
     settingsLastCall := settingsLastCall s |}.

Definition set_nextStartTime (v : Q) (s : State) : State :=
  {| prompts := prompts s; nextStartTime := v;
     playbackState := playbackState s; recordedChunks := recordedChunks s;
     filteredPrompts := filteredPrompts s; connectionError := connectionError s;
     timerStartTime := timerStartTime s; timerIntervalId := timerIntervalId s;
     elapsedTime := elapsedTime s; lastCall := lastCall s;
     settingsLastCall := settingsLastCall s |}.

Definition set_playbackState (v : PlaybackState) (s : State) : State :=
  {| prompts := prompts s; nextStartTime := nextStartTime s;
     playbackState := v; recordedChunks := recordedChunks s;
     filteredPrompts := filteredPrompts s; connectionError := connectionError s;
     timerStartTime := timerStartTime s; timerIntervalId := timerIntervalId s;
     elapsedTime := elapsedTime s; lastCall := lastCall s;
     settingsLastCall := settingsLastCall s |}.

Definition set_recordedChunks (v : list AudioBuffer) (s : State) : State :=
  {| prompts := prompts s; nextStartTime := nextStartTime s;
     playbackState := playbackState s; recordedChunks := v;
     filteredPrompts := filteredPrompts s; connectionError := connectionError s;
     timerStartTime := timerStartTime s; timerIntervalId := timerIntervalId s;
     elapsedTime := elapsedTime s; lastCall := lastCall s;
     settingsLastCall := settingsLastCall s |}.

Definition set_filteredPrompts (v : gset string) (s : State) : State :=
  {| prompts := prompts s; nextStartTime := nextStartTime s;
     playbackState := playbackState s; recordedChunks := recordedChunks s;
     filteredPrompts := v; connectionError := connectionError s;
     timerStartTime := timerStartTime s; timerIntervalId := timerIntervalId s;
     elapsedTime := elapsedTime s; lastCall := lastCall s;
     settingsLastCall := settingsLastCall s |}.

Definition set_connectionError (v : bool) (s : State) : State :=
  {| prompts := prompts s; nextStartTime := nextStartTime s;
     playbackState := playbackState s; recordedChunks := recordedChunks s;
     filteredPrompts := filteredPrompts s; connectionError := v;
     timerStartTime := timerStartTime s; timerIntervalId := timerIntervalId s;
     elapsedTime := elapsedTime s; lastCall := lastCall s;
     settingsLastCall := settingsLastCall s |}.

Definition set_timerStartTime (v : Q) (s : State) : State :=
  {| prompts := prompts s; nextStartTime := nextStartTime s;
     playbackState := playbackState s; recordedChunks := recordedChunks s;
     filteredPrompts := filteredPrompts s; connectionError := connectionError s;
     timerStartTime := v; timerIntervalId := timerIntervalId s;
     elapsedTime := elapsedTime s; lastCall := lastCall s;
     settingsLastCall := settingsLastCall s |}.

Definition set_timerIntervalId (v : bool) (s : State) : State :=
  {| prompts := prompts s; nextStartTime := nextStartTime s;
     playbackState := playbackState s; recordedChunks := recordedChunks s;
     filteredPrompts := filteredPrompts s; connectionError := connectionError s;
     timerStartTime := timerStartTime s; timerIntervalId := v;
     elapsedTime := elapsedTime s; lastCall := lastCall s;
     settingsLastCall := settingsLastCall s |}.

Definition set_elapsedTime (v : Z) (s : State) : State :=
  {| prompts := prompts s; nextStartTime := nextStartTime s;
     playbackState := playbackState s; recordedChunks := recordedChunks s;
     filteredPrompts := filteredPrompts s; connectionError := connectionError s;
     timerStartTime := timerStartTime s; timerIntervalId := timerIntervalId s;
     elapsedTime := v; lastCall := lastCall s;
     settingsLastCall := settingsLastCall s |}.

Definition set_lastCall (v : Z) (s : State) : State :=
  {| prompts := prompts s; nextStartTime := nextStartTime s;
     playbackState := playbackState s; recordedChunks := recordedChunks s;
     filteredPrompts := filteredPrompts s; connectionError := connectionError s;
     timerStartTime := timerStartTime s; timerIntervalId := timerIntervalId s;
     elapsedTime := elapsedTime s; lastCall := v;
     settingsLastCall := settingsLastCall s |}.

Definition set_settingsLastCall (v : Z) (s : State) : State :=
  {| prompts := prompts s; nextStartTime := nextStartTime s;
     playbackState := playbackState s; recordedChunks := recordedChunks s;
     filteredPrompts := filteredPrompts s; connectionError := connectionError s;
     timerStartTime := timerStartTime s; timerIntervalId := timerIntervalId s;
     elapsedTime := elapsedTime s; lastCall := lastCall s;
     settingsLastCall := v |}.

(** The state of a freshly constructed component. *)
Definition initial (prompts : list Prompt) : State :=
  {| prompts := prompts; nextStartTime := 0;
     playbackState := stopped; recordedChunks := [];
     filteredPrompts := ∅; connectionError := true;
     timerStartTime := 0; timerIntervalId := false;
     elapsedTime := 0; lastCall := 0; settingsLastCall := 0 |}.

(** [throttle(func, delay)] applied at [Date.now() = now]: the returned
    closure runs [func] and records the time when at least [delay]
    milliseconds have passed since the recorded call, and does nothing
    otherwise. *)
Definition throttle (func : State -> State * list Call) (delay : Z)
  (now : Z) (s : State) : State * list Call :=
  let timeSinceLastCall := now - lastCall s in
  if delay <=? timeSinceLastCall then
    let r := func s in
    (set_lastCall now (fst r), snd r)
  else (s, []).

(** The body of [setSessionPrompts], up to the call on the session. *)
Definition promptsToSend (s : State) : list Prompt :=
  List.filter
    (fun p => negb (bool_decide (text p ∈ filteredPrompts s))
              && negb (Qeq_bool (weight p) 0))
    (prompts s).

(** [setSessionPrompts]: the throttled closure, up to the call on the
    session.  The call returns a promise, and nothing that matters here
    follows it when the session accepts the prompts; when the session
    rejects them the [catch] branch runs, in a later task:
    [onSubmissionRejected] below. *)
Definition setSessionPrompts : Z -> State -> State * list Call :=
  throttle (fun s => (s, [SessionSetWeightedPrompts (promptsToSend s)])) 200.

(** [updateSettings]: the closure that [throttle] returns for it, with a
    [lastCall] of its own; it runs for every [settings-changed] event of
    the settings controller. *)
Definition updateSettings (now : Z) (s : State) : State * list Call :=
  let timeSinceLastCall := now - settingsLastCall s in
  if 200 <=? timeSinceLastCall
  then (set_settingsLastCall now s, [SessionSetMusicGenerationConfig])
  else (s, []).

(** A reconfiguration request, the shape shared by [handlePromptChanged],
    [handlePromptRemoved], [handleAddPrompt] and [loadPromptsFromPreset]:
    [this.prompts = newPrompts; this.setSessionPrompts()]. *)
Definition reconfigure (newPrompts : list Prompt) (now : Z) (s : State)
  : State * list Call :=
  setSessionPrompts now (set_prompts newPrompts s).

(** Clearing the elapsed-time interval, with or without resetting the
    displayed time. *)
Definition clearTimer (resetElapsed : bool) (s : State) : State * list Call :=
  if timerIntervalId s then
    let s := set_timerIntervalId false s in
    (if resetElapsed then set_elapsedTime 0 s else s, [ClearInterval])
  else (s, []).

Definition pauseAudio (currentTime : Q) (s : State) : State * list Call :=
  let s := set_playbackState paused s in
  let s := set_nextStartTime 0 s in
  let r := clearTimer false s in
  (fst r,
   [SessionPause; GainRamp 1 0 currentTime (currentTime + (1 # 10))%Q] ++ snd r).

Definition loadAudio (currentTime : Q) (s : State) : State * list Call :=
  let s := set_recordedChunks [] s in
  let s := set_playbackState loading s in
  (s, [AudioContextResume; SessionPlay;
       GainRamp 0 1 currentTime (currentTime + (1 # 10))%Q]).

Definition stopAudio (currentTime : Q) (s : State) : State * list Call :=
  let s := set_playbackState stopped s in
  let s := set_nextStartTime 0 s in
  let r := clearTimer true s in
  (fst r,
   [SessionStop; GainRamp 0 1 currentTime (currentTime + (1 # 10))%Q] ++ snd r).

(** [connectToSession] followed by [setSessionPrompts], the reconnection
    that [handlePlayPause] and [handleReset] perform when the connection is
    marked broken.  The connection is taken to succeed, and the handler to
    go on with no other event in between. *)
Definition reconnect (now : Z) (s : State) : State * list Call :=
  if connectionError s then
    let r := setSessionPrompts now s in
    (fst r, Connect :: snd r)
  else (s, []).

Definition handlePlayPause (currentTime : Q) (now : Z) (s : State) : State * list Call :=
  match playbackState s with
  | playing => pauseAudio currentTime s
  | paused | stopped =>
      let r := reconnect now s in
      let r' := loadAudio currentTime (fst r) in
      (fst r', snd r ++ snd r')
  | loading => stopAudio currentTime s
  end.

(** [handleReset].  [settingsController.resetToDefaults()] dispatches a
    [settings-changed] event, which the component handles at once with
    [updateSettings]: [rs] below.  [now] is the reading of [Date.now()]
    in both throttles, and [currentTime] that of the audio clock. *)
Definition handleReset (currentTime : Q) (now : Z) (s : State) : State * list Call :=
  let r := reconnect now s in
  let r' := pauseAudio currentTime (fst r) in
  let rs := updateSettings now (fst r') in
  let s := set_recordedChunks [] (fst rs) in
  let r'' := clearTimer false s in
  let s := set_timerStartTime 0 (fst r'') in
  let s := set_elapsedTime 0 s in
  (s, snd r ++ snd r'
      ++ [SessionResetContext; SettingsResetToDefaults] ++ snd rs
      ++ [SessionSetMusicGenerationConfig]
      ++ snd r'' ++ [SetTimeout LoadAudio 100]).

(** [onerror] and [onclose] of the session. *)
Definition onerror (currentTime : Q) (s : State) : State * list Call :=
  let s := set_connectionError true s in
  let r := stopAudio currentTime s in
  (fst r, snd r ++ [ToastShow "Connection error, please restart audio."]).

(** The [catch] branch of [setSessionPrompts], run when the session
    rejects a submission: [message] is [e.message]. *)
Definition onSubmissionRejected (message : string) (currentTime : Q) (s : State)
  : State * list Call :=
  let r := pauseAudio currentTime s in
  (fst r, ToastShow message :: snd r).

(** The callback of the [setTimeout] armed with the first segment. *)
Definition bufferElapsed (currentTime : Q) (s : State) : State * list Call :=
  let s := set_playbackState playing s in
  if timerIntervalId s then (s, [])
  else
    let s := set_timerStartTime currentTime s in
    (set_timerIntervalId true s, [SetInterval TimerTick 1000]).

Definition timerTick (currentTime : Q) (s : State) : State * list Call :=
  (set_elapsedTime (Qfloor (currentTime - timerStartTime s)) s, []).

(** An inbound [LiveMusicServerMessage]: [audioChunks] stands for
    [serverContent?.audioChunks], and each chunk for the bytes that
    [decode] makes of its base64 [data]; a filtered prompt is its [text]
    and its [filteredReason]. *)
Record LiveMusicServerMessage := {
  setupComplete : bool;
  filteredPrompt : option (string * string);
  audioChunks : option (list (list Z))
}.

(** [playbackState === 'paused' || playbackState === 'stopped']. *)
Definition pausedOrStopped (p : PlaybackState) : bool :=
  match p with paused | stopped => true | _ => false end.

(** [playbackState === 'playing' || playbackState === 'loading']. *)
Definition playingOrLoading (p : PlaybackState) : bool :=
  match p with playing | loading => true | _ => false end.

(** The branch of [onmessage] for a message that carries audio chunks.
    A call that throws ends the handler there; [decodeAudioData] is
    awaited, and the handler is taken to resume before any other task
    runs.  [currentTime] is the reading of the audio clock. *)
Definition onAudioChunks (chunks : list (list Z)) (currentTime : Q) (s : State)
  : State * list Call :=
  if pausedOrStopped (playbackState s) then (s, [])
  else
    match chunks with
    | [] => (s, [])
    | data :: _ =>
        match decodeAudioData data 48000 2 with
        | Throw _ => (s, [DecodeAudioData data])
        | Normal audioBuffer =>
            let s :=
              if playingOrLoading (playbackState s)
              then set_recordedChunks (recordedChunks s ++ [audioBuffer]) s
              else s in
            let r :=
              if Qeq_bool (nextStartTime s) 0
              then (set_nextStartTime (currentTime + bufferTime) s,
                    [SetTimeout BufferElapsed (bufferTime * 1000)])
              else (s, []) in
            let s := fst r in
            if Qltb (nextStartTime s) currentTime then
              let s := set_playbackState loading s in
              let s := set_nextStartTime 0 s in
              let r' := clearTimer true s in
              (fst r',
               [DecodeAudioData data] ++ snd r ++ [ConsoleLog "under run"] ++ snd r')
            else
              (set_nextStartTime (nextStartTime s + duration audioBuffer) s,
               [DecodeAudioData data] ++ snd r
               ++ [SourceStart audioBuffer (nextStartTime s)])
        end
    end.

Definition onmessage (e : LiveMusicServerMessage) (currentTime : Q) (s : State)
  : State * list Call :=
  let s := if setupComplete e then set_connectionError false s else s in
  let r :=
    match filteredPrompt e with
    | Some fp => (set_filteredPrompts (filteredPrompts s ∪ {[fst fp]}) s,
                  [ToastShow (snd fp)])
    | None => (s, [])
    end in
  match audioChunks e with
  | None => r
  | Some chunks =>
      let r' := onAudioChunks chunks currentTime (fst r) in
      (fst r', snd r ++ snd r')
  end.

(** [result.getChannelData(channel).set(source.getChannelData(channel), offset)]. *)
Definition setChannelData (channel : nat) (source : AudioBuffer) (offset : nat)
  (result : AudioBuffer) : AudioBuffer :=
  {| numberOfChannels := numberOfChannels result;
     length := length result;
     sampleRate := sampleRate result;
     getChannelData := fun j i =>
       if (j =? channel)%nat && (offset <=? i)%nat && (i <? offset + length source)%nat
       then getChannelData source channel (i - offset)
       else getChannelData result j i |}.

(** The inner loop of [concatenateAudioBuffers] for one channel. *)
Fixpoint fillChannel (channel : nat) (buffers : list AudioBuffer) (offset : nat)
  (result : AudioBuffer) : AudioBuffer :=
  match buffers with
  | [] => result
  | buffer :: rest =>
      let result :=
        if (channel <? numberOfChannels buffer)%nat
        then setChannelData channel buffer offset result
        else result in
      fillChannel channel rest (offset + length buffer) result
  end.

Definition totalLength (buffers : list AudioBuffer) : nat :=
  fold_left (fun total buffer => (total + length buffer)%nat) buffers 0%nat.

(** [concatenateAudioBuffers]: [None] is the [null] result. *)
Definition concatenateAudioBuffers (buffers : list AudioBuffer)
  : Completion (option AudioBuffer) :=
  match buffers with
  | [] => Normal None
  | firstBuffer :: _ =>
      result ← createBuffer (numberOfChannels firstBuffer) (totalLength buffers)
                 (sampleRate firstBuffer);
      Normal (Some (fold_left (fun result channel => fillChannel channel buffers 0 result)
                      (seq 0 (numberOfChannels firstBuffer)) result))
  end.

(** What [handleDownload] hands to the browser: the bytes of the WAV blob
    made of the Capture Log, or [None] when it reports a failure. *)
Definition exportWav (s : State) : option (list Z) :=
  match concatenateAudioBuffers (recordedChunks s) with
  | Normal (Some concatenatedBuffer) => Some (audioBufferToWav concatenatedBuffer)
  | _ => None
  end.

(** The tasks the event loop runs on the component. *)
Inductive Event :=
| Message (e : LiveMusicServerMessage) (currentTime : Q)
| SessionError (currentTime : Q)
| Fired (callback : Callback) (currentTime : Q)
| PlayPause (currentTime : Q) (now : Z)
| Reset (currentTime : Q) (now : Z)
| Reconfigure (newPrompts : list Prompt) (now : Z)
| SubmissionRejected (message : string) (currentTime : Q).

Definition step (ev : Event) (s : State) : State * list Call :=
  match ev with
  | Message e currentTime => onmessage e currentTime s
  | SessionError currentTime => onerror currentTime s
  | Fired BufferElapsed currentTime => bufferElapsed currentTime s
  | Fired TimerTick currentTime => timerTick currentTime s
  | Fired LoadAudio currentTime => loadAudio currentTime s
  | PlayPause currentTime now => handlePlayPause currentTime now s
  | Reset currentTime now => handleReset currentTime now s
  | Reconfigure newPrompts now => reconfigure newPrompts now s
  | SubmissionRejected message currentTime => onSubmissionRejected message currentTime s
  end.

(** A run of the event loop: the final state and all the calls made. *)
Fixpoint run (evs : list Event) (s : State) : State * list Call :=
  match evs with
  | [] => (s, [])
  | ev :: rest =>
      let r := step ev s in
      let r' := run rest (fst r) in
      (fst r', snd r ++ snd r')
  end.

(** The segments handed to the output, with their start times. *)
Definition scheduled (calls : list Call) : list (AudioBuffer * Q) :=
  flat_map (fun c => match c with SourceStart b t => [(b, t)] | _ => [] end) calls.

(** The chunks handed to the codec. *)
Definition decoded (calls : list Call) : list (list Z) :=
  flat_map (fun c => match c with DecodeAudioData d => [d] | _ => [] end) calls.

(** The payloads submitted to the session. *)
Definition submitted (calls : list Call) : list (list Prompt) :=
  flat_map (fun c => match c with SessionSetWeightedPrompts p => [p] | _ => [] end) calls.

(** The console notices ("under run" is the only one kept). *)
Definition logged (calls : list Call) : list string :=
  flat_map (fun c => match c with ConsoleLog m => [m] | _ => [] end) calls.

(** The events that leave the stream running: messages with a
    non-negative clock reading, the timers of the stream, and
    reconfigurations; no pause, stop, reset, (re)load or session error,
    and no submission that the session rejects. *)
Definition keepsStream (ev : Event) : bool :=
  match ev with
  | Message _ currentTime => Qle_bool 0 currentTime
  | Fired BufferElapsed _ | Fired TimerTick _ | Reconfigure _ _ => true
  | _ => false
  end.

(** The clock reading that comes with a message is not negative. *)
Definition clockOk (ev : Event) : bool :=
  match ev with
  | Message _ currentTime => Qle_bool 0 currentTime
  | _ => true
  end.

(** The timers of the stream. *)
Definition isTimer (ev : Event) : bool :=
  match ev with
  | Fired BufferElapsed _ | Fired TimerTick _ => true
  | _ => false
  end.

(** What one event of a running stream does to the schedule and to the
    Capture Log when no under-run is logged: nothing, or one segment
    appended and started at the cursor. *)
Definition stepOutcome (s s' : State) (calls : list Call) : Prop :=
  (scheduled calls = [] /\ nextStartTime s' = nextStartTime s
   /\ recordedChunks s' = recordedChunks s)
  \/ (exists b t, scheduled calls = [(b, t)]
                 /\ (~ nextStartTime s == 0 -> t = nextStartTime s)
                 /\ (0 < t)%Q
                 /\ nextStartTime s' = (t + duration b)%Q
                 /\ recordedChunks s' = recordedChunks s ++ [b]).

(** Every segment of the Capture Log was decoded from a chunk, as a
    stereo segment at 48 kHz. *)
Definition decodedLog (s : State) : Prop :=
  Forall (fun b => exists data, decodeAudioData data 48000 2 = Normal b)
    (recordedChunks s).

(** The cursor is set and already behind the clock: the condition of an
    under-run. *)
Definition late (currentTime : Q) (s : State) : bool :=
  negb (Qeq_bool (nextStartTime s) 0) && Qltb (nextStartTime s) currentTime.

(** A gapless chain of starts from cursor [c] to cursor [c']: each segment
    starts at the cursor (a cursor of 0 is unset, the start is then chosen
    afresh) and moves it by its duration. *)
Fixpoint chain (c : Q) (starts : list (AudioBuffer * Q)) (c' : Q) : Prop :=
  match starts with
  | [] => c' = c
  | (b, t) :: rest =>
      (~ c == 0 -> t = c) /\ (0 < t)%Q /\ chain (t + duration b) rest c'
  end.

End PromptDj.

(** ** Sample inputs *)

Module Samples.

Import JS Utils PromptDj.

(** A stereo chunk of two frames, and a message that carries it. *)
Definition chunk0 : list Z := [0; 64; 0; 192; 1; 0; 255; 255].

Definition audio0 : LiveMusicServerMessage :=
  {| setupComplete := false; filteredPrompt := None; audioChunks := Some [chunk0] |}.

(** The component after a first play request at clock 0. *)
Definition loaded0 : State := fst (handlePlayPause 0 1000 (initial [])).

(** The segment that [chunk0] decodes to. *)
Definition buffer0 : AudioBuffer :=
  match decodeAudioData chunk0 48000 2 with
  | Normal b => b
  | Throw _ => {| numberOfChannels := 0; length := 0; sampleRate := 1;
                  getChannelData := fun _ _ => 0%Q |}
  end.

(** The component after two segments, at clocks 1 and 3/2: the cursor is
    set, a little past 3. *)
Definition streaming0 : State :=
  fst (run [Message audio0 1; Message audio0 (3 # 2)] loaded0).

(** One prompt at a given weight, and a burst of five weight changes
    within 50 ms. *)
Definition funk (w : Q) : Prompt :=
  {| promptId := "prompt-0"; text := "Funk"; weight := w; color := "#9900ff" |}.

Definition burst0 : list Event :=
  [Reconfigure [funk 1] 1000; Reconfigure [funk (3 # 2)] 1010;
   Reconfigure [funk 2] 1020; Reconfigure [funk (1 # 2)] 1030;
   Reconfigure [funk (1 # 4)] 1040].

End Samples.

(** ** Readings of the events *)

Module Runs.

Import JS Utils PromptDj.

(** The reading of [Date.now()] that an event hands to the throttle, for
    the events that can reach [setSessionPrompts]. *)
Definition dateNow (ev : Event) : option Z :=
  match ev with
  | PlayPause _ now | Reset _ now | Reconfigure _ now => Some now
  | _ => None
  end.

(** The event is an inbound message. *)
Definition isMessage (ev : Event) : bool :=
  match ev with
  | Message _ _ => true
  | _ => false
  end.

(** The segment that an event brings: of a message with audio chunks,
    the first chunk decoded, when it decodes. *)
Definition arrival (ev : Event) : list AudioBuffer :=
  match ev with
  | Message e _ =>
      match audioChunks e with
      | Some (data :: _) =>
          match decodeAudioData data 48000 2 with
          | Normal b => [b]
          | Throw _ => []
          end
      | _ => []
      end
  | _ => []
  end.

Definition arrivals (evs : list Event) : list AudioBuffer := flat_map arrival evs.



(** A payload without any prompt of the text [T] and without any
    zero-weight prompt. *)
Definition avoids (T : string) (payload : list Prompt) : Prop :=
  Forall (fun p => text p <> T /\ ~ (weight p == 0)%Q) payload.

(** While the state is 'paused' or 'stopped' the cursor is unset and no
    elapsed-time interval is held. *)
Definition idle (s : State) : Prop :=
  pausedOrStopped (playbackState s) = true ->
  nextStartTime s = 0%Q /\ timerIntervalId s = false.

Definition isSessionError (ev : Event) : bool :=
  match ev with SessionError _ => true | _ => false end.

(** The number of connections opened. *)
Definition connects (calls : list Call) : nat :=
  List.length (List.filter (fun c => match c with Connect => true | _ => false end) calls).

End Runs.

(** ** More sample inputs *)

Module MoreSamples.

Import JS Utils PromptDj Samples.

(** A notice that the prompt text "Funk" was filtered. *)
Definition filtered0 : LiveMusicServerMessage :=
  {| setupComplete := false;
     filteredPrompt := Some ("Funk"%string, "Prompt blocked"%string);
     audioChunks := None |}.

(** The acknowledgement of the session setup. *)
Definition setup0 : LiveMusicServerMessage :=
  {| setupComplete := true; filteredPrompt := None; audioChunks := None |}.

End MoreSamples.

(** ** Base64 text: [btoa], [atob], and [encode] and [decode] of [utils.ts] *)

Module Base64.

Import JS Utils.

(** A JavaScript string is the list of its UTF-16 code units.  The
    alphabet of RFC 4648, and the padding character [=]. *)
Definition alphabet : list Z :=
  charCodes "ABCDEFGHIJKLMNOPQRSTUVWXYZabcdefghijklmnopqrstuvwxyz0123456789+/".

Definition pad : Z := 61.

Definition digit (sextet : Z) : Z := default 0 (alphabet !! Z.to_nat sextet).

Fixpoint index_from (i : Z) (c : Z) (l : list Z) : option Z :=
  match l with
  | [] => None
  | x :: rest => if x =? c then Some i else index_from (i + 1) c rest
  end.

(** The position of a code unit in the alphabet, if it is there. *)
Definition value (c : Z) : option Z := index_from 0 c alphabet.

(** Three octets make four sextets; one or two left over make two or
    three, the last filled up with zero bits. *)
Fixpoint sextets (bs : list Z) : list Z :=
  match bs with
  | a :: b :: c :: rest =>
      [a / 4; (a mod 4) * 16 + b / 16; (b mod 16) * 4 + c / 64; c mod 64] ++ sextets rest
  | [a; b] => [a / 4; (a mod 4) * 16 + b / 16; (b mod 16) * 4]
  | [a] => [a / 4; (a mod 4) * 16]
  | [] => []
  end.

(** Four sextets make three octets; of two or three left over, the last
    four or two bits are dropped. *)
Fixpoint octets (ss : list Z) : list Z :=
  match ss with
  | a :: b :: c :: d :: rest =>
      [a * 4 + b / 16; (b mod 16) * 16 + c / 4; (c mod 4) * 64 + d] ++ octets rest
  | [a; b; c] => [a * 4 + b / 16; (b mod 16) * 16 + c / 4]
  | [a; b] => [a * 4 + b / 16]
  | _ => []
  end.

(** [btoa(data)]: an [InvalidCharacterError] ([None]) when a code unit is
    above U+00FF, else the base64 text of the code units taken as bytes. *)
Definition btoa (data : list Z) : option (list Z) :=
  if forallb (fun c => c <=? 255) data
  then Some (map digit (sextets data)
             ++ repeat pad ((3 - List.length data mod 3) mod 3))
  else None.

Definition isWhitespace (c : Z) : bool :=
  (c =? 9) || (c =? 10) || (c =? 12) || (c =? 13) || (c =? 32).

(** If the text ends with one or two [=], they are removed. *)
Definition stripPadding (data : list Z) : list Z :=
  match rev data with
  | c1 :: c2 :: r =>
      if c1 =? pad then (if c2 =? pad then rev r else rev (c2 :: r)) else data
  | [c1] => if c1 =? pad then [] else data
  | [] => data
  end.

(** [atob(data)], the forgiving-base64 decode of the HTML standard: ASCII
    whitespace is removed; padding is removed when the length is a
    multiple of four; a length of 1 modulo 4 or a code unit outside the
    alphabet is an [InvalidCharacterError] ([None]). *)
Definition atob (data : list Z) : option (list Z) :=
  let data := List.filter (fun c => negb (isWhitespace c)) data in
  let data := if (List.length data mod 4 =? 0)%nat then stripPadding data else data in
  if (List.length data mod 4 =? 1)%nat then None
  else ss ← mapM value data; Some (octets ss).

(** [encode(bytes)] of [utils.ts]: [String.fromCharCode] of each byte,
    then [btoa]. *)
Definition encode (bytes : list Z) : option (list Z) :=
  let binary := map ToUint16 bytes in
  btoa binary.

(** [decode(base64)] of [utils.ts]: [atob], then each [charCodeAt] stored
    into a [Uint8Array]. *)
Definition decode (base64 : list Z) : option (list Z) :=
  binaryString ← atob base64;
  Some (map ToUint8 binaryString).

(** The [data] field of the blob that [createBlob] returns. *)
Definition createBlob_data (data : list Q) : option (list Z) :=
  encode (fst (createBlob data)).

End Base64.

(** ** Colours and the default prompts *)

Module Palette.

Import PromptDj.

Definition COLORS : list string :=
  ["#9900ff"; "#5200ff"; "#ff25f6"; "#2af6de";
   "#ffdd28"; "#3dffab"; "#d8ff3e"; "#d9b2ff"]%string.

(** [array[Math.floor(random * array.length)]], where [random] is the
    value that [Math.random()] returned; [undefined] ([None]) when the
    index is not one of the array. *)
Definition pick {A} (random : Q) (array : list A) : option A :=
  let index := Qfloor (random * inject_Z (Z.of_nat (List.length array))) in
  if index <? 0 then None else array !! Z.to_nat index.

Definition getUnusedRandomColor (random : Q) (usedColors : list string) : option string :=
  let availableColors :=
    List.filter (fun c => negb (bool_decide (c ∈ usedColors))) COLORS in
  if (List.length availableColors =? 0)%nat then pick random COLORS
  else pick random availableColors.

Definition set_weight (v : Q) (p : Prompt) : Prompt :=
  {| promptId := promptId p; text := text p; weight := v; color := color p |}.

(** The loop of [getStoredPrompts] that builds [defaultPrompts], from
    iteration [i] with [n] iterations to go; [random i] is the value drawn
    in iteration [i]. *)
Fixpoint defaultPrompts_from (n i : nat) (shuffledPresetTexts : list string)
  (random : nat -> Q) (defaultPrompts : list Prompt) (usedColors : list string)
  : option (list Prompt) :=
  match n with
  | O => Some defaultPrompts
  | S n' =>
      text ← shuffledPresetTexts !! i;
      color ← getUnusedRandomColor (random i) usedColors;
      defaultPrompts_from n' (S i) shuffledPresetTexts random
        (defaultPrompts
         ++ [{| promptId := "prompt-" +:+ pretty i; text := text;
                weight := 0; color := color |}])
        (usedColors ++ [color])
  end.

(** [promptsToActivate[i].weight = 1] for [i] below [numToActivate]:
    [promptsToActivate] holds the objects of [defaultPrompts] in another
    order, [order !! i] being the place in [defaultPrompts] of its [i]-th
    object, so the assignment changes that object of [defaultPrompts]. *)
Fixpoint activate (numToActivate i : nat) (order : list nat) (defaultPrompts : list Prompt)
  : list Prompt :=
  match numToActivate with
  | O => defaultPrompts
  | S n' =>
      let defaultPrompts :=
        match order !! i with
        | Some j =>
            match defaultPrompts !! j with
            | Some p => <[j := set_weight 1 p]> defaultPrompts
            | None => defaultPrompts
            end
        | None => defaultPrompts
        end in
      activate n' (S i) order defaultPrompts
  end.

(** [getStoredPrompts] when nothing usable is stored: the values of the
    returned map, in insertion order.  [shuffledPresetTexts] and [order]
    are the outcomes of the two [sort] calls with a random comparator. *)
Definition getStoredPrompts (shuffledPresetTexts : list string) (random : nat -> Q)
  (order : list nat) : option (list Prompt) :=
  let numDefaultPrompts := Nat.min 4 (List.length shuffledPresetTexts) in
  defaultPrompts ← defaultPrompts_from numDefaultPrompts 0 shuffledPresetTexts random [] [];
  let numToActivate := Nat.min 2 (List.length defaultPrompts) in
  Some (activate numToActivate 0 order defaultPrompts).

End Palette.

(** ** The weight slider *)

(** The arithmetic below is the exact one.  The program computes in
    binary64, which rounds every operation, so the values of the model
    are the program's only up to rounding; what is stated of the slider
    are the bounds that its clamps enforce, which rounding preserves. *)

Module WeightSlider.

Import Utils.

(** The fields of [WeightSlider]; angles are in degrees, as [getAngle]
    returns them. *)
Record State := {
  value : Q;
  isDragging : bool;
  startAngle : Q;
  startValue : Q
}.

Definition set_value (v : Q) (s : State) : State :=
  {| value := v; isDragging := isDragging s;
     startAngle := startAngle s; startValue := startValue s |}.

(** Each handler returns the new state and the [detail] of the input
    events it dispatches; [angle] is [getAngle(e.clientX, e.clientY)]. *)
Definition handlePointerDown (angle : Q) (s : State) : State * list Q :=
  ({| value := value s; isDragging := true;
      startAngle := angle; startValue := value s |}, []).

Definition handlePointerMove (angle : Q) (s : State) : State * list Q :=
  if negb (isDragging s) then (s, [])
  else
    let currentAngle := angle in
    let angleDelta := (currentAngle - startAngle s)%Q in
    let angleDelta := if Qltb 180 angleDelta then (angleDelta - 360)%Q else angleDelta in
    let angleDelta := if Qltb angleDelta (-180) then (angleDelta + 360)%Q else angleDelta in
    let valueChange := (angleDelta / 270 * 2)%Q in
    let s := set_value (Qmax 0 (Qmin 2 (startValue s + valueChange))) s in
    (s, [value s]).

Definition handlePointerUp (s : State) : State * list Q :=
  ({| value := value s; isDragging := false;
      startAngle := startAngle s; startValue := startValue s |}, []).

Definition handleWheel (deltaY : Q) (s : State) : State * list Q :=
  let delta := deltaY in
  let s := set_value (value s + delta * -(5 # 1000))%Q s in
  let s := set_value (Qmax 0 (Qmin 2 (value s))) s in
  (s, [value s]).

(** The rotation of the indicator that [render] computes, and the flag of
    the arc it draws. *)
Definition indicatorRotation (s : State) : Q := (-135 + value s / 2 * 270)%Q.

Definition largeArcFlag (s : State) : Z :=
  let startAngle := (-135)%Q in
  let endAngle := indicatorRotation s in
  if Qle_bool (endAngle - startAngle) 180 then 0 else 1.

Inductive Event :=
| PointerDown (angle : Q)
| PointerMove (angle : Q)
| PointerUp
| Wheel (deltaY : Q).

Definition step (ev : Event) (s : State) : State * list Q :=
  match ev with
  | PointerDown angle => handlePointerDown angle s
  | PointerMove angle => handlePointerMove angle s
  | PointerUp => handlePointerUp s
  | Wheel deltaY => handleWheel deltaY s
  end.

Fixpoint run (evs : list Event) (s : State) : State * list Q :=
  match evs with
  | [] => (s, [])
  | ev :: rest =>
      let r := step ev s in
      let r' := run rest (fst r) in
      (fst r', snd r ++ snd r')
  end.

(** A slider as constructed, showing weight [v]. *)
Definition initial (v : Q) : State :=
  {| value := v; isDragging := false; startAngle := 0; startValue := 0 |}.

End WeightSlider.

(** ** The name of the downloaded file *)

Module Download.

Import Utils PromptDj.

(** Character classes over UTF-16 code units: [[a-zA-Z0-9]], and [\s] of
    ECMAScript (white space and line terminators). *)
Definition isAlnum (c : Z) : bool :=
  ((48 <=? c) && (c <=? 57)) || ((65 <=? c) && (c <=? 90))
  || ((97 <=? c) && (c <=? 122)).

Definition isSpace (c : Z) : bool :=
  ((9 <=? c) && (c <=? 13)) || (c =? 32) || (c =? 160) || (c =? 5760)
  || ((8192 <=? c) && (c <=? 8202)) || (c =? 8232) || (c =? 8233)
  || (c =? 8239) || (c =? 8287) || (c =? 12288) || (c =? 65279).

(** [text.replace(/[^a-zA-Z0-9\s]/g, '')]. *)
Definition removeSymbols (text : list Z) : list Z :=
  List.filter (fun c => isAlnum c || isSpace c) text.

(** [text.replace(/\s+/g, '-')]: every maximal run of white space becomes
    one hyphen; [inRun] tells that the previous code unit was white
    space. *)
Fixpoint hyphenate (inRun : bool) (text : list Z) : list Z :=
  match text with
  | [] => []
  | c :: rest =>
      if isSpace c
      then (if inRun then hyphenate true rest else 45 :: hyphenate true rest)
      else c :: hyphenate false rest
  end.

(** The part of the file name made of one prompt text. *)
Definition sanitize (text : list Z) : list Z :=
  take 30 (hyphenate false (removeSymbols text)).

(** [array.join('_')]. *)
Fixpoint join (parts : list (list Z)) : list Z :=
  match parts with
  | [] => []
  | [p] => p
  | p :: rest => p ++ 95 :: join rest
  end.

(** [promptTexts]: the sanitized texts that are not empty. *)
Definition promptTexts (texts : list (list Z)) : list (list Z) :=
  List.filter (fun t => negb (List.length t =? 0)%nat) (map sanitize texts).

(** The stem of the file name, before [_], the timestamp and [.wav]. *)
Definition stem (texts : list (list Z)) : list Z :=
  if (0 <? List.length (promptTexts texts))%nat then join (promptTexts texts)
  else charCodes "generated_audio".

Definition filename (texts : list (list Z)) (timestamp : list Z) : list Z :=
  stem texts ++ 95 :: timestamp ++ charCodes ".wav".

(** The file name that [handleDownload] gives to the recording of the
    prompts of [s]. *)
Definition downloadName (timestamp : list Z) (s : State) : list Z :=
  filename (map (fun p => charCodes (text p)) (prompts s)) timestamp.

(** The code units allowed in a stem: letters, digits, [-] and [_]. *)
Definition isSafe (c : Z) : bool := isAlnum c || (c =? 45) || (c =? 95).

End Download.

(** ** Adding and removing prompts, and the elapsed-time display *)

Module Prompts.

Import Stdlib.Strings.Ascii PromptDj Palette.

(** The [Map] of prompts is the list of its values in insertion order,
    each under the key [promptId] of the value, as in every map the
    component builds; [has], [set] and [delete] are the methods of
    [Map]. *)
Definition has (key : string) (m : list Prompt) : bool :=
  existsb (fun p => String.eqb (promptId p) key) m.

Fixpoint set (p : Prompt) (m : list Prompt) : list Prompt :=
  match m with
  | [] => [p]
  | q :: rest =>
      if String.eqb (promptId q) (promptId p) then p :: rest else q :: set p rest
  end.

Definition delete (key : string) (m : list Prompt) : list Prompt :=
  List.filter (fun p => negb (String.eqb (promptId p) key)) m.

(** [handleAddPrompt], up to the submission: the new value of
    [nextPromptId], the new state and the calls.  [random] is the value
    that [Math.random()] returns inside [getUnusedRandomColor]; the result
    is [None] when that returns [undefined]. *)
Definition handleAddPrompt (nextPromptId : nat) (random : Q) (now : Z) (s : State)
  : option (nat * (State * list Call)) :=
  let newPromptId := "prompt-" +:+ pretty nextPromptId in
  let usedColors := map color (prompts s) in
  color ← getUnusedRandomColor random usedColors;
  let newPrompt :=
    {| promptId := newPromptId; text := "New Prompt"; weight := 0; color := color |} in
  let newPrompts := set newPrompt (prompts s) in
  Some (S nextPromptId, reconfigure newPrompts now s).

(** [handlePromptRemoved], up to the event it dispatches. *)
Definition handlePromptRemoved (promptIdToRemove : string) (now : Z) (s : State)
  : State * list Call :=
  if has promptIdToRemove (prompts s)
  then reconfigure (delete promptIdToRemove (prompts s)) now s
  else (s, []).

(** The keys are [prompt-k] for different [k] below [nextPromptId]. *)
Definition numbered (nextPromptId : nat) (m : list Prompt) : Prop :=
  exists ks : list nat,
    map promptId m = map (fun k => "prompt-" +:+ pretty k) ks
    /\ List.NoDup ks
    /\ Forall (fun k => (k < nextPromptId)%nat) ks.

(** [str.padStart(targetLength, fill)] for a one-character [fill]. *)
Definition padStart (targetLength : nat) (fill : Ascii.ascii) (str : string) : string :=
  String.string_of_list_ascii (repeat fill (targetLength - String.length str)) +:+ str.

(** [pad] of [formatTime]: [num.toString().padStart(2, '0')]. *)
Definition pad (num : Z) : string := padStart 2 "0"%char (pretty num).

(** [formatTime(seconds)] for a whole number of seconds, as
    [elapsedTime] is. *)
Definition formatTime (seconds : Z) : string :=
  let minutes := seconds / 60 in
  let remainingSeconds := Z.rem seconds 60 in
  pad minutes +:+ ":" +:+ pad remainingSeconds.

(** The two decimal digits of a number below 100. *)
Definition digitChar (d : Z) : Ascii.ascii := Ascii.ascii_of_nat (48 + Z.to_nat d).

Definition twoDigits (k : Z) : string :=
  String (digitChar (k / 10)) (String (digitChar (k mod 10)) EmptyString).

End Prompts.

(** * Properties *)

Import JS Utils PromptDj Samples Runs.

(** ** Comparisons and durations *)

Lemma Qltb_lt (x y : Q) : Qltb x y = true <-> (x < y)%Q.
Proof.
  unfold Qltb. rewrite negb_true_iff, <- not_true_iff_false, Qle_bool_iff.
  split; [apply Qnot_le_lt | apply Qlt_not_le].
Qed.

Lemma Qltb_ge (x y : Q) : Qltb x y = false <-> (y <= x)%Q.
Proof. unfold Qltb. rewrite negb_false_iff. apply Qle_bool_iff. Qed.

Lemma duration_nonneg (b : AudioBuffer) : (0 <= duration b)%Q.
Proof. unfold duration, Qle. simpl. lia. Qed.

(** ** Projections of the call trace *)

Lemma scheduled_app (l1 l2 : list Call) :
  scheduled (l1 ++ l2) = scheduled l1 ++ scheduled l2.
Proof. apply flat_map_app. Qed.

Lemma logged_app (l1 l2 : list Call) : logged (l1 ++ l2) = logged l1 ++ logged l2.
Proof. apply flat_map_app. Qed.

Lemma decoded_app (l1 l2 : list Call) : decoded (l1 ++ l2) = decoded l1 ++ decoded l2.
Proof. apply flat_map_app. Qed.

Lemma submitted_app (l1 l2 : list Call) :
  submitted (l1 ++ l2) = submitted l1 ++ submitted l2.
Proof. apply flat_map_app. Qed.

Create Rewrite HintDb trace.
#[local] Hint Rewrite scheduled_app logged_app decoded_app submitted_app : trace.

(** The state of the gate, from the other test. *)
Lemma playingOrLoading_open (p : PlaybackState) :
  playingOrLoading p = true -> pausedOrStopped p = false.
Proof. destruct p; (reflexivity || discriminate). Qed.

Lemma pausedOrStopped_open (p : PlaybackState) :
  pausedOrStopped p = false -> playingOrLoading p = true.
Proof. destruct p; (reflexivity || discriminate). Qed.

Lemma clearTimer_quiet flag s :
  scheduled (snd (clearTimer flag s)) = []
  /\ logged (snd (clearTimer flag s)) = []
  /\ decoded (snd (clearTimer flag s)) = []
  /\ submitted (snd (clearTimer flag s)) = [].
Proof. unfold clearTimer. destruct (timerIntervalId s); auto. Qed.

Lemma clearTimer_state flag s :
  nextStartTime (fst (clearTimer flag s)) = nextStartTime s
  /\ playbackState (fst (clearTimer flag s)) = playbackState s
  /\ recordedChunks (fst (clearTimer flag s)) = recordedChunks s.
Proof. unfold clearTimer. destruct (timerIntervalId s), flag; auto. Qed.

Lemma updateSettings_state now s :
  let r := updateSettings now s in
  nextStartTime (fst r) = nextStartTime s
  /\ playbackState (fst r) = playbackState s
  /\ recordedChunks (fst r) = recordedChunks s
  /\ timerIntervalId (fst r) = timerIntervalId s
  /\ lastCall (fst r) = lastCall s
  /\ scheduled (snd r) = [] /\ logged (snd r) = []
  /\ decoded (snd r) = [] /\ submitted (snd r) = [].
Proof.
  unfold updateSettings. cbv zeta.
  destruct (200 <=? now - settingsLastCall s); cbn; repeat split; reflexivity.
Qed.

(** What [handleReset] leaves, in terms of the reconnection it starts
    with. *)
Lemma handleReset_spec t now s :
  let r := handleReset t now s in
  let rc := reconnect now s in
  nextStartTime (fst r) = 0%Q
  /\ playbackState (fst r) = paused
  /\ recordedChunks (fst r) = []
  /\ timerIntervalId (fst r) = false
  /\ elapsedTime (fst r) = 0
  /\ lastCall (fst r) = lastCall (fst rc)
  /\ connectionError (fst r) = connectionError s
  /\ filteredPrompts (fst r) = filteredPrompts s
  /\ prompts (fst r) = prompts s
  /\ scheduled (snd r) = [] /\ logged (snd r) = [] /\ decoded (snd r) = []
  /\ submitted (snd r) = submitted (snd rc).
Proof.
  unfold handleReset, updateSettings, pauseAudio, reconnect, setSessionPrompts,
    throttle, clearTimer.
  destruct s as [ps c st rc fp ce ts ti el lc slc]. cbn.
  destruct ce; cbn; try destruct (200 <=? now - lc); cbn;
    destruct ti; cbn; destruct (200 <=? now - slc); cbn;
    repeat split; reflexivity.
Qed.

(** ** The scheduler *)

Lemma onAudioChunks_outcome chunks clock s :
  (0 <= nextStartTime s)%Q -> (0 <= clock)%Q ->
  logged (snd (onAudioChunks chunks clock s)) = [] ->
  stepOutcome s (fst (onAudioChunks chunks clock s)) (snd (onAudioChunks chunks clock s)).
Proof.
  intros Hc Hn. unfold onAudioChunks.
  destruct (pausedOrStopped (playbackState s)) eqn:Eg; [left; auto|].
  destruct chunks as [|data rest]; [left; auto|].
  destruct (decodeAudioData data 48000 2) as [b|]; [|left; auto].
  rewrite (pausedOrStopped_open _ Eg).
  assert (Hrec : forall v, nextStartTime (set_recordedChunks v s) = nextStartTime s)
    by reflexivity.
  rewrite Hrec.
  destruct (Qeq_bool (nextStartTime s) 0) eqn:E0;
    cbn [fst snd nextStartTime set_nextStartTime set_recordedChunks];
    match goal with |- context [Qltb ?c ?n] => destruct (Qltb c n) eqn:Elt end;
    cbn [fst snd]; autorewrite with trace; cbn [logged flat_map app]; try discriminate;
    intros _; right; exists b;
    cbn [scheduled flat_map app nextStartTime set_nextStartTime set_recordedChunks
         recordedChunks];
    (eexists; split; [reflexivity|]);
    apply Qltb_ge in Elt;
    first [apply Qeq_bool_iff in E0 | apply Qeq_bool_neq in E0];
    unfold bufferTime in *;
    repeat split; try reflexivity; try (intros; (contradiction || lra)); try lra.
Qed.

Lemma step_outcome ev s :
  keepsStream ev = true ->
  (0 <= nextStartTime s)%Q ->
  logged (snd (step ev s)) = [] ->
  stepOutcome s (fst (step ev s)) (snd (step ev s)).
Proof.
  intros Hk Hc Hlog. destruct ev as [e t| |cb t| | |ps t| ]; try discriminate.
  - apply Qle_bool_iff in Hk. cbn [step] in *. unfold onmessage in *.
    set (s0 := if setupComplete e then set_connectionError false s else s) in *.
    assert (Hs0 : nextStartTime s0 = nextStartTime s /\ recordedChunks s0 = recordedChunks s)
      by (subst s0; destruct (setupComplete e); split; reflexivity).
    destruct Hs0 as [Hs0 Hr0].
    destruct (filteredPrompt e) as [fp|]; cbn [fst snd] in *.
    + destruct (audioChunks e) as [chunks|]; [|left; auto].
      cbn [fst snd app] in *.
      set (s1 := set_filteredPrompts _ s0) in *.
      assert (Hs1 : nextStartTime s1 = nextStartTime s) by exact Hs0.
      assert (Hr1 : recordedChunks s1 = recordedChunks s) by exact Hr0.
      pose proof (onAudioChunks_outcome chunks t s1) as H.
      rewrite Hs1 in H. specialize (H Hc Hk Hlog).
      unfold stepOutcome in *. cbn [scheduled flat_map app].
      rewrite Hs1, Hr1 in H. exact H.
    + destruct (audioChunks e) as [chunks|]; [|left; auto].
      cbn [fst snd app] in *.
      pose proof (onAudioChunks_outcome chunks t s0) as H.
      rewrite Hs0 in H. specialize (H Hc Hk Hlog).
      unfold stepOutcome in *. rewrite Hs0, Hr0 in H. exact H.
  - destruct cb; try discriminate; cbn [step]; left.
    + unfold bufferElapsed. cbn. destruct (timerIntervalId s); auto.
    + auto.
  - cbn [step]. left. unfold reconfigure, setSessionPrompts, throttle.
    cbn. destruct (200 <=? t - lastCall s); auto.
Qed.

Lemma run_chain evs : forall s,
  forallb keepsStream evs = true ->
  (0 <= nextStartTime s)%Q ->
  logged (snd (run evs s)) = [] ->
  chain (nextStartTime s) (scheduled (snd (run evs s))) (nextStartTime (fst (run evs s)))
  /\ recordedChunks (fst (run evs s))
     = recordedChunks s ++ map fst (scheduled (snd (run evs s))).
Proof.
  induction evs as [|ev evs IH]; intros s Hk Hc Hlog.
  { cbn. rewrite app_nil_r. auto. }
  cbn [run fst snd] in *. rewrite logged_app in Hlog.
  apply app_eq_nil in Hlog as [Hlog1 Hlog2].
  cbn [forallb] in Hk. apply andb_true_iff in Hk as [Hk1 Hk2].
  rewrite scheduled_app.
  destruct (step_outcome ev s Hk1 Hc Hlog1)
    as [(Hnil & Hsame & Hrec)|(b & t & Hone & Hcur & Hpos & Hnext & Hrec)].
  - rewrite Hnil, <- Hsame, <- Hrec. apply IH; auto. rewrite Hsame. exact Hc.
  - rewrite Hone. cbn [app chain map fst].
    assert (Hc' : (0 <= nextStartTime (fst (step ev s)))%Q)
      by (rewrite Hnext; pose proof (duration_nonneg b); lra).
    destruct (IH (fst (step ev s)) Hk2 Hc' Hlog2) as [IH1 IH2].
    rewrite Hnext in IH1 at 1. rewrite IH2, Hrec, <- app_assoc. auto.
Qed.

Lemma chain_consecutive starts : forall c c' (k : nat) b t b' t',
  chain c starts c' ->
  starts !! k = Some (b, t) -> starts !! S k = Some (b', t') ->
  t' = (t + duration b)%Q /\ (t <= t')%Q.
Proof.
  induction starts as [|[b0 t0] rest IH]; intros c c' k b t b' t' Hch Hk HSk; [discriminate|].
  destruct Hch as (_ & Hpos & Hrest). destruct k as [|k].
  - injection Hk as -> ->. destruct rest as [|[b1 t1] rest]; [discriminate|].
    injection HSk as -> ->. destruct Hrest as (Hcur & _ & _).
    pose proof (duration_nonneg b).
    assert (Ht' : t' = (t + duration b)%Q) by (apply Hcur; lra).
    split; [exact Ht' | rewrite Ht'; lra].
  - eapply IH; eauto.
Qed.

Lemma chain_last starts : forall c c' b t,
  chain c starts c' -> last starts = Some (b, t) -> c' = (t + duration b)%Q.
Proof.
  induction starts as [|[b0 t0] rest IH]; intros c c' b t Hch Hl; [discriminate|].
  destruct Hch as (_ & _ & Hrest). destruct rest as [|x rest].
  - injection Hl as -> ->. exact Hrest.
  - eapply IH; eauto.
Qed.

Lemma onmessage_audio e clock s chunks :
  audioChunks e = Some chunks ->
  exists s0 pre,
    onmessage e clock s
    = (fst (onAudioChunks chunks clock s0), pre ++ snd (onAudioChunks chunks clock s0))
    /\ nextStartTime s0 = nextStartTime s
    /\ playbackState s0 = playbackState s
    /\ recordedChunks s0 = recordedChunks s
    /\ timerIntervalId s0 = timerIntervalId s
    /\ scheduled pre = [] /\ logged pre = [] /\ decoded pre = []
    /\ forall c, In c pre -> exists m, c = ToastShow m.
Proof.
  intros He. unfold onmessage. rewrite He.
  destruct (setupComplete e), (filteredPrompt e) as [fp|]; cbn [fst snd];
    eexists; eexists; (split; [reflexivity|]); repeat split; try reflexivity.
  all: intros c Hin; cbn in Hin; try contradiction; destruct Hin as [<-|[]]; eauto.
Qed.

(** A segment that passes the gate and decodes is appended to the Capture
    Log; then it is either started at the cursor, which advances by its
    duration, or reported as an under-run. *)
Lemma onAudioChunks_accepted data rest clock s b :
  playingOrLoading (playbackState s) = true ->
  decodeAudioData data 48000 2 = Normal b ->
  let r := onAudioChunks (data :: rest) clock s in
  let c := if Qeq_bool (nextStartTime s) 0 then (clock + bufferTime)%Q
           else nextStartTime s in
  decoded (snd r) = [data]
  /\ recordedChunks (fst r) = recordedChunks s ++ [b]
  /\ (if Qltb c clock
      then logged (snd r) = ["under run"%string] /\ scheduled (snd r) = []
           /\ playbackState (fst r) = loading /\ nextStartTime (fst r) = 0%Q
      else logged (snd r) = [] /\ scheduled (snd r) = [(b, c)]
           /\ playbackState (fst r) = playbackState s
           /\ nextStartTime (fst r) = (c + duration b)%Q).
Proof.
  intros Hacc Hdec. unfold onAudioChunks.
  rewrite (playingOrLoading_open _ Hacc), Hdec, Hacc.
  assert (Hrec : forall v, nextStartTime (set_recordedChunks v s) = nextStartTime s)
    by reflexivity.
  rewrite Hrec.
  destruct (Qeq_bool (nextStartTime s) 0) eqn:E0;
    cbn [fst snd nextStartTime set_nextStartTime set_recordedChunks];
    match goal with |- context [Qltb ?c ?n] => destruct (Qltb c n) eqn:Elt end;
    cbn [fst snd];
    autorewrite with trace;
    cbn [logged scheduled decoded flat_map app];
    destruct (clearTimer_quiet true
                (set_nextStartTime 0 (set_playbackState loading
                   (set_nextStartTime (clock + bufferTime)
                      (set_recordedChunks (recordedChunks s ++ [b]) s)))))
      as (Hq1 & Hq2 & Hq3 & _);
    destruct (clearTimer_state true
                (set_nextStartTime 0 (set_playbackState loading
                   (set_nextStartTime (clock + bufferTime)
                      (set_recordedChunks (recordedChunks s ++ [b]) s)))))
      as (Hs1 & Hs2 & Hs3);
    destruct (clearTimer_quiet true
                (set_nextStartTime 0 (set_playbackState loading
                      (set_recordedChunks (recordedChunks s ++ [b]) s))))
      as (Hq1' & Hq2' & Hq3' & _);
    destruct (clearTimer_state true
                (set_nextStartTime 0 (set_playbackState loading
                      (set_recordedChunks (recordedChunks s ++ [b]) s))))
      as (Hs1' & Hs2' & Hs3');
    rewrite ?Hq1, ?Hq2, ?Hq3, ?Hs1, ?Hs2, ?Hs3, ?Hq1', ?Hq2', ?Hq3', ?Hs1', ?Hs2', ?Hs3';
    repeat split; reflexivity.
Qed.

Lemma step_arrival ev s :
  keepsStream ev = true ->
  playingOrLoading (playbackState s) = true ->
  logged (snd (step ev s)) = [] ->
  map fst (scheduled (snd (step ev s))) = arrival ev
  /\ playingOrLoading (playbackState (fst (step ev s))) = true.
Proof.
  intros Hk Hopen Hlog. destruct ev as [e t| |cb t| | |ps t| ]; try discriminate.
  - cbn [step arrival] in *.
    destruct (audioChunks e) as [chunks|] eqn:He.
    + destruct (onmessage_audio e t s chunks He)
        as (s0 & pre & Hr & _ & Hp0 & _ & _ & Hsch & Hlg & _).
      rewrite Hr in *. cbn [fst snd] in *.
      rewrite logged_app, Hlg in Hlog. cbn [app] in Hlog.
      rewrite scheduled_app, Hsch. cbn [app].
      rewrite <- Hp0 in Hopen.
      destruct chunks as [|data rest].
      * unfold onAudioChunks. destruct (pausedOrStopped (playbackState s0)); auto.
      * destruct (decodeAudioData data 48000 2) as [b|x] eqn:Hb.
        -- pose proof (onAudioChunks_accepted data rest t s0 b Hopen Hb) as H.
           cbv zeta in H. destruct H as (_ & _ & H).
           destruct (Qltb _ t).
           ++ destruct H as (Hund & _). rewrite Hund in Hlog. discriminate.
           ++ destruct H as (_ & Hs & Hp & _). rewrite Hs, Hp. auto.
        -- unfold onAudioChunks. rewrite (playingOrLoading_open _ Hopen), Hb. auto.
    + unfold onmessage. rewrite He.
      destruct (setupComplete e), (filteredPrompt e); cbn; auto.
  - destruct cb; try discriminate; cbn [step arrival].
    + unfold bufferElapsed. cbn. destruct (timerIntervalId s); auto.
    + auto.
  - cbn [step arrival]. unfold reconfigure, setSessionPrompts, throttle.
    cbn. destruct (200 <=? t - lastCall s); auto.
Qed.

Lemma run_arrivals evs : forall s,
  forallb keepsStream evs = true ->
  playingOrLoading (playbackState s) = true ->
  logged (snd (run evs s)) = [] ->
  map fst (scheduled (snd (run evs s))) = arrivals evs.
Proof.
  induction evs as [|ev evs IH]; intros s Hk Hopen Hlog; [reflexivity|].
  cbn [run fst snd] in *. rewrite logged_app in Hlog.
  apply app_eq_nil in Hlog as [Hlog1 Hlog2].
  cbn [forallb] in Hk. apply andb_true_iff in Hk as [Hk1 Hk2].
  destruct (step_arrival ev s Hk1 Hopen Hlog1) as [H1 H2].
  rewrite scheduled_app, map_app, H1, (IH _ Hk2 H2 Hlog2). reflexivity.
Qed.

(** C1. In a run of the stream with no pause, stop, reset, reload or
    session error, no submission that the session rejects and no
    under-run notice: when the state is 'playing' or 'loading', every
    segment that arrives (the first chunk of a message, when it decodes)
    is started, in arrival order, and nothing else is; every segment
    accepted into the Capture Log is started; the first start is at the
    cursor when one is set; each later start equals the previous start
    plus the previous segment's duration, so starts never decrease and
    leave no gap; and the cursor ends at the last start plus the last
    duration. *)
Theorem gapless_scheduling (evs : list Event) (s : State) :
  forallb keepsStream evs = true ->
  (0 <= nextStartTime s)%Q ->
  logged (snd (run evs s)) = [] ->
  let starts := scheduled (snd (run evs s)) in
  (playingOrLoading (playbackState s) = true -> map fst starts = arrivals evs)
  /\ recordedChunks (fst (run evs s)) = recordedChunks s ++ map fst starts
  /\ (forall b t, head starts = Some (b, t) ->
        ~ nextStartTime s == 0 -> t = nextStartTime s)
  /\ (forall (k : nat) b t b' t',
        starts !! k = Some (b, t) -> starts !! S k = Some (b', t') ->
        t' = (t + duration b)%Q /\ (t <= t')%Q)
  /\ (forall b t, last starts = Some (b, t) ->
        nextStartTime (fst (run evs s)) = (t + duration b)%Q).
Proof.
  intros Hk Hc Hlog starts.
  destruct (run_chain evs s Hk Hc Hlog) as [Hch Hrec]. fold starts in Hch, Hrec.
  split; [intros Hopen; apply run_arrivals; assumption|].
  split; [exact Hrec|]. split; [|split].
  - intros b t Hh Hne. destruct starts as [|[b0 t0] rest]; [discriminate|].
    injection Hh as -> ->. destruct Hch as (H & _). auto.
  - intros k b t b' t'. eapply chain_consecutive; eauto.
  - intros b t. eapply chain_last; eauto.
Qed.

Lemma gapless_scheduling_witness :
  let evs := [Message audio0 1; Message audio0 (3 # 2); Fired BufferElapsed 3;
              Message audio0 (3 # 1)] in
  let starts := scheduled (snd (run evs loaded0)) in
  map fst starts = [buffer0; buffer0; buffer0]
  /\ recordedChunks (fst (run evs loaded0)) = recordedChunks loaded0 ++ map fst starts
  /\ (forall b t, head starts = Some (b, t) ->
        ~ nextStartTime loaded0 == 0 -> t = nextStartTime loaded0)
  /\ (forall (k : nat) b t b' t',
        starts !! k = Some (b, t) -> starts !! S k = Some (b', t') ->
        t' = (t + duration b)%Q /\ (t <= t')%Q)
  /\ (forall b t, last starts = Some (b, t) ->
        nextStartTime (fst (run evs loaded0)) = (t + duration b)%Q).
Proof.
  intros evs.
  destruct (gapless_scheduling evs loaded0) as (H1 & H2).
  - reflexivity.
  - vm_compute. discriminate.
  - reflexivity.
  - split; [apply H1; reflexivity | exact H2].
Defined.

Example gapless_starts :
  map snd (scheduled (snd (run [Message audio0 1; Message audio0 (3 # 2);
                                Fired BufferElapsed 3; Message audio0 (3 # 1)] loaded0)))
  = [3%Q; (3 + (2 # 48000))%Q; (3 + (2 # 48000) + (2 # 48000))%Q].
Proof. reflexivity. Qed.

Lemma bufferElapsed_state t s :
  nextStartTime (fst (bufferElapsed t s)) = nextStartTime s
  /\ recordedChunks (fst (bufferElapsed t s)) = recordedChunks s
  /\ playbackState (fst (bufferElapsed t s)) = playing
  /\ scheduled (snd (bufferElapsed t s)) = [].
Proof.
  unfold bufferElapsed. cbn. destruct (timerIntervalId s); cbn; auto.
Qed.

Lemma run_timers timers : forall s,
  forallb isTimer timers = true ->
  nextStartTime (fst (run timers s)) = nextStartTime s
  /\ recordedChunks (fst (run timers s)) = recordedChunks s
  /\ (playingOrLoading (playbackState s) = true ->
      playingOrLoading (playbackState (fst (run timers s))) = true)
  /\ scheduled (snd (run timers s)) = [].
Proof.
  induction timers as [|ev timers IH]; intros s Ht; [cbn; auto|].
  cbn [forallb] in Ht. apply andb_true_iff in Ht as [Hev Ht].
  cbn [run fst snd]. rewrite scheduled_app.
  destruct (IH (fst (step ev s)) Ht) as (IH1 & IH2 & IH3 & IH4).
  rewrite IH1, IH2, IH4.
  destruct ev as [| |[| |] t| | | |]; try discriminate; cbn [step] in *.
  - destruct (bufferElapsed_state t s) as (H1 & H2 & H3 & H4).
    rewrite H1, H2, H4. repeat split; auto.
    intros _. apply IH3. rewrite H3. reflexivity.
  - cbn in *. repeat split; auto.
Qed.

(** The cursor is never negative: it is 0, or a clock reading plus the
    lead, or a start plus a duration. *)
Lemma step_cursor_nonneg ev s :
  clockOk ev = true ->
  (0 <= nextStartTime s)%Q -> (0 <= nextStartTime (fst (step ev s)))%Q.
Proof.
  intros Hclk Hc.
  destruct ev as [e t|t|cb t|t n|t n|ps n|msg t]; cbn [step].
  - apply Qle_bool_iff in Hclk.
    destruct (audioChunks e) as [chunks|] eqn:He.
    + destruct (onmessage_audio e t s chunks He) as (s0 & pre & Hr & Hc0 & _).
      rewrite Hr. cbn [fst]. rewrite <- Hc0 in Hc. clear Hr.
      unfold onAudioChunks.
      destruct (pausedOrStopped (playbackState s0)) eqn:Eg; [exact Hc|].
      destruct chunks as [|data rest]; [exact Hc|].
      destruct (decodeAudioData data 48000 2) as [b|] eqn:Hb; [|exact Hc].
      pose proof (onAudioChunks_accepted data rest t s0 b
                    (pausedOrStopped_open _ Eg) Hb) as H.
      cbv zeta in H. destruct H as (_ & _ & H).
      unfold onAudioChunks in H. rewrite Eg, Hb in H.
      pose proof (duration_nonneg b).
      destruct (Qltb _ t); destruct H as (_ & _ & _ & ->); [lra|].
      destruct (Qeq_bool (nextStartTime s0) 0); unfold bufferTime; lra.
    + unfold onmessage. rewrite He.
      destruct (setupComplete e), (filteredPrompt e); exact Hc.
  - unfold onerror, stopAudio. cbn [fst].
    destruct (clearTimer_state true
                (set_nextStartTime 0 (set_playbackState stopped (set_connectionError true s))))
      as (-> & _). cbn. lra.
  - destruct cb; cbn.
    + destruct (bufferElapsed_state t s) as (-> & _). exact Hc.
    + exact Hc.
    + exact Hc.
  - unfold handlePlayPause.
    assert (Hload : (0 <= nextStartTime (fst (loadAudio t (fst (reconnect n s)))))%Q).
    { unfold reconnect, setSessionPrompts, throttle.
      destruct (connectionError s); [|exact Hc].
      cbn. destruct (200 <=? n - lastCall s); exact Hc. }
    destruct (playbackState s); cbn [fst]; try exact Hload.
    + unfold pauseAudio. cbn [fst].
      match goal with |- context [clearTimer false ?x] =>
        destruct (clearTimer_state false x) as (-> & _) end. cbn. lra.
    + unfold stopAudio. cbn [fst].
      match goal with |- context [clearTimer true ?x] =>
        destruct (clearTimer_state true x) as (-> & _) end. cbn. lra.
  - destruct (handleReset_spec t n s) as (-> & _). lra.
  - unfold reconfigure, setSessionPrompts, throttle. cbn.
    destruct (200 <=? n - lastCall s); exact Hc.
  - unfold onSubmissionRejected, pauseAudio. cbn [fst].
    match goal with |- context [clearTimer false ?x] =>
      destruct (clearTimer_state false x) as (-> & _) end. cbn. lra.
Qed.

Lemma reachable_cursor_nonneg (evs : list Event) : forall s,
  forallb clockOk evs = true ->
  (0 <= nextStartTime s)%Q -> (0 <= nextStartTime (fst (run evs s)))%Q.
Proof.
  induction evs as [|ev evs IH]; intros s Hclk Hc; [exact Hc|].
  cbn [forallb] in Hclk. apply andb_true_iff in Hclk as [H1 H2].
  cbn [run fst]. apply IH; [exact H2|]. apply step_cursor_nonneg; assumption.
Qed.

(** C2. A segment handled while the cursor is set but already behind the
    clock is an under-run: the state becomes 'loading', the cursor goes
    back to 0 and the segment is not started.  The next accepted segment,
    whatever stream timers fire in between, arms the deferred switch to
    'playing' again and is started a fresh [bufferTime] = 2 seconds after
    the clock reading at its arrival. *)
Theorem underrun_recovery (e e2 : LiveMusicServerMessage) (data data2 : list Z)
  (rest rest2 : list (list Z)) (b b2 : AudioBuffer) (clock clock2 : Q)
  (timers : list Event) (s : State) :
  playingOrLoading (playbackState s) = true ->
  audioChunks e = Some (data :: rest) ->
  decodeAudioData data 48000 2 = Normal b ->
  ~ nextStartTime s == 0 ->
  (nextStartTime s < clock)%Q ->
  forallb isTimer timers = true ->
  audioChunks e2 = Some (data2 :: rest2) ->
  decodeAudioData data2 48000 2 = Normal b2 ->
  let r1 := onmessage e clock s in
  let r2 := onmessage e2 clock2 (fst (run timers (fst r1))) in
  (playbackState (fst r1) = loading
   /\ nextStartTime (fst r1) = 0%Q
   /\ scheduled (snd r1) = []
   /\ logged (snd r1) = ["under run"%string])
  /\ (bufferTime = 2%Q
      /\ In (SetTimeout BufferElapsed (bufferTime * 1000)) (snd r2)
      /\ scheduled (snd r2) = [(b2, (clock2 + bufferTime)%Q)]
      /\ logged (snd r2) = []
      /\ nextStartTime (fst r2) = (clock2 + bufferTime + duration b2)%Q).
Proof.
  intros Hacc He Hdec Hne Hlt Ht He2 Hdec2 r1 r2.
  destruct (onmessage_audio e clock s _ He)
    as (s0 & pre & Hr1 & Hc0 & Hp0 & _ & _ & Hsch & Hlog & _ & _).
  rewrite <- Hp0 in Hacc.
  pose proof (onAudioChunks_accepted data rest clock s0 b Hacc Hdec) as H1.
  cbv zeta in H1. rewrite Hc0 in H1.
  destruct (Qeq_bool (nextStartTime s) 0) eqn:E0.
  { exfalso. apply Hne. now apply Qeq_bool_iff. }
  apply Qltb_lt in Hlt. rewrite Hlt in H1.
  destruct H1 as (_ & _ & Hl1 & Hs1 & Hp1 & Hn1).
  assert (Hfst : fst r1 = fst (onAudioChunks (data :: rest) clock s0))
    by (subst r1; rewrite Hr1; reflexivity).
  assert (Hsnd : snd r1 = pre ++ snd (onAudioChunks (data :: rest) clock s0))
    by (subst r1; rewrite Hr1; reflexivity).
  split.
  { rewrite Hfst, Hsnd. autorewrite with trace. rewrite Hsch, Hlog, Hl1, Hs1. auto. }
  destruct (run_timers timers (fst r1) Ht) as (Hc & _ & Hp & _).
  rewrite Hfst in Hc, Hp. rewrite Hn1 in Hc. rewrite Hp1 in Hp.
  specialize (Hp eq_refl). rewrite <- Hfst in Hc, Hp.
  destruct (onmessage_audio e2 clock2 (fst (run timers (fst r1))) _ He2)
    as (s0' & pre' & Hr2 & Hc0' & Hp0' & _ & _ & Hsch' & Hlog' & _ & _).
  rewrite <- Hp0' in Hp.
  pose proof (onAudioChunks_accepted data2 rest2 clock2 s0' b2 Hp Hdec2) as H2.
  cbv zeta in H2. rewrite Hc0', Hc in H2. change (Qeq_bool 0 0) with true in H2.
  cbv iota in H2.
  assert (Hnolate : Qltb (clock2 + bufferTime) clock2 = false)
    by (apply Qltb_ge; unfold bufferTime; lra).
  rewrite Hnolate in H2. destruct H2 as (_ & _ & Hl2 & Hs2 & _ & Hn2).
  subst r2. rewrite Hr2. cbn [fst snd].
  autorewrite with trace. rewrite Hsch', Hlog', Hl2, Hs2, Hn2.
  repeat split; try reflexivity.
  apply in_or_app. right.
  unfold onAudioChunks.
  rewrite (playingOrLoading_open _ Hp), Hdec2, Hp.
  assert (Hrec : forall v, nextStartTime (set_recordedChunks v s0') = nextStartTime s0')
    by reflexivity.
  rewrite Hrec, Hc0', Hc. change (Qeq_bool 0 0) with true. cbv iota.
  cbn [fst snd nextStartTime set_nextStartTime]. rewrite Hnolate.
  cbn [snd app]. right. left. reflexivity.
Qed.

Lemma underrun_recovery_witness :
  let r1 := onmessage audio0 4 streaming0 in
  let r2 := onmessage audio0 5 (fst (run [Fired BufferElapsed (9 # 2)] (fst r1))) in
  (playbackState (fst r1) = loading
   /\ nextStartTime (fst r1) = 0%Q
   /\ scheduled (snd r1) = []
   /\ logged (snd r1) = ["under run"%string])
  /\ (bufferTime = 2%Q
      /\ In (SetTimeout BufferElapsed (bufferTime * 1000)) (snd r2)
      /\ scheduled (snd r2) = [(buffer0, (5 + bufferTime)%Q)]
      /\ logged (snd r2) = []
      /\ nextStartTime (fst r2) = (5 + bufferTime + duration buffer0)%Q).
Proof.
  apply (underrun_recovery audio0 audio0 chunk0 chunk0 [] [] buffer0 buffer0 4 5
           [Fired BufferElapsed (9 # 2)] streaming0).
  - reflexivity.
  - reflexivity.
  - reflexivity.
  - vm_compute. discriminate.
  - reflexivity.
  - reflexivity.
  - reflexivity.
  - reflexivity.
Defined.

(** ** The gate on inbound audio *)

(** C3 as stated fails: a chunk that arrives while the state is 'stopped'
    is not handed to the codec at all. *)
Lemma gating_counterexample :
  pausedOrStopped (playbackState (initial [])) = true
  /\ audioChunks audio0 = Some [chunk0]
  /\ ~ In chunk0 (decoded (snd (onmessage audio0 1 (initial [])))).
Proof. repeat split. intros []. Qed.

(** C3, amended. While the state is 'paused' or 'stopped' the handler
    returns before decoding: the chunk is not decoded, nothing is started,
    and the Capture Log, the cursor and the state stay as they were.  While
    the state is 'playing' or 'loading' the first chunk is decoded, and
    when it decodes to a segment that segment is appended to the Capture
    Log and handed to the scheduler, which starts it at the cursor or
    reports an under-run. *)
Theorem gating (e : LiveMusicServerMessage) (data : list Z) (rest : list (list Z))
  (clock : Q) (s : State) :
  audioChunks e = Some (data :: rest) ->
  let r := onmessage e clock s in
  (pausedOrStopped (playbackState s) = true ->
     decoded (snd r) = [] /\ scheduled (snd r) = []
     /\ recordedChunks (fst r) = recordedChunks s
     /\ nextStartTime (fst r) = nextStartTime s
     /\ playbackState (fst r) = playbackState s)
  /\ (playingOrLoading (playbackState s) = true ->
      decoded (snd r) = [data]
      /\ forall b, decodeAudioData data 48000 2 = Normal b ->
           recordedChunks (fst r) = recordedChunks s ++ [b]
           /\ ((exists t, scheduled (snd r) = [(b, t)] /\ logged (snd r) = []
                          /\ nextStartTime (fst r) = (t + duration b)%Q)
               \/ (scheduled (snd r) = [] /\ logged (snd r) = ["under run"%string]
                   /\ nextStartTime (fst r) = 0%Q /\ playbackState (fst r) = loading))).
Proof.
  intros He r.
  destruct (onmessage_audio e clock s _ He)
    as (s0 & pre & Hr & Hc0 & Hp0 & Hr0 & _ & Hsch & Hlog & Hdec & _).
  subst r. rewrite Hr. cbn [fst snd].
  autorewrite with trace. rewrite Hsch, Hdec, Hlog. cbn [app].
  rewrite <- Hc0, <- Hp0, <- Hr0. split.
  - intros Hg. unfold onAudioChunks. rewrite Hg. auto.
  - intros Hacc. split.
    + destruct (decodeAudioData data 48000 2) as [b|x] eqn:Hb.
      * apply (onAudioChunks_accepted data rest clock s0 b Hacc Hb).
      * unfold onAudioChunks.
        rewrite (playingOrLoading_open _ Hacc), Hb. reflexivity.
    + intros b Hb.
      pose proof (onAudioChunks_accepted data rest clock s0 b Hacc Hb) as H.
      cbv zeta in H. destruct H as (_ & Hrec & H). split; [exact Hrec|].
      match type of H with (if ?c then _ else _) => destruct c end.
      * right. tauto.
      * left. eexists. destruct H as (? & ? & ? & ?). eauto.
Qed.

Lemma gating_witness :
  let r := onmessage audio0 4 streaming0 in
  (pausedOrStopped (playbackState streaming0) = true ->
     decoded (snd r) = [] /\ scheduled (snd r) = []
     /\ recordedChunks (fst r) = recordedChunks streaming0
     /\ nextStartTime (fst r) = nextStartTime streaming0
     /\ playbackState (fst r) = playbackState streaming0)
  /\ (playingOrLoading (playbackState streaming0) = true ->
      decoded (snd r) = [chunk0]
      /\ forall b, decodeAudioData chunk0 48000 2 = Normal b ->
           recordedChunks (fst r) = recordedChunks streaming0 ++ [b]
           /\ ((exists t, scheduled (snd r) = [(b, t)] /\ logged (snd r) = []
                          /\ nextStartTime (fst r) = (t + duration b)%Q)
               \/ (scheduled (snd r) = [] /\ logged (snd r) = ["under run"%string]
                   /\ nextStartTime (fst r) = 0%Q /\ playbackState (fst r) = loading))).
Proof. apply (gating audio0 chunk0 [] 4 streaming0). reflexivity. Defined.

(** Both sides of the gate on the sample message. *)
Example gate_closed_when_paused :
  let paused0 := fst (pauseAudio 2 streaming0) in
  playbackState paused0 = paused
  /\ onmessage audio0 (5 # 2) paused0 = (paused0, []).
Proof. split; reflexivity. Qed.

Example gate_open_when_loading :
  playbackState loaded0 = loading
  /\ decoded (snd (onmessage audio0 1 loaded0)) = [chunk0]
  /\ scheduled (snd (onmessage audio0 1 loaded0)) = [(buffer0, (1 + bufferTime)%Q)]
  /\ recordedChunks (fst (onmessage audio0 1 loaded0)) = [buffer0].
Proof. repeat split; reflexivity. Qed.

(** ** The Capture Log under the transport controls *)

(** C6 as stated fails for stop: [stopAudio] leaves the recorded segments
    in the Capture Log. *)
Lemma stop_keeps_capture_log_counterexample :
  recordedChunks streaming0 = [buffer0; buffer0]
  /\ recordedChunks (fst (stopAudio 2 streaming0)) <> [].
Proof. split; [reflexivity | discriminate]. Qed.

Lemma stopAudio_log currentTime s :
  recordedChunks (fst (stopAudio currentTime s)) = recordedChunks s.
Proof.
  unfold stopAudio. cbn [fst].
  match goal with |- context [clearTimer true ?x] =>
    destruct (clearTimer_state true x) as (_ & _ & H) end.
  rewrite H. reflexivity.
Qed.

Lemma pauseAudio_log currentTime s :
  recordedChunks (fst (pauseAudio currentTime s)) = recordedChunks s.
Proof.
  unfold pauseAudio. cbn [fst].
  match goal with |- context [clearTimer false ?x] =>
    destruct (clearTimer_state false x) as (_ & _ & H) end.
  rewrite H. reflexivity.
Qed.

Lemma handleReset_log currentTime now s :
  recordedChunks (fst (handleReset currentTime now s)) = [].
Proof.
  unfold handleReset. cbn [fst snd].
  match goal with |- context [clearTimer false ?x] =>
    destruct (clearTimer_state false x) as (_ & _ & H) end.
  cbn [recordedChunks set_elapsedTime set_timerStartTime]. rewrite H. reflexivity.
Qed.

Lemma handlePlayPause_log currentTime now s :
  recordedChunks (fst (handlePlayPause currentTime now s))
  = (if pausedOrStopped (playbackState s) then [] else recordedChunks s).
Proof.
  unfold handlePlayPause.
  destruct (playbackState s); cbn [pausedOrStopped fst snd];
    [reflexivity | apply pauseAudio_log | apply stopAudio_log | reflexivity].
Qed.

(** C6, amended. The Capture Log is emptied by a reset ([handleReset]) and
    by a load ([loadAudio], which a play request from 'paused' or 'stopped'
    runs, as does the timeout armed by a reset); [stopAudio] leaves it as it
    is, and so does a play/pause request that pauses or stops. *)
Theorem capture_log_clearing (currentTime : Q) (now : Z) (s : State) :
  recordedChunks (fst (loadAudio currentTime s)) = []
  /\ recordedChunks (fst (handleReset currentTime now s)) = []
  /\ recordedChunks (fst (step (Fired LoadAudio currentTime) s)) = []
  /\ recordedChunks (fst (handlePlayPause currentTime now s))
     = (if pausedOrStopped (playbackState s) then [] else recordedChunks s)
  /\ recordedChunks (fst (stopAudio currentTime s)) = recordedChunks s.
Proof.
  split; [reflexivity|].
  split; [apply handleReset_log|].
  split; [reflexivity|].
  split; [apply handlePlayPause_log|].
  apply stopAudio_log.
Qed.

(** ** Throttled reconfiguration *)

(** C5 as stated fails: of five requests within 50 ms the one submission
    carries the payload of the first request, not of the last. *)
Lemma coalescing_counterexample :
  submitted (snd (run burst0 (initial []))) = [[funk 1]]
  /\ submitted (snd (run burst0 (initial []))) <> [[funk (1 # 4)]].
Proof. split; [reflexivity | discriminate]. Qed.

Lemma reconfigure_dropped newPrompts now s :
  now - lastCall s < 200 ->
  reconfigure newPrompts now s = (set_prompts newPrompts s, []).
Proof.
  intros H. unfold reconfigure, setSessionPrompts, throttle.
  cbn [lastCall set_prompts].
  destruct (200 <=? now - lastCall s) eqn:E; [apply Z.leb_le in E; lia | reflexivity].
Qed.

Lemma reconfigure_submitted newPrompts now s :
  200 <= now - lastCall s ->
  reconfigure newPrompts now s
  = (set_lastCall now (set_prompts newPrompts s),
     [SessionSetWeightedPrompts (promptsToSend (set_prompts newPrompts s))]).
Proof.
  intros H. unfold reconfigure, setSessionPrompts, throttle.
  cbn [lastCall set_prompts].
  destruct (200 <=? now - lastCall s) eqn:E; [reflexivity | apply Z.leb_gt in E; lia].
Qed.

Lemma last_cons_default {A} (x d : A) (l : list A) :
  List.last (x :: l) d = List.last l x.
Proof.
  revert x d. induction l as [|y l IH]; intros x d; [reflexivity|].
  change (List.last (x :: y :: l) d) with (List.last (y :: l) d).
  rewrite (IH y d), (IH y x). reflexivity.
Qed.

Lemma run_dropped (t1 : Z) (rest : list (list Prompt * Z)) : forall s,
  lastCall s = t1 ->
  Forall (fun r => snd r - t1 < 200) rest ->
  let r := run (map (fun r => Reconfigure (fst r) (snd r)) rest) s in
  submitted (snd r) = [] /\ lastCall (fst r) = t1
  /\ prompts (fst r) = List.last (map fst rest) (prompts s).
Proof.
  induction rest as [|[p t] rest IH]; intros s Hs Hall; [cbn; auto|].
  inversion Hall as [|? ? Ht Hrest]; subst. cbn [map run fst snd step].
  rewrite reconfigure_dropped by (cbn in Ht; lia).
  cbn [fst snd app].
  destruct (IH (set_prompts p s) eq_refl Hrest) as (H1 & H2 & H3).
  rewrite H1, H2, H3. repeat split.
  cbn [prompts set_prompts map fst]. symmetry. apply last_cons_default.
Qed.

(** C5, amended. Of a burst of reconfiguration requests whose first comes
    at least 200 ms after the last submission and whose others come less
    than 200 ms after the first, exactly one is submitted to the session:
    the first, with the prompts as they were at that request; the later
    ones are dropped, and only the component's own prompts follow them. *)
Theorem coalescing_keeps_first (first : list Prompt) (t1 : Z)
  (rest : list (list Prompt * Z)) (s : State) :
  200 <= t1 - lastCall s ->
  Forall (fun r => snd r - t1 < 200) rest ->
  let r := run (Reconfigure first t1 :: map (fun r => Reconfigure (fst r) (snd r)) rest) s in
  submitted (snd r) = [promptsToSend (set_prompts first s)]
  /\ lastCall (fst r) = t1
  /\ prompts (fst r) = List.last (map fst rest) first.
Proof.
  intros H1 Hrest. cbn [run step fst snd].
  rewrite reconfigure_submitted by exact H1. cbn [fst snd].
  destruct (run_dropped t1 rest (set_lastCall t1 (set_prompts first s)) eq_refl Hrest)
    as (Hsub & Hlast & Hp).
  rewrite submitted_app, Hsub, Hlast, Hp. repeat split.
Qed.

Lemma coalescing_keeps_first_witness :
  let r := run burst0 (initial []) in
  submitted (snd r) = [promptsToSend (set_prompts [funk 1] (initial []))]
  /\ lastCall (fst r) = 1000
  /\ prompts (fst r) = [funk (1 # 4)].
Proof.
  apply (coalescing_keeps_first [funk 1] 1000
           [([funk (3 # 2)], 1010); ([funk 2], 1020); ([funk (1 # 2)], 1030);
            ([funk (1 # 4)], 1040)] (initial [])).
  - vm_compute. discriminate.
  - repeat constructor.
Defined.

(** The throttle never lets two submissions closer than the delay. *)
Lemma throttle_spacing newPrompts now s :
  submitted (snd (reconfigure newPrompts now s)) <> [] ->
  200 <= now - lastCall s /\ lastCall (fst (reconfigure newPrompts now s)) = now.
Proof.
  intros H. destruct (Z_lt_le_dec (now - lastCall s) 200) as [Hlt|Hge].
  - rewrite reconfigure_dropped in H by exact Hlt. now cbn in H.
  - rewrite reconfigure_submitted by exact Hge. split; [exact Hge | reflexivity].
Qed.


(** ** The PCM codec *)

(** Truncation moves a number toward zero by less than one. *)
Lemma truncate_bounds (x : Q) :
  ((0 <= x -> inject_Z (JS.truncate x) <= x < inject_Z (JS.truncate x) + 1)
   /\ (x <= 0 -> inject_Z (JS.truncate x) - 1 < x <= inject_Z (JS.truncate x)))%Q.
Proof.
  destruct x as [n d]. unfold JS.truncate, Qle, Qlt, inject_Z. cbn.
  pose proof (Z.quot_rem' n (Z.pos d)) as Hqr.
  assert (Hd : 0 < Z.pos d) by lia.
  split; intros Hn.
  - assert (H0 : 0 <= n) by lia.
    pose proof (Z.rem_bound_pos n (Z.pos d) H0 Hd). nia.
  - assert (H0 : n <= 0) by lia.
    pose proof (Z.rem_nonpos n (Z.pos d) ltac:(lia) H0).
    pose proof (Z.rem_bound_abs n (Z.pos d) ltac:(lia)). nia.
Qed.

Lemma ToInt16_small (n : Z) : -32768 <= n < 32768 -> JS.ToInt16 n = n.
Proof.
  intros H. unfold JS.ToInt16. cbv zeta.
  destruct (32768 <=? n mod 65536) eqn:E;
    [apply Z.leb_le in E | apply Z.leb_gt in E];
    pose proof (Z.mod_pos_bound n 65536 ltac:(lia));
    pose proof (Z.div_mod n 65536 ltac:(lia)); lia.
Qed.

Lemma roundtrip_map (data : list Q) :
  decode_float32 (createBlob_int16 data) = map roundtrip data.
Proof. unfold decode_float32, createBlob_int16. rewrite map_map. reflexivity. Qed.

(** Below full scale the round trip loses less than one quantization
    step. *)
Lemma roundtrip_below_full_scale (x : Q) :
  (-1 <= x)%Q -> (x < 1)%Q -> (Qabs (x - roundtrip x) < 1 # 32768)%Q.
Proof.
  intros Hlo Hhi. unfold roundtrip.
  destruct (truncate_bounds (x * 32768)) as [Hpos Hneg].
  set (t := JS.truncate (x * 32768)) in *.
  assert (Ht : -32768 <= t < 32768).
  { split; [rewrite Zle_Qle | rewrite Zlt_Qlt];
      [change (inject_Z (-32768)) with (-32768)%Q
      | change (inject_Z 32768) with 32768%Q];
      destruct (Qlt_le_dec x 0) as [Hx|Hx];
      [destruct Hneg as [H1 H2] | destruct Hpos as [H1 H2]
      | destruct Hneg as [H1 H2] | destruct Hpos as [H1 H2]]; lra. }
  rewrite ToInt16_small by exact Ht.
  apply Qabs_Qlt_condition.
  assert (Hdiv : (inject_Z t / 32768 == inject_Z t * (1 # 32768))%Q) by reflexivity.
  rewrite Hdiv.
  destruct (Qlt_le_dec x 0) as [Hx|Hx].
  - destruct Hneg as [H1 H2]; [lra|]. split; lra.
  - destruct Hpos as [H1 H2]; [lra|]. split; lra.
Qed.

(** X1. Every block of samples in [-1, 1) comes back from [createBlob] and the
    decoder's division by 32768 with each sample less than one
    quantization step off. *)
Lemma roundtrip_all_below_full_scale (data : list Q) :
  Forall (fun x => -1 <= x /\ x < 1)%Q data ->
  Forall2 (fun x y => Qabs (x - y) < 1 # 32768)%Q data
    (decode_float32 (createBlob_int16 data)).
Proof.
  intros H. rewrite roundtrip_map. induction H as [|x data [Hlo Hhi] _ IH]; cbn [map].
  - constructor.
  - constructor; [apply roundtrip_below_full_scale; assumption | exact IH].
Qed.

(** C4, at the failing input. The sample 1.0 lies in [-1, 1]; [createBlob]
    stores 1.0 * 32768 = 32768 into an [Int16Array], where it wraps to
    -32768, and the decoder reads it back as -1: the round trip is off by
    2, not by at most 1/32768. *)
Theorem roundtrip_at_full_scale :
  (-1 <= 1 <= 1)%Q
  /\ createBlob_int16 [1%Q] = [-32768]
  /\ fst (createBlob [1%Q]) = [0; 128]
  /\ (exists b, decodeAudioData (fst (createBlob [1%Q])) 16000 1 = Normal b
                /\ (getChannelData b 0 0 == -1)%Q)
  /\ (roundtrip 1 == -1)%Q
  /\ ~ (Qabs (1 - roundtrip 1) <= 1 # 32768)%Q.
Proof.
  split; [split; discriminate|].
  split; [reflexivity|]. split; [reflexivity|]. split; [|split].
  - eexists. split; reflexivity.
  - reflexivity.
  - vm_compute. intros H. apply H. reflexivity.
Qed.


(** ** The WAV writer *)

Lemma setBytes_app_r bs : forall offset pre post,
  DataView.setBytes (List.length pre + offset) bs (pre ++ post)
  = pre ++ DataView.setBytes offset bs post.
Proof.
  induction bs as [|b bs IH]; intros offset pre post; [reflexivity|].
  cbn [DataView.setBytes]. rewrite insert_app_r.
  rewrite <- Nat.add_succ_r. apply IH.
Qed.

(** Runs the header writes on a view whose first 44 bytes are explicit. *)
Ltac header_bytes :=
  unfold wavHeader, writeHeader, writeString, DataView.setUint32, DataView.setUint16,
    DataView.setUint8, DataView.create;
  cbn [charCodes map String.list_ascii_of_string writeString_from DataView.setBytes
       TypedArray.bytes16 TypedArray.bytes32 repeat app insert list_insert].

(** The header writes touch the first 44 bytes only. *)
Lemma writeHeader_app (numOfChan frames : nat) (rate : positive) (tail : list Z) :
  writeHeader numOfChan frames rate (DataView.create 44 ++ tail)
  = wavHeader numOfChan frames rate ++ tail.
Proof.
  header_bytes.
  reflexivity.
Qed.

Lemma wavHeader_length numOfChan frames rate :
  List.length (wavHeader numOfChan frames rate) = 44%nat.
Proof.
  header_bytes.
  reflexivity.
Qed.

(** Four little-endian bytes put together again. *)
Lemma bytes32_value (v : Z) :
  0 <= v < 4294967296 ->
  JS.ToUint8 v + 256 * JS.ToUint8 (v / 256) + 65536 * JS.ToUint8 (v / 65536)
  + 16777216 * JS.ToUint8 (v / 16777216) = v.
Proof. unfold JS.ToUint8. intros H. Z.to_euclidean_division_equations. lia. Qed.

Lemma bytes16_value (v : Z) :
  0 <= v < 65536 -> JS.ToUint8 v + 256 * JS.ToUint8 (v / 256) = v.
Proof. unfold JS.ToUint8. intros H. Z.to_euclidean_division_equations. lia. Qed.

Lemma bytes16_signed (v : Z) :
  -32768 <= v < 32768 ->
  JS.ToInt16 (JS.ToUint8 v + 256 * JS.ToUint8 (v / 256)) = v.
Proof.
  unfold JS.ToInt16, JS.ToUint8. intros H. cbv zeta.
  destruct (32768 <=? _) eqn:E; [apply Z.leb_le in E | apply Z.leb_gt in E];
    Z.to_euclidean_division_equations; lia.
Qed.

Lemma ToUint32_range v : 0 <= JS.ToUint32 v < 4294967296.
Proof. unfold JS.ToUint32. apply Z.mod_pos_bound. lia. Qed.

Lemma ToUint16_range v : 0 <= JS.ToUint16 v < 65536.
Proof. unfold JS.ToUint16. apply Z.mod_pos_bound. lia. Qed.

(** The fields of the header, read back as little-endian integers. *)
Lemma wavHeader_fields numOfChan frames rate :
  let h := wavHeader numOfChan frames rate in
  let dataSize := Z.of_nat frames * Z.of_nat numOfChan * 2 in
  DataView.getUint32 4 h = JS.ToUint32 (36 + dataSize)
  /\ DataView.getUint32 40 h = JS.ToUint32 dataSize
  /\ DataView.getUint32 28 h = JS.ToUint32 (Z.pos rate * 2 * Z.of_nat numOfChan)
  /\ DataView.getUint16 32 h = JS.ToUint16 (Z.of_nat numOfChan * 2)
  /\ DataView.getUint32 24 h = JS.ToUint32 (Z.pos rate)
  /\ DataView.getUint16 22 h = JS.ToUint16 (Z.of_nat numOfChan)
  /\ DataView.getUint32 16 h = 16
  /\ DataView.getUint16 20 h = 1
  /\ DataView.getUint16 34 h = 16
  /\ take 4 h = charCodes "RIFF"
  /\ take 4 (drop 8 h) = charCodes "WAVE"
  /\ take 4 (drop 12 h) = charCodes "fmt "
  /\ take 4 (drop 36 h) = charCodes "data".
Proof.
  header_bytes.
  cbv zeta. unfold DataView.getUint32, DataView.getUint16, DataView.byteAt.
  cbn [lookup list_lookup Nat.add default take drop from_option].
  repeat split; try reflexivity;
    first [apply bytes32_value; apply ToUint32_range
          | apply bytes16_value; apply ToUint16_range].
Qed.

(** The bytes that the sample loops write after the header. *)
Lemma writeChannels_spec (buffer : AudioBuffer) (i : nat) (js : list nat) :
  forall pre post,
    fold_left
      (fun (st : list Z * nat) (j : nat) =>
         let sample := clamp (getChannelData buffer j i) in
         let sample := scale sample in
         (DataView.setInt16 (snd st) sample (fst st), (snd st + 2)%nat))
      js (pre ++ repeat 0 (2 * List.length js) ++ post, List.length pre)
    = (pre ++ flat_map (fun j => TypedArray.bytes16 (pcm16 (getChannelData buffer j i))) js
           ++ post,
       (List.length pre + 2 * List.length js)%nat).
Proof.
  induction js as [|j js IH]; intros pre post.
  - cbn. rewrite Nat.add_0_r. reflexivity.
  - cbn [fold_left List.length fst snd flat_map].
    replace (2 * S (List.length js))%nat with (S (S (2 * List.length js))) by lia.
    cbn [repeat app]. unfold DataView.setInt16.
    rewrite <- (Nat.add_0_r (List.length pre)) at 1.
    rewrite setBytes_app_r.
    change (DataView.setBytes 0 (TypedArray.bytes16 ?v) (0 :: 0 :: ?rest))
      with (TypedArray.bytes16 v ++ rest).
    fold (pcm16 (getChannelData buffer j i)).
    specialize (IH (pre ++ TypedArray.bytes16 (pcm16 (getChannelData buffer j i))) post).
    rewrite length_app in IH. cbn [TypedArray.bytes16 List.length] in IH.
    rewrite <- !app_assoc in IH. cbn [TypedArray.bytes16] in *.
    rewrite <- !app_assoc.
    unfold DataView.setInt16 in IH.
    rewrite IH. f_equal. lia.
Qed.

Lemma flat_map_map {A B C} (f : B -> list C) (g : A -> B) (l : list A) :
  flat_map f (map g l) = flat_map (fun x => f (g x)) l.
Proof.
  induction l as [|x l IH]; [reflexivity|]. cbn [map flat_map]. now rewrite IH.
Qed.

Lemma writeFrame_spec (buffer : AudioBuffer) (i : nat) (pre post : list Z) :
  writeFrame buffer i
    (pre ++ repeat 0 (2 * numberOfChannels buffer) ++ post, List.length pre)
  = (pre ++ flat_map TypedArray.bytes16
              (map pcm16 (map (fun j => getChannelData buffer j i)
                            (seq 0 (numberOfChannels buffer))))
         ++ post,
     (List.length pre + 2 * numberOfChannels buffer)%nat).
Proof.
  unfold writeFrame.
  pose proof (writeChannels_spec buffer i (seq 0 (numberOfChannels buffer)) pre post) as H.
  rewrite length_seq in H. etransitivity; [exact H|].
  rewrite !flat_map_map. reflexivity.
Qed.

Lemma bytes16_flat_length (vs : list Z) :
  List.length (flat_map TypedArray.bytes16 vs) = (2 * List.length vs)%nat.
Proof.
  induction vs as [|v vs IH]; [reflexivity|].
  cbn [flat_map TypedArray.bytes16 app List.length]. rewrite IH. lia.
Qed.

Lemma writeFrames_spec (buffer : AudioBuffer) (frames : list nat) :
  forall pre,
    fold_left (fun st i => writeFrame buffer i st) frames
      (pre ++ repeat 0 (List.length frames * (2 * numberOfChannels buffer)),
       List.length pre)
    = (pre ++ flat_map TypedArray.bytes16
                (map pcm16
                   (flat_map (fun i => map (fun j => getChannelData buffer j i)
                                         (seq 0 (numberOfChannels buffer))) frames)),
       (List.length pre + List.length frames * (2 * numberOfChannels buffer))%nat).
Proof.
  induction frames as [|i frames IH]; intros pre.
  - cbn. rewrite app_nil_r, Nat.add_0_r. reflexivity.
  - cbn [fold_left List.length flat_map].
    rewrite Nat.mul_succ_l, (Nat.add_comm (List.length frames * _)).
    rewrite repeat_app, writeFrame_spec.
    set (frame := flat_map TypedArray.bytes16
                    (map pcm16 (map (fun j => getChannelData buffer j i)
                                  (seq 0 (numberOfChannels buffer))))).
    assert (Hlen : List.length frame = (2 * numberOfChannels buffer)%nat).
    { subst frame. rewrite bytes16_flat_length, !length_map, length_seq. reflexivity. }
    specialize (IH (pre ++ frame)). rewrite length_app, Hlen, <- app_assoc in IH.
    rewrite IH. rewrite map_app, flat_map_app, <- app_assoc. f_equal. lia.
Qed.

(** The whole file: the header, then the interleaved samples as 16-bit
    little-endian integers. *)
Lemma audioBufferToWav_bytes (buffer : AudioBuffer) :
  audioBufferToWav buffer
  = wavHeader (numberOfChannels buffer) (length buffer) (sampleRate buffer)
    ++ flat_map TypedArray.bytes16 (map pcm16 (interleaved buffer)).
Proof.
  unfold audioBufferToWav, DataView.create.
  rewrite Nat.add_comm, repeat_app. fold (DataView.create 44).
  rewrite writeHeader_app. unfold writeSamples.
  pose proof (writeFrames_spec buffer (seq 0 (length buffer))
                (wavHeader (numberOfChannels buffer) (length buffer) (sampleRate buffer)))
    as H.
  rewrite length_seq, wavHeader_length in H.
  replace (length buffer * numberOfChannels buffer * 2)%nat
    with (length buffer * (2 * numberOfChannels buffer))%nat by lia.
  rewrite H. reflexivity.
Qed.

Lemma lookup_map {A B} (f : A -> B) (l : list A) (i : nat) :
  map f l !! i = option_map f (l !! i).
Proof.
  revert i. induction l as [|x l IH]; intros [|i]; cbn; auto.
Qed.

(** Indexing into a concatenation of blocks of one size. *)
Lemma lookup_flat_map_blocks {A B} (f : A -> list B) (m : nat) (l : list A) :
  (forall x, List.length (f x) = m) ->
  forall k r, (r < m)%nat ->
    flat_map f l !! (k * m + r)%nat
    = match l !! k with Some x => f x !! r | None => None end.
Proof.
  intros Hm. induction l as [|x l IH]; intros k r Hr; [reflexivity|].
  cbn [flat_map]. destruct k as [|k].
  - cbn [Nat.mul Nat.add lookup list_lookup]. apply lookup_app_l. rewrite Hm. exact Hr.
  - rewrite lookup_app_r by (rewrite Hm; lia).
    rewrite Hm. replace (S k * m + r - m)%nat with (k * m + r)%nat by lia.
    rewrite IH by exact Hr. reflexivity.
Qed.

Lemma interleaved_lookup (b : AudioBuffer) (i j : nat) :
  (i < length b)%nat -> (j < numberOfChannels b)%nat ->
  interleaved b !! (i * numberOfChannels b + j)%nat = Some (getChannelData b j i).
Proof.
  intros Hi Hj. unfold interleaved.
  rewrite (lookup_flat_map_blocks _ (numberOfChannels b))
    by (try (intros; rewrite length_map, length_seq; reflexivity); exact Hj).
  rewrite lookup_seq_lt by exact Hi.
  rewrite lookup_map, lookup_seq_lt by exact Hj. reflexivity.
Qed.

(** The two bytes of sample [k] of the data sub-chunk. *)
Lemma wav_sample_bytes (buffer : AudioBuffer) (k : nat) (x : Q) :
  interleaved buffer !! k = Some x ->
  let wav := audioBufferToWav buffer in
  wav !! (44 + 2 * k)%nat = Some (JS.ToUint8 (pcm16 x))
  /\ wav !! (44 + 2 * k + 1)%nat = Some (JS.ToUint8 (pcm16 x / 256)).
Proof.
  intros Hk wav. subst wav. rewrite audioBufferToWav_bytes.
  rewrite !lookup_app_r by (rewrite wavHeader_length; lia).
  rewrite wavHeader_length.
  replace (44 + 2 * k - 44)%nat with (k * 2 + 0)%nat by lia.
  replace (44 + 2 * k + 1 - 44)%nat with (k * 2 + 1)%nat by lia.
  rewrite !(lookup_flat_map_blocks TypedArray.bytes16 2) by (reflexivity || lia).
  rewrite lookup_map, Hk. split; reflexivity.
Qed.

Lemma clamp_range (x : Q) : (-1 <= clamp x <= 1)%Q.
Proof.
  unfold clamp. split.
  - apply Q.le_max_l.
  - apply Q.max_lub; [discriminate | apply Q.le_min_l].
Qed.

Lemma clamp_inside (x : Q) : (-1 <= x <= 1)%Q -> (clamp x == x)%Q.
Proof.
  intros [Hlo Hhi]. unfold clamp.
  rewrite (Q.min_r 1 x) by exact Hhi. apply Q.max_r. exact Hlo.
Qed.

Lemma scale_cases (c : Q) :
  ((c < 0 -> scale c = c * 32768) /\ (0 <= c -> scale c = c * 32767))%Q.
Proof.
  unfold scale. split; intros H.
  - apply Qltb_lt in H. rewrite H. reflexivity.
  - apply Qltb_ge in H. rewrite H. reflexivity.
Qed.

(** A clamped and scaled sample truncates into the 16-bit range, so the
    conversion of [setInt16] does not wrap. *)
Lemma pcm16_truncate (x : Q) :
  pcm16 x = JS.truncate (scale (clamp x))
  /\ -32768 <= pcm16 x <= 32767.
Proof.
  unfold pcm16. pose proof (clamp_range x) as [Hlo Hhi].
  destruct (scale_cases (clamp x)) as [Hneg Hpos].
  destruct (truncate_bounds (scale (clamp x))) as [Tpos Tneg].
  set (t := JS.truncate (scale (clamp x))) in *.
  assert (Ht : -32768 <= t <= 32767).
  { destruct (Qlt_le_dec (clamp x) 0) as [Hc|Hc].
    - rewrite (Hneg Hc) in *. destruct Tneg as [H1 H2]; [lra|].
      split; [rewrite Zle_Qle | apply Z.lt_succ_r; rewrite Zlt_Qlt];
        [change (inject_Z (-32768)) with (-32768)%Q
        | change (inject_Z (Z.succ 32767)) with 32768%Q]; lra.
    - rewrite (Hpos Hc) in *. destruct Tpos as [H1 H2]; [lra|].
      split; [rewrite Zle_Qle | apply Z.lt_succ_r; rewrite Zlt_Qlt];
        [change (inject_Z (-32768)) with (-32768)%Q
        | change (inject_Z (Z.succ 32767)) with 32768%Q]; lra. }
  rewrite ToInt16_small by lia. split; [reflexivity | exact Ht].
Qed.

Lemma byteAt_header (h tail : list Z) (offset : nat) :
  (offset < List.length h)%nat ->
  DataView.byteAt offset (h ++ tail) = DataView.byteAt offset h.
Proof. intros H. unfold DataView.byteAt. now rewrite lookup_app_l. Qed.

(** The size and rate fields of the file, read back as little-endian
    integers: each holds its value reduced to the width of the field. *)
Lemma wav_fields (buffer : AudioBuffer) :
  let wav := audioBufferToWav buffer in
  let dataSize := Z.of_nat (length buffer) * Z.of_nat (numberOfChannels buffer) * 2 in
  DataView.getUint32 4 wav = JS.ToUint32 (36 + dataSize)
  /\ DataView.getUint32 40 wav = JS.ToUint32 dataSize
  /\ DataView.getUint32 28 wav
     = JS.ToUint32 (Z.pos (sampleRate buffer) * 2 * Z.of_nat (numberOfChannels buffer))
  /\ DataView.getUint16 32 wav = JS.ToUint16 (Z.of_nat (numberOfChannels buffer) * 2).
Proof.
  cbv zeta. rewrite audioBufferToWav_bytes.
  pose proof (wavHeader_fields (numberOfChannels buffer) (length buffer) (sampleRate buffer))
    as (H4 & H40 & H28 & H32 & _).
  pose proof (wavHeader_length (numberOfChannels buffer) (length buffer) (sampleRate buffer))
    as Hlen.
  unfold DataView.getUint32, DataView.getUint16 in *.
  rewrite !byteAt_header by (rewrite Hlen; cbn; lia).
  auto.
Qed.

Lemma audioBufferToWav_length (buffer : AudioBuffer) :
  List.length (audioBufferToWav buffer)
  = (44 + 2 * (length buffer * numberOfChannels buffer))%nat.
Proof.
  rewrite audioBufferToWav_bytes, length_app, wavHeader_length, bytes16_flat_length,
    length_map.
  unfold interleaved.
  assert (H : forall frames,
             List.length (flat_map (fun i => map (fun j => getChannelData buffer j i)
                                                (seq 0 (numberOfChannels buffer))) frames)
             = (List.length frames * numberOfChannels buffer)%nat).
  { induction frames as [|i frames IH]; [reflexivity|].
    cbn [flat_map List.length]. rewrite length_app, IH, length_map, length_seq. lia. }
  rewrite H, length_seq. reflexivity.
Qed.

(** C7 as stated fails for a buffer whose data does not fit the 32-bit
    size fields: 2^30 stereo frames make 2^32 bytes of data, and the data
    size field reads 0 and the RIFF size field 36. *)
Lemma wav_header_counterexample :
  let buffer := {| numberOfChannels := 2; length := Z.to_nat 1073741824;
                   sampleRate := 48000; getChannelData := fun _ _ => 0%Q |} in
  let dataSize := Z.of_nat (length buffer) * Z.of_nat (numberOfChannels buffer) * 2 in
  dataSize = 4294967296
  /\ DataView.getUint32 40 (audioBufferToWav buffer) = 0
  /\ DataView.getUint32 4 (audioBufferToWav buffer) = 36
  /\ DataView.getUint32 40 (audioBufferToWav buffer) <> dataSize
  /\ DataView.getUint32 4 (audioBufferToWav buffer) <> 36 + dataSize.
Proof.
  intros buffer dataSize.
  destruct (wav_fields buffer) as (H4 & H40 & _).
  assert (Hsize : dataSize = 4294967296).
  { subst dataSize buffer. cbn [length numberOfChannels].
    rewrite Z2Nat.id by lia. reflexivity. }
  fold dataSize in H4, H40. rewrite H4, H40, Hsize.
  repeat split; try reflexivity; discriminate.
Qed.

(** C7, amended. The file starts with a 44-byte header, then two bytes
    per sample.  Each of the four fields holds its value reduced modulo
    the width of the field, little-endian: the RIFF size at offset 4 is
    36 + N*C*2 modulo 2^32, the data size at offset 40 is N*C*2 modulo
    2^32, the byte rate at offset 28 is R*C*2 modulo 2^32 and the block
    align at offset 32 is C*2 modulo 2^16.  So each field is exact
    whenever its own value fits: the RIFF size is 36 + N*C*2 when that is
    below 2^32, the data size is N*C*2 when that is below 2^32, the byte
    rate is R*C*2 when that is below 2^32, and the block align is C*2
    when that is below 2^16. *)
Theorem wav_header_fields (buffer : AudioBuffer) :
  let N := Z.of_nat (length buffer) in
  let C := Z.of_nat (numberOfChannels buffer) in
  let R := Z.pos (sampleRate buffer) in
  let wav := audioBufferToWav buffer in
  Z.of_nat (List.length wav) = 44 + N * C * 2
  /\ take 44 wav = wavHeader (numberOfChannels buffer) (length buffer) (sampleRate buffer)
  /\ (DataView.getUint32 4 wav = (36 + N * C * 2) mod 2 ^ 32
      /\ DataView.getUint32 40 wav = (N * C * 2) mod 2 ^ 32
      /\ DataView.getUint32 28 wav = (R * C * 2) mod 2 ^ 32
      /\ DataView.getUint16 32 wav = (C * 2) mod 2 ^ 16)
  /\ (36 + N * C * 2 < 2 ^ 32 -> DataView.getUint32 4 wav = 36 + N * C * 2)
  /\ (N * C * 2 < 2 ^ 32 -> DataView.getUint32 40 wav = N * C * 2)
  /\ (R * C * 2 < 2 ^ 32 -> DataView.getUint32 28 wav = R * C * 2)
  /\ (C * 2 < 2 ^ 16 -> DataView.getUint16 32 wav = C * 2).
Proof.
  intros N C R wav.
  destruct (wav_fields buffer) as (H4 & H40 & H28 & H32).
  fold N C R wav in H4, H40, H28, H32.
  unfold JS.ToUint32, JS.ToUint16 in H4, H40, H28, H32.
  change 4294967296 with (2 ^ 32) in H4, H40, H28.
  change 65536 with (2 ^ 16) in H32.
  replace (Z.of_nat (numberOfChannels buffer) * 2) with (C * 2) in H32 by reflexivity.
  split; [subst wav; rewrite audioBufferToWav_length; lia|].
  split.
  { subst wav. rewrite audioBufferToWav_bytes.
    rewrite take_app_length'; [reflexivity | now rewrite wavHeader_length]. }
  replace (R * 2 * C) with (R * C * 2) in H28 by lia.
  split; [repeat split; assumption|].
  assert (HN : 0 <= N * C * 2) by (subst N C; lia).
  assert (HR : 0 <= R * C * 2) by (subst R C; lia).
  assert (HC : 0 <= C * 2) by (subst C; lia).
  split; [|split; [|split]].
  - intros Hfit. rewrite H4, Z.mod_small by lia. reflexivity.
  - intros Hfit. rewrite H40, Z.mod_small by lia. reflexivity.
  - intros Hfit. rewrite H28, Z.mod_small by lia. reflexivity.
  - intros Hfit. rewrite H32, Z.mod_small by lia. reflexivity.
Qed.

Lemma wav_header_fields_witness :
  let wav := audioBufferToWav buffer0 in
  Z.of_nat (List.length wav) = 44 + 2 * 2 * 2
  /\ take 44 wav = wavHeader 2 2 48000
  /\ DataView.getUint32 4 wav = 36 + 2 * 2 * 2
  /\ DataView.getUint32 40 wav = 2 * 2 * 2
  /\ DataView.getUint32 28 wav = 48000 * 2 * 2
  /\ DataView.getUint16 32 wav = 2 * 2.
Proof.
  destruct (wav_header_fields buffer0) as (H1 & H2 & _ & H3 & H3' & H4 & H5).
  split; [exact H1|]. split; [exact H2|].
  split; [apply H3; reflexivity|]. split; [apply H3'; reflexivity|].
  split; [apply H4; reflexivity | apply H5; reflexivity].
Defined.

(** The header of the sample segment, byte by byte. *)
Example wav_header_of_buffer0 :
  take 44 (audioBufferToWav buffer0)
  = [82; 73; 70; 70; 44; 0; 0; 0; 87; 65; 86; 69; 102; 109; 116; 32;
     16; 0; 0; 0; 1; 0; 2; 0; 128; 187; 0; 0; 0; 238; 2; 0; 4; 0; 16; 0;
     100; 97; 116; 97; 8; 0; 0; 0].
Proof. reflexivity. Qed.

(** C8. In the exported file the sample of frame [i] and channel [j] sits
    at byte offset 44 + 2 * (i * C + j).  It is the sample clamped to
    [-1, 1], then scaled by 32768 when the clamped value is negative and by
    32767 otherwise, then truncated to an integer, which fits 16 bits and is
    stored as a little-endian signed 16-bit integer. *)
Theorem wav_sample_quantization (buffer : AudioBuffer) (i j : nat) :
  (i < length buffer)%nat -> (j < numberOfChannels buffer)%nat ->
  let x := getChannelData buffer j i in
  let c := clamp x in
  let v := JS.truncate (scale c) in
  let offset := (44 + 2 * (i * numberOfChannels buffer + j))%nat in
  let wav := audioBufferToWav buffer in
  ((-1 <= c <= 1)%Q
   /\ ((-1 <= x <= 1)%Q -> (c == x)%Q)
   /\ ((x < -1)%Q -> (c == -1)%Q)
   /\ ((1 < x)%Q -> (c == 1)%Q))
  /\ (((c < 0)%Q -> scale c = (c * 32768)%Q)
      /\ ((0 <= c)%Q -> scale c = (c * 32767)%Q))
  /\ -32768 <= v <= 32767
  /\ DataView.getInt16 offset wav = v
  /\ wav !! offset = Some (v mod 256)
  /\ wav !! (offset + 1)%nat = Some ((v / 256) mod 256).
Proof.
  intros Hi Hj x c v offset wav.
  split; [|split; [apply scale_cases|]].
  { split; [apply clamp_range|]. split; [apply clamp_inside|]. split; intros H.
    - subst c. unfold clamp. rewrite (Q.min_r 1 x) by lra. apply Q.max_l. lra.
    - subst c. unfold clamp. rewrite (Q.min_l 1 x) by lra. apply Q.max_r. lra. }
  destruct (pcm16_truncate x) as [Hv Hr]. fold c v in Hv. rewrite Hv in Hr.
  pose proof (interleaved_lookup buffer i j Hi Hj) as Hk. fold x in Hk.
  destruct (wav_sample_bytes buffer _ x Hk) as [B0 B1].
  fold wav offset in B0, B1. rewrite Hv in B0, B1.
  split; [exact Hr|]. split; [|split; [exact B0 | exact B1]].
  unfold DataView.getInt16, DataView.getUint16, DataView.byteAt.
  rewrite B0, B1. cbn [default from_option]. apply bytes16_signed. lia.
Qed.

Lemma wav_sample_quantization_witness :
  let x := getChannelData buffer0 1 0 in
  let c := clamp x in
  let v := JS.truncate (scale c) in
  let wav := audioBufferToWav buffer0 in
  ((-1 <= c <= 1)%Q
   /\ ((-1 <= x <= 1)%Q -> (c == x)%Q)
   /\ ((x < -1)%Q -> (c == -1)%Q)
   /\ ((1 < x)%Q -> (c == 1)%Q))
  /\ (((c < 0)%Q -> scale c = (c * 32768)%Q)
      /\ ((0 <= c)%Q -> scale c = (c * 32767)%Q))
  /\ -32768 <= v <= 32767
  /\ DataView.getInt16 46 wav = v
  /\ wav !! 46%nat = Some (v mod 256)
  /\ wav !! 47%nat = Some ((v / 256) mod 256).
Proof. apply (wav_sample_quantization buffer0 0 1); cbn; lia. Defined.

(** The data of the sample segment: 1/2 becomes 16383 (scaled by 32767),
    -1/2 becomes -16384 (scaled by 32768). *)
Example wav_data_of_buffer0 :
  map (fun k => DataView.getInt16 (44 + 2 * k) (audioBufferToWav buffer0)) (seq 0 4)
  = [16383; -16384; 0; -1].
Proof. reflexivity. Qed.

Example wav_clamps_out_of_range :
  pcm16 (3 # 2) = 32767 /\ pcm16 (-2) = -32768 /\ pcm16 1 = 32767 /\ pcm16 (-1) = -32768.
Proof. repeat split; reflexivity. Qed.

(** ** Decoded segments and their concatenation *)

Lemma copyToChannel_shape source c buffer b' :
  copyToChannel source c buffer = Normal b' ->
  numberOfChannels b' = numberOfChannels buffer
  /\ length b' = length buffer
  /\ sampleRate b' = sampleRate buffer.
Proof.
  unfold copyToChannel. destruct (numberOfChannels buffer <=? c)%nat; [discriminate|].
  intros H. injection H as <-. auto.
Qed.

Lemma copyChannels_shape dataFloat32 numChannels cs : forall buffer b',
  copyChannels dataFloat32 numChannels cs buffer = Normal b' ->
  numberOfChannels b' = numberOfChannels buffer
  /\ length b' = length buffer
  /\ sampleRate b' = sampleRate buffer.
Proof.
  induction cs as [|c cs IH]; intros buffer b' H.
  - injection H as <-. auto.
  - cbn [copyChannels] in H.
    destruct (copyToChannel _ c buffer) as [b1|] eqn:E; [|discriminate].
    cbn in H. apply IH in H as (H1 & H2 & H3).
    apply copyToChannel_shape in E as (E1 & E2 & E3).
    rewrite H1, H2, H3. auto.
Qed.

(** A decoded segment has the channels asked for and at least one frame. *)
Lemma decodeAudioData_shape data rate numChannels b :
  decodeAudioData data rate numChannels = Normal b ->
  numberOfChannels b = numChannels
  /\ length b = frameCount (List.length data) numChannels
  /\ sampleRate b = rate
  /\ (1 <= numberOfChannels b)%nat /\ (1 <= length b)%nat.
Proof.
  unfold decodeAudioData, createBuffer.
  destruct (numChannels =? 0)%nat eqn:E0; [discriminate|].
  destruct (frameCount (List.length data) numChannels =? 0)%nat eqn:E1; [discriminate|].
  cbn [orb mbind Completion_bind JS.bind].
  destruct (TypedArray.Int16Array_of_buffer data) as [dataInt16|]; [|discriminate].
  cbn [JS.bind]. intros H. apply copyChannels_shape in H as (H1 & H2 & H3).
  cbn [numberOfChannels length sampleRate] in *.
  apply Nat.eqb_neq in E0, E1. rewrite H1, H2, H3. repeat split; lia.
Qed.

Lemma totalLength_from (buffers : list AudioBuffer) : forall n,
  fold_left (fun total buffer => (total + length buffer)%nat) buffers n
  = (n + totalLength buffers)%nat.
Proof.
  unfold totalLength. induction buffers as [|b buffers IH]; intros n; cbn [fold_left].
  - lia.
  - rewrite (IH (n + length b)%nat), (IH (0 + length b)%nat). lia.
Qed.

Lemma totalLength_cons (b : AudioBuffer) (buffers : list AudioBuffer) :
  totalLength (b :: buffers) = (length b + totalLength buffers)%nat.
Proof. unfold totalLength at 1. cbn [fold_left]. apply totalLength_from. Qed.

Lemma totalLength_snoc (buffers : list AudioBuffer) (b : AudioBuffer) :
  totalLength (buffers ++ [b]) = (totalLength buffers + length b)%nat.
Proof.
  unfold totalLength at 1. rewrite fold_left_app. cbn [fold_left].
  fold (totalLength buffers). reflexivity.
Qed.

Lemma fillChannel_shape channel buffers : forall offset result,
  numberOfChannels (fillChannel channel buffers offset result) = numberOfChannels result
  /\ length (fillChannel channel buffers offset result) = length result
  /\ sampleRate (fillChannel channel buffers offset result) = sampleRate result.
Proof.
  induction buffers as [|b buffers IH]; intros offset result; [auto|].
  cbn [fillChannel]. destruct (IH (offset + length b)%nat
    (if (channel <? numberOfChannels b)%nat
     then setChannelData channel b offset result else result)) as (H1 & H2 & H3).
  rewrite H1, H2, H3. destruct (channel <? numberOfChannels b)%nat; auto.
Qed.

Lemma fillChannel_other channel buffers j k : forall offset result,
  j <> channel ->
  getChannelData (fillChannel channel buffers offset result) j k = getChannelData result j k.
Proof.
  induction buffers as [|b buffers IH]; intros offset result Hj; [reflexivity|].
  cbn [fillChannel]. rewrite IH by exact Hj.
  destruct (channel <? numberOfChannels b)%nat; [|reflexivity].
  cbn [setChannelData getChannelData].
  destruct (j =? channel)%nat eqn:E; [apply Nat.eqb_eq in E; contradiction | reflexivity].
Qed.

Lemma fillChannel_app channel l1 l2 : forall offset result,
  fillChannel channel (l1 ++ l2) offset result
  = fillChannel channel l2 (offset + totalLength l1) (fillChannel channel l1 offset result).
Proof.
  induction l1 as [|b l1 IH]; intros offset result.
  - cbn. now rewrite Nat.add_0_r.
  - cbn [app fillChannel]. rewrite IH. f_equal.
    rewrite totalLength_cons. lia.
Qed.

(** The last segment of the list lands at the end of each channel it has. *)
Lemma fillChannel_last channel buffers b i result :
  (channel < numberOfChannels b)%nat -> (i < length b)%nat ->
  getChannelData (fillChannel channel (buffers ++ [b]) 0 result) channel
    (totalLength buffers + i)
  = getChannelData b channel i.
Proof.
  intros Hc Hi. rewrite fillChannel_app. cbn [fillChannel Nat.add].
  apply Nat.ltb_lt in Hc. rewrite Hc. cbn [setChannelData getChannelData].
  rewrite Nat.eqb_refl.
  replace (totalLength buffers <=? totalLength buffers + i)%nat with true
    by (symmetry; apply Nat.leb_le; lia).
  replace (totalLength buffers + i <? totalLength buffers + length b)%nat with true
    by (symmetry; apply Nat.ltb_lt; lia).
  cbn [andb]. f_equal. lia.
Qed.

Lemma fillChannels_shape buffers channels : forall result,
  let r := fold_left (fun result channel => fillChannel channel buffers 0 result)
             channels result in
  numberOfChannels r = numberOfChannels result
  /\ length r = length result /\ sampleRate r = sampleRate result.
Proof.
  induction channels as [|c channels IH]; intros result; [cbn; auto|].
  cbn [fold_left]. cbv zeta in *.
  destruct (IH (fillChannel c buffers 0 result)) as (H1 & H2 & H3).
  destruct (fillChannel_shape c buffers 0 result) as (F1 & F2 & F3).
  rewrite H1, H2, H3, F1, F2, F3. auto.
Qed.

Lemma fillChannels_other buffers channels j k : forall result,
  ~ In j channels ->
  getChannelData
    (fold_left (fun result channel => fillChannel channel buffers 0 result) channels result)
    j k
  = getChannelData result j k.
Proof.
  induction channels as [|c channels IH]; intros result Hj; [reflexivity|].
  cbn [fold_left]. rewrite IH by (intros H; apply Hj; now right).
  apply fillChannel_other. intros ->. apply Hj. now left.
Qed.

Lemma fillChannels_last buffers b (numCh j i : nat) result :
  (j < numCh)%nat -> (j < numberOfChannels b)%nat -> (i < length b)%nat ->
  getChannelData
    (fold_left (fun result channel => fillChannel channel (buffers ++ [b]) 0 result)
       (seq 0 numCh) result)
    j (totalLength buffers + i)
  = getChannelData b j i.
Proof.
  intros Hj Hb Hi.
  replace numCh with (j + S (numCh - S j))%nat by lia.
  rewrite seq_app, fold_left_app. cbn [seq fold_left Nat.add].
  rewrite fillChannels_other by (rewrite in_seq; lia).
  apply fillChannel_last; assumption.
Qed.

(** The 16-bit integer read back from the file for frame [i] and channel
    [j]. *)
Lemma wav_sample_int16 (buffer : AudioBuffer) (i j : nat) :
  (i < length buffer)%nat -> (j < numberOfChannels buffer)%nat ->
  DataView.getInt16 (44 + 2 * (i * numberOfChannels buffer + j)) (audioBufferToWav buffer)
  = pcm16 (getChannelData buffer j i).
Proof.
  intros Hi Hj.
  destruct (wav_sample_bytes buffer _ _ (interleaved_lookup buffer i j Hi Hj)) as [B0 B1].
  unfold DataView.getInt16, DataView.getUint16, DataView.byteAt.
  rewrite B0, B1. cbn [default from_option]. apply bytes16_signed.
  destruct (pcm16_truncate (getChannelData buffer j i)) as [_ H]. lia.
Qed.

(** Concatenating a log of stereo segments with one more puts the samples
    of the last one at the end of the result. *)
Lemma concatenate_last (buffers : list AudioBuffer) (b : AudioBuffer) :
  Forall (fun c => numberOfChannels c = 2%nat) buffers ->
  numberOfChannels b = 2%nat -> (1 <= length b)%nat ->
  exists result,
    concatenateAudioBuffers (buffers ++ [b]) = Normal (Some result)
    /\ numberOfChannels result = 2%nat
    /\ length result = (totalLength buffers + length b)%nat
    /\ forall i j, (i < length b)%nat -> (j < 2)%nat ->
         getChannelData result j (totalLength buffers + i) = getChannelData b j i.
Proof.
  intros Hlog Hb Hlen.
  assert (Hfirst : exists firstBuffer tl,
             buffers ++ [b] = firstBuffer :: tl /\ numberOfChannels firstBuffer = 2%nat).
  { destruct buffers as [|c buffers]; [exists b, []; auto|].
    exists c, (buffers ++ [b]). inversion Hlog; auto. }
  destruct Hfirst as (firstBuffer & tl & Heq & Hc).
  unfold concatenateAudioBuffers. rewrite Heq, <- Heq, Hc. unfold createBuffer.
  rewrite totalLength_snoc.
  destruct (totalLength buffers + length b =? 0)%nat eqn:E;
    [apply Nat.eqb_eq in E; lia|].
  cbn [Nat.eqb orb mbind Completion_bind JS.bind].
  eexists. split; [reflexivity|].
  match goal with |- context [fold_left ?f ?l ?r0] =>
    pose proof (fillChannels_shape (buffers ++ [b]) l r0) as Hshape end.
  cbv zeta in Hshape. destruct Hshape as (S1 & S2 & _).
  split; [exact S1|]. split; [exact S2|].
  intros i j Hi Hj. apply fillChannels_last; [exact Hj | lia | exact Hi].
Qed.

Lemma initial_decodedLog prompts : decodedLog (initial prompts).
Proof. constructor. Qed.

(** The invariant of the Capture Log under every event. *)
Lemma step_decodedLog ev s : decodedLog s -> decodedLog (fst (step ev s)).
Proof.
  unfold decodedLog. intros H.
  assert (Hnil : Forall (fun b => exists data, decodeAudioData data 48000 2 = Normal b)
                   (@nil AudioBuffer)) by constructor.
  destruct ev as [e t|t|cb t|t n|t n|ps n|msg t]; cbn [step].
  - destruct (audioChunks e) as [chunks|] eqn:He.
    + destruct (onmessage_audio e t s chunks He)
        as (s0 & pre & Hr & _ & Hp0 & Hr0 & _).
      rewrite Hr. cbn [fst]. rewrite <- Hr0 in H. clear Hr Hr0 He.
      unfold onAudioChunks.
      destruct (pausedOrStopped (playbackState s0)) eqn:Eg; [exact H|].
      destruct chunks as [|data rest]; [exact H|].
      destruct (decodeAudioData data 48000 2) as [b|] eqn:Hb; [|exact H].
      pose proof (onAudioChunks_accepted data rest t s0 b
                    (pausedOrStopped_open _ Eg) Hb) as Hacc'.
      cbv zeta in Hacc'. destruct Hacc' as (_ & Hrec & _).
      unfold onAudioChunks in Hrec. rewrite Eg, Hb in Hrec. rewrite Hrec.
      apply Forall_app. split; [exact H|]. constructor; [eauto | constructor].
    + unfold onmessage. rewrite He.
      destruct (setupComplete e), (filteredPrompt e); exact H.
  - unfold onerror. cbn [fst]. rewrite stopAudio_log. exact H.
  - destruct cb; cbn.
    + destruct (bufferElapsed_state t s) as (_ & Hr & _). rewrite Hr. exact H.
    + exact H.
    + exact Hnil.
  - rewrite handlePlayPause_log.
    destruct (pausedOrStopped (playbackState s)); [exact Hnil | exact H].
  - rewrite handleReset_log. exact Hnil.
  - unfold reconfigure, setSessionPrompts, throttle. cbn.
    destruct (200 <=? n - lastCall s); exact H.
  - unfold onSubmissionRejected. cbn [fst]. rewrite pauseAudio_log. exact H.
Qed.

Lemma run_decodedLog evs : forall s, decodedLog s -> decodedLog (fst (run evs s)).
Proof.
  induction evs as [|ev evs IH]; intros s H; [exact H|].
  cbn [run fst]. apply IH, step_decodedLog, H.
Qed.

(** X10. In every state the component reaches, the Capture Log holds decoded
    stereo segments only. *)
Lemma reachable_decodedLog (evs : list Event) (prompts : list Prompt) :
  decodedLog (fst (run evs (initial prompts))).
Proof. apply run_decodedLog, initial_decodedLog. Qed.

Lemma decodedLog_stereo (s : State) :
  decodedLog s -> Forall (fun c => numberOfChannels c = 2%nat) (recordedChunks s).
Proof.
  unfold decodedLog. intros Hlog. eapply Forall_impl; [exact Hlog|].
  intros b [data H]. apply decodeAudioData_shape in H. tauto.
Qed.

(** C10. A segment that passes the gate and decodes is appended to the
    Capture Log whatever the scheduler then decides: when the cursor is
    set and behind the clock the under-run is reported and the segment is
    not started, otherwise it is started; in both cases an export made
    from the resulting state holds the segment's samples, quantized, after
    those of the segments recorded before it. *)
Theorem late_segment_is_captured (e : LiveMusicServerMessage) (data : list Z)
  (rest : list (list Z)) (b : AudioBuffer) (clock : Q) (s : State) :
  decodedLog s ->
  playingOrLoading (playbackState s) = true ->
  audioChunks e = Some (data :: rest) ->
  decodeAudioData data 48000 2 = Normal b ->
  let r := onmessage e clock s in
  recordedChunks (fst r) = recordedChunks s ++ [b]
  /\ (if late clock s
      then logged (snd r) = ["under run"%string] /\ scheduled (snd r) = []
      else logged (snd r) = [] /\ exists t, scheduled (snd r) = [(b, t)])
  /\ exists wav,
       exportWav (fst r) = Some wav
       /\ forall i j, (i < length b)%nat -> (j < 2)%nat ->
            DataView.getInt16
              (44 + 2 * ((totalLength (recordedChunks s) + i) * 2 + j)) wav
            = pcm16 (getChannelData b j i).
Proof.
  intros Hlog Hacc He Hdec r.
  destruct (onmessage_audio e clock s _ He)
    as (s0 & pre & Hr & Hc0 & Hp0 & Hr0 & _ & Hsch & Hlg & _ & _).
  rewrite <- Hp0 in Hacc.
  pose proof (onAudioChunks_accepted data rest clock s0 b Hacc Hdec) as H.
  cbv zeta in H. destruct H as (_ & Hrec & Hsched).
  assert (Hfst : fst r = fst (onAudioChunks (data :: rest) clock s0))
    by (subst r; rewrite Hr; reflexivity).
  assert (Hsnd : snd r = pre ++ snd (onAudioChunks (data :: rest) clock s0))
    by (subst r; rewrite Hr; reflexivity).
  rewrite Hfst, Hsnd. autorewrite with trace. rewrite Hsch, Hlg. cbn [app].
  rewrite Hrec, Hr0. split; [reflexivity|]. split.
  - unfold late. rewrite Hc0 in Hsched.
    destruct (Qeq_bool (nextStartTime s) 0) eqn:E0; cbn [negb andb].
    + assert (Hnolate : Qltb (clock + bufferTime) clock = false)
        by (apply Qltb_ge; unfold bufferTime; lra).
      rewrite Hnolate in Hsched. destruct Hsched as (H1 & H2 & _). eauto.
    + destruct (Qltb (nextStartTime s) clock).
      * tauto.
      * destruct Hsched as (H1 & H2 & _). eauto.
  - apply decodeAudioData_shape in Hdec as (Hb2 & _ & _ & _ & Hb1).
    destruct (concatenate_last (recordedChunks s) b (decodedLog_stereo s Hlog) Hb2 Hb1)
      as (result & Hcat & Hch & Hlen & Hdata).
    exists (audioBufferToWav result). unfold exportWav.
    rewrite Hrec, Hr0, Hcat. split; [reflexivity|].
    intros i j Hi Hj.
    pose proof (wav_sample_int16 result (totalLength (recordedChunks s) + i) j) as W.
    rewrite Hch, Hlen in W. rewrite W by lia. f_equal. apply Hdata; assumption.
Qed.

Lemma late_segment_is_captured_witness :
  let r := onmessage audio0 4 streaming0 in
  recordedChunks (fst r) = recordedChunks streaming0 ++ [buffer0]
  /\ (if late 4 streaming0
      then logged (snd r) = ["under run"%string] /\ scheduled (snd r) = []
      else logged (snd r) = [] /\ exists t, scheduled (snd r) = [(buffer0, t)])
  /\ exists wav,
       exportWav (fst r) = Some wav
       /\ forall i j, (i < length buffer0)%nat -> (j < 2)%nat ->
            DataView.getInt16
              (44 + 2 * ((totalLength (recordedChunks streaming0) + i) * 2 + j)) wav
            = pcm16 (getChannelData buffer0 j i).
Proof.
  apply (late_segment_is_captured audio0 chunk0 [] buffer0 4 streaming0).
  - repeat constructor; exists chunk0; reflexivity.
  - reflexivity.
  - reflexivity.
  - reflexivity.
Defined.

(** The late segment in the export: three segments of two stereo frames,
    the third one discarded by the scheduler. *)
Example export_after_underrun :
  late 4 streaming0 = true
  /\ scheduled (snd (onmessage audio0 4 streaming0)) = []
  /\ option_map
       (fun wav => map (fun k => DataView.getInt16 (44 + 2 * k) wav) (seq 0 12))
       (exportWav (fst (onmessage audio0 4 streaming0)))
     = Some [16383; -16384; 0; -1; 16383; -16384; 0; -1; 16383; -16384; 0; -1].
Proof. repeat split; reflexivity. Qed.

(** ** De-interleaving in [decodeAudioData] *)

Lemma filter_index_from_app {A} (p : nat -> bool) (l1 l2 : list A) : forall s,
  TypedArray.filter_index_from p s (l1 ++ l2)
  = TypedArray.filter_index_from p s l1
    ++ TypedArray.filter_index_from p (s + List.length l1) l2.
Proof.
  induction l1 as [|x l1 IH]; intros s; cbn [TypedArray.filter_index_from app List.length].
  - now rewrite Nat.add_0_r.
  - rewrite IH, Nat.add_succ_r. cbn [Nat.add]. destruct (p s); reflexivity.
Qed.

Lemma filter_index_from_shift {A} (p : nat -> bool) (d : nat) (l : list A) : forall s,
  (forall i, p (i + d)%nat = p i) ->
  TypedArray.filter_index_from p (s + d) l = TypedArray.filter_index_from p s l.
Proof.
  induction l as [|x l IH]; intros s Hp; [reflexivity|].
  cbn [TypedArray.filter_index_from]. rewrite Hp.
  change (S (s + d)) with (S s + d)%nat. rewrite IH by exact Hp. reflexivity.
Qed.

(** Within one frame only index [c] is kept. *)
Lemma filter_index_from_frame {A} (numChannels c : nat) (l : list A) : forall s,
  (s + List.length l <= numChannels)%nat ->
  TypedArray.filter_index_from (fun index => (index mod numChannels =? c)%nat) s l
  = match (if (s <=? c)%nat then l !! (c - s)%nat else None) with
    | Some x => [x]
    | None => []
    end.
Proof.
  induction l as [|x l IH]; intros s Hs.
  - cbn. destruct (s <=? c)%nat; reflexivity.
  - cbn [TypedArray.filter_index_from List.length] in *.
    rewrite Nat.mod_small by lia. rewrite IH by lia.
    destruct (s =? c)%nat eqn:E; [apply Nat.eqb_eq in E | apply Nat.eqb_neq in E].
    + subst s. rewrite Nat.leb_refl, Nat.sub_diag.
      replace (S c <=? c)%nat with false by (symmetry; apply Nat.leb_gt; lia).
      reflexivity.
    + destruct (s <=? c)%nat eqn:E1; [apply Nat.leb_le in E1 | apply Nat.leb_gt in E1].
      * replace (S s <=? c)%nat with true by (symmetry; apply Nat.leb_le; lia).
        replace (c - s)%nat with (S (c - S s)) by lia. reflexivity.
      * replace (S s <=? c)%nat with false by (symmetry; apply Nat.leb_gt; lia).
        reflexivity.
Qed.

(** Sample [k] of channel [c] is sample [k * numChannels + c] of the
    interleaved stream. *)
Lemma filter_index_lookup {A} (numChannels c : nat) (k : nat) : forall (l : list A),
  (c < numChannels)%nat ->
  TypedArray.filter_index (fun index => (index mod numChannels =? c)%nat) l !! k
  = l !! (k * numChannels + c)%nat.
Proof.
  unfold TypedArray.filter_index.
  induction k as [|k IH]; intros l Hc.
  - destruct (Nat.le_gt_cases (List.length l) numChannels) as [Hshort|Hlong].
    + rewrite filter_index_from_frame by (cbn; lia).
      cbn [Nat.leb Nat.mul Nat.add]. rewrite Nat.sub_0_r.
      destruct (l !! c); reflexivity.
    + rewrite <- (take_drop numChannels l) at 1.
      rewrite filter_index_from_app, filter_index_from_frame
        by (rewrite length_take; lia).
      cbn [Nat.leb Nat.mul Nat.add]. rewrite Nat.sub_0_r.
      rewrite lookup_take_lt by exact Hc.
      destruct (l !! c) eqn:E; [reflexivity|].
      apply lookup_ge_None in E. lia.
  - destruct (Nat.le_gt_cases (List.length l) numChannels) as [Hshort|Hlong].
    + rewrite filter_index_from_frame by (cbn; lia).
      rewrite (lookup_ge_None_2 l (S k * numChannels + c)) by (cbn [Nat.mul]; nia).
      cbn [Nat.leb]. destruct (l !! (c - 0)%nat); reflexivity.
    + rewrite <- (take_drop numChannels l) at 1.
      rewrite filter_index_from_app, filter_index_from_frame
        by (rewrite length_take; lia).
      cbn [Nat.leb]. rewrite Nat.sub_0_r, lookup_take_lt by exact Hc.
      destruct (l !! c) eqn:E; [|apply lookup_ge_None in E; lia].
      rewrite length_take_le by lia. cbn [app lookup list_lookup Nat.add].
      rewrite (filter_index_from_shift _ numChannels _ 0).
      * rewrite IH by exact Hc. rewrite lookup_drop. f_equal. cbn [Nat.mul]. nia.
      * intros i. rewrite <- (Nat.mul_1_l numChannels) at 1.
        rewrite Nat.Div0.mod_add. reflexivity.
Qed.

Lemma pairs16_length (bs : list Z) :
  List.length (TypedArray.pairs16 bs) = (List.length bs / 2)%nat.
Proof.
  assert (H : forall n (l : list Z), (List.length l < n)%nat ->
            List.length (TypedArray.pairs16 l) = (List.length l / 2)%nat).
  { induction n as [|n IH]; intros l Hl; [lia|].
    destruct l as [|b0 [|b1 l]]; try reflexivity.
    cbn [TypedArray.pairs16 List.length] in *. rewrite IH by lia.
    change (S (S (List.length l))) with (1 * 2 + List.length l)%nat.
    rewrite Nat.div_add_l by lia. reflexivity. }
  apply (H (S (List.length bs))). lia.
Qed.

(** The loop over the channels: every channel of the list receives its
    samples of the stream, the other channels stay as they were. *)
Lemma copyChannels_spec (dataFloat32 : list Q) (numChannels : nat) (cs : list nat) :
  forall buffer,
    NoDup cs ->
    (forall c, In c cs -> (c < numberOfChannels buffer)%nat) ->
    exists b',
      copyChannels dataFloat32 numChannels cs buffer = Normal b'
      /\ forall j k,
           (In j cs ->
            forall x,
              TypedArray.filter_index (fun index => (index mod numChannels =? j)%nat)
                dataFloat32 !! k = Some x ->
              (k < length buffer)%nat ->
              getChannelData b' j k = x)
           /\ (~ In j cs -> getChannelData b' j k = getChannelData buffer j k).
Proof.
  induction cs as [|c cs IH]; intros buffer Hnd Hin.
  - exists buffer. split; [reflexivity|]. intros j k. split; [intros []|reflexivity].
  - cbn [copyChannels]. unfold copyToChannel at 1.
    assert (Hc : (c < numberOfChannels buffer)%nat) by (apply Hin; now left).
    replace (numberOfChannels buffer <=? c)%nat with false
      by (symmetry; apply Nat.leb_gt; exact Hc).
    cbn [mbind Completion_bind JS.bind].
    set (channel := TypedArray.filter_index
                      (fun index => (index mod numChannels =? c)%nat) dataFloat32).
    set (b1 := {| numberOfChannels := numberOfChannels buffer |}).
    apply NoDup_cons in Hnd as [Hc_notin Hnd].
    destruct (IH b1 Hnd) as (b' & Hb' & Hspec).
    { intros c' Hc'. cbn. apply Hin. now right. }
    exists b'. split; [exact Hb'|]. intros j k.
    destruct (Hspec j k) as [Hin_j Hout_j]. split.
    + intros [<-|Hj] x Hx Hk.
      * rewrite Hout_j by (rewrite <- list_elem_of_In; exact Hc_notin).
        subst b1. cbn [getChannelData]. rewrite Nat.eqb_refl. fold channel in Hx.
        assert (Hlt : (k < List.length channel)%nat) by (eapply lookup_lt_Some; eauto).
        replace (k <? Nat.min (List.length channel) (length buffer))%nat with true
          by (symmetry; apply Nat.ltb_lt; lia).
        cbn [andb]. apply nth_lookup_Some with (d := 0%Q) in Hx. exact Hx.
      * apply Hin_j; auto.
    + intros Hj. rewrite Hout_j by (intros H; apply Hj; now right).
      subst b1. cbn [getChannelData].
      destruct (j =? c)%nat eqn:E; [|reflexivity].
      apply Nat.eqb_eq in E. subst j. exfalso. apply Hj. now left.
Qed.

(** For a nonzero channel count and a chunk of whole samples that holds
    at least one frame, [decodeAudioData] returns a segment in which sample
    [i] of the stream is sample [i / numChannels] of channel
    [i mod numChannels]. *)
Lemma decodeAudioData_deinterleaves (data : list Z) (rate : positive) (numChannels : nat) :
  (1 <= numChannels)%nat ->
  Nat.even (List.length data) = true ->
  (1 <= frameCount (List.length data) numChannels)%nat ->
  exists b,
    decodeAudioData data rate numChannels = Normal b
    /\ numberOfChannels b = numChannels
    /\ length b = frameCount (List.length data) numChannels
    /\ forall i : nat, (i < length b * numChannels)%nat ->
         decode_float32 (TypedArray.pairs16 data) !! i
         = Some (getChannelData b (i mod numChannels)%nat (i / numChannels)%nat).
Proof.
  intros HC Heven Hframes.
  unfold decodeAudioData, createBuffer, TypedArray.Int16Array_of_buffer.
  rewrite Heven.
  replace (numChannels =? 0)%nat with false by (symmetry; apply Nat.eqb_neq; lia).
  replace (frameCount (List.length data) numChannels =? 0)%nat with false
    by (symmetry; apply Nat.eqb_neq; lia).
  cbn [orb mbind Completion_bind JS.bind].
  set (samples := decode_float32 (TypedArray.pairs16 data)).
  set (b0 := {| numberOfChannels := numChannels |}).
  destruct (copyChannels_spec samples numChannels (seq 0 numChannels) b0)
    as (b & Hb & Hspec).
  { apply NoDup_ListNoDup, List.seq_NoDup. }
  { intros c Hc. apply in_seq in Hc. cbn. lia. }
  exists b. split; [exact Hb|].
  apply copyChannels_shape in Hb as (S1 & S2 & _). cbn in S1, S2.
  split; [exact S1|]. split; [exact S2|].
  intros i Hi. rewrite S2 in Hi.
  assert (Hc : (i mod numChannels < numChannels)%nat) by (apply Nat.mod_upper_bound; lia).
  assert (Hk : (i / numChannels < frameCount (List.length data) numChannels)%nat)
    by (apply Nat.Div0.div_lt_upper_bound; lia).
  assert (Hlen : (i < List.length samples)%nat).
  { subst samples. unfold decode_float32. rewrite length_map, pairs16_length.
    unfold frameCount in Hi.
    replace (numChannels =? 0)%nat with false in Hi by (symmetry; apply Nat.eqb_neq; lia).
    pose proof (Nat.Div0.mul_div_le (List.length data / 2) numChannels). lia. }
  destruct (lookup_lt_is_Some_2 samples i Hlen) as [x Hx]. rewrite Hx. f_equal.
  destruct (Hspec (i mod numChannels)%nat (i / numChannels)%nat) as [Hin _].
  symmetry. apply Hin.
  - apply in_seq. lia.
  - rewrite filter_index_lookup by exact Hc. rewrite <- Hx. f_equal.
    pose proof (Nat.div_mod_eq i numChannels). lia.
  - subst b0. cbn. exact Hk.
Qed.

(** The sample chunk, de-interleaved. *)
Example decode_chunk0 :
  map (fun j => map (getChannelData buffer0 j) (seq 0 2)) (seq 0 2)
  = [[(16384 # 32768)%Q; (1 # 32768)%Q]; [(-16384 # 32768)%Q; (-1 # 32768)%Q]].
Proof. reflexivity. Qed.

(** The same chunk read as mono: one channel with all four samples. *)
Example decode_chunk0_mono :
  match decodeAudioData chunk0 48000 1 with
  | Normal b => Some (numberOfChannels b, map (getChannelData b 0) (seq 0 (length b)))
  | Throw _ => None
  end
  = Some (1%nat, [(16384 # 32768)%Q; (-16384 # 32768)%Q; (1 # 32768)%Q; (-1 # 32768)%Q]).
Proof. reflexivity. Qed.

(** C9, at the failing input. With a channel count of zero the frame
    count handed to [createBuffer] is the converted quotient by zero, 0,
    and [createBuffer], called before the test [numChannels === 0], throws:
    whatever the chunk, no segment is returned, mono or other. *)
Theorem decode_zero_channels (data : list Z) (rate : positive) :
  frameCount (List.length data) 0 = 0%nat
  /\ createBuffer 0 (frameCount (List.length data) 0) rate = Throw NotSupportedError
  /\ decodeAudioData data rate 0 = Throw NotSupportedError
  /\ forall b, decodeAudioData data rate 0 <> Normal b.
Proof.
  split; [reflexivity|]. split; [reflexivity|].
  assert (H : decodeAudioData data rate 0 = Throw NotSupportedError) by reflexivity.
  split; [exact H|]. intros b Hb. rewrite H in Hb. discriminate Hb.
Qed.

(** * Further properties of the codec *)

Lemma roundtrip_all_below_full_scale_witness :
  Forall2 (fun x y => Qabs (x - y) < 1 # 32768)%Q
    [(1 # 2)%Q; (-1)%Q; (-1 # 3)%Q; (32767 # 32768)%Q]
    (decode_float32 (createBlob_int16 [(1 # 2)%Q; (-1)%Q; (-1 # 3)%Q; (32767 # 32768)%Q])).
Proof.
  apply roundtrip_all_below_full_scale.
  repeat constructor; vm_compute; congruence.
Defined.

Lemma decodeAudioData_deinterleaves_witness :
  exists b,
    decodeAudioData chunk0 48000 2 = Normal b
    /\ numberOfChannels b = 2%nat
    /\ length b = frameCount (List.length chunk0) 2
    /\ forall i : nat, (i < length b * 2)%nat ->
         decode_float32 (TypedArray.pairs16 chunk0) !! i
         = Some (getChannelData b (i mod 2)%nat (i / 2)%nat).
Proof.
  apply (decodeAudioData_deinterleaves chunk0 48000 2); [lia | reflexivity | cbn; lia].
Defined.

Lemma frameCount_zero (byteLength numChannels : nat) :
  frameCount byteLength numChannels = 0%nat
  <-> (numChannels = 0 \/ byteLength < 2 * numChannels)%nat.
Proof.
  unfold frameCount.
  destruct (numChannels =? 0)%nat eqn:E; [apply Nat.eqb_eq in E | apply Nat.eqb_neq in E].
  - split; auto.
  - rewrite Nat.Div0.div_div. split.
    + intros H. right. apply Nat.div_small_iff in H; lia.
    + intros [H|H]; [contradiction|]. apply Nat.div_small. lia.
Qed.

Lemma decodeAudioData_short (data : list Z) (rate : positive) (numChannels : nat) :
  (List.length data < 2 * numChannels)%nat ->
  decodeAudioData data rate numChannels = Throw NotSupportedError.
Proof.
  intros H. unfold decodeAudioData, createBuffer.
  assert (H0 : frameCount (List.length data) numChannels = 0%nat)
    by (apply frameCount_zero; now right).
  rewrite H0. rewrite Bool.orb_true_r. reflexivity.
Qed.

Lemma decodeAudioData_odd (data : list Z) (rate : positive) (numChannels : nat) :
  (1 <= numChannels)%nat ->
  (2 * numChannels <= List.length data)%nat ->
  Nat.odd (List.length data) = true ->
  decodeAudioData data rate numChannels = Throw RangeError.
Proof.
  intros HC Hlen Hodd. unfold decodeAudioData, createBuffer.
  destruct (frameCount (List.length data) numChannels =? 0)%nat eqn:E.
  { apply Nat.eqb_eq, frameCount_zero in E. lia. }
  replace (numChannels =? 0)%nat with false by (symmetry; apply Nat.eqb_neq; lia).
  cbn [orb mbind Completion_bind JS.bind].
  unfold TypedArray.Int16Array_of_buffer.
  rewrite <- Nat.negb_odd, Hodd. reflexivity.
Qed.

(** X3. A chunk too short for one frame is refused by [createBuffer], before
    its bytes are looked at. *)
Theorem decode_rejects_short_chunk (data : list Z) (rate : positive) (numChannels : nat) :
  (List.length data < 2 * numChannels)%nat ->
  decodeAudioData data rate numChannels = Throw NotSupportedError.
Proof. exact (decodeAudioData_short data rate numChannels). Qed.

Lemma decode_rejects_short_chunk_witness :
  decodeAudioData [0; 64] 48000 2 = Throw NotSupportedError.
Proof. apply decode_rejects_short_chunk. cbn. lia. Defined.

(** X4. A chunk with an odd number of bytes that holds at least one frame is
    refused with a [RangeError]: the [Int16Array] cannot be laid over it. *)
Theorem decode_rejects_odd_chunk (data : list Z) (rate : positive) (numChannels : nat) :
  (1 <= numChannels)%nat ->
  (2 * numChannels <= List.length data)%nat ->
  Nat.odd (List.length data) = true ->
  decodeAudioData data rate numChannels = Throw RangeError.
Proof. exact (decodeAudioData_odd data rate numChannels). Qed.

Lemma decode_rejects_odd_chunk_witness :
  decodeAudioData [0; 64; 0; 192; 1] 48000 2 = Throw RangeError.
Proof. apply decode_rejects_odd_chunk; [lia | cbn; lia | reflexivity]. Defined.

Lemma decodeAudioData_returns data rate numChannels b :
  decodeAudioData data rate numChannels = Normal b ->
  (1 <= numChannels)%nat
  /\ Nat.even (List.length data) = true
  /\ (1 <= frameCount (List.length data) numChannels)%nat.
Proof.
  intros H. pose proof (decodeAudioData_shape _ _ _ _ H) as (H1 & H2 & _ & H4 & H5).
  split; [lia|]. split; [|lia].
  destruct (Nat.even (List.length data)) eqn:E; [reflexivity|].
  assert (HC : (1 <= numChannels)%nat) by lia.
  assert (Hl : (2 * numChannels <= List.length data)%nat).
  { destruct (Nat.le_gt_cases (2 * numChannels) (List.length data)) as [Hle|Hgt]; [exact Hle|].
    rewrite (decodeAudioData_short data rate numChannels Hgt) in H. discriminate. }
  rewrite (decodeAudioData_odd data rate numChannels HC Hl) in H; [discriminate|].
  rewrite <- Nat.negb_even, E. reflexivity.
Qed.

Lemma pairs16_range (bs : list Z) :
  Forall (fun v => -32768 <= v < 32768) (TypedArray.pairs16 bs).
Proof.
  assert (H : forall n (l : list Z), (List.length l < n)%nat ->
            Forall (fun v => -32768 <= v < 32768) (TypedArray.pairs16 l)).
  { induction n as [|n IH]; intros l Hl; [lia|].
    destruct l as [|b0 [|b1 l]]; try constructor.
    - unfold JS.ToInt16. cbv zeta.
      pose proof (Z.mod_pos_bound (b0 + 256 * b1) 65536 ltac:(lia)).
      destruct (32768 <=? _) eqn:E; [apply Z.leb_le in E | apply Z.leb_gt in E]; lia.
    - apply IH. cbn in Hl. lia. }
  apply (H (S (List.length bs))). lia.
Qed.

(** X5. Every sample of a decoded segment lies in [-1, 1): what the decoder
    returns needs no clamping. *)
Theorem decoded_samples_in_range (data : list Z) (rate : positive) (numChannels : nat)
  (b : AudioBuffer) (i j : nat) :
  decodeAudioData data rate numChannels = Normal b ->
  (i < length b)%nat -> (j < numberOfChannels b)%nat ->
  (-1 <= getChannelData b j i < 1)%Q.
Proof.
  intros Hb Hi Hj.
  destruct (decodeAudioData_returns _ _ _ _ Hb) as (HC & Heven & Hfr).
  destruct (decodeAudioData_deinterleaves data rate numChannels HC Heven Hfr)
    as (b' & Hb' & Hch & _ & Hsamples).
  rewrite Hb in Hb'. injection Hb' as <-.
  specialize (Hsamples (i * numChannels + j)%nat).
  rewrite Hch in Hj.
  assert (Hdiv : ((i * numChannels + j) / numChannels = i)%nat)
    by (symmetry; apply (Nat.div_unique _ _ _ j); lia).
  assert (Hmod : ((i * numChannels + j) mod numChannels = j)%nat)
    by (symmetry; apply (Nat.mod_unique _ _ i); lia).
  rewrite Hdiv, Hmod in Hsamples.
  assert (Hk : (i * numChannels + j < length b * numChannels)%nat) by nia.
  specialize (Hsamples Hk). unfold decode_float32 in Hsamples.
  rewrite lookup_map in Hsamples.
  destruct (TypedArray.pairs16 data !! (i * numChannels + j)%nat) as [v|] eqn:Ev;
    [|discriminate].
  injection Hsamples as <-.
  pose proof (pairs16_range data) as Hr. rewrite Forall_lookup in Hr.
  specialize (Hr _ _ Ev).
  assert (Hdivq : (inject_Z v / 32768 == inject_Z v * (1 # 32768))%Q) by reflexivity.
  rewrite Hdivq.
  assert (H1 : (inject_Z (-32768) <= inject_Z v)%Q) by (rewrite <- Zle_Qle; lia).
  assert (H2 : (inject_Z v < inject_Z 32768)%Q) by (rewrite <- Zlt_Qlt; lia).
  change (inject_Z (-32768)) with (-32768)%Q in H1.
  change (inject_Z 32768) with 32768%Q in H2. lra.
Qed.

Lemma decoded_samples_in_range_witness :
  (-1 <= getChannelData buffer0 1 0 < 1)%Q.
Proof. apply (decoded_samples_in_range chunk0 48000 2 buffer0 0 1); [reflexivity | cbn; lia | cbn; lia]. Defined.


(** What the export makes of a decoded sample: a wire value [v <= 0]
    comes back as [v], a positive one as [v - 1], because non-negative
    samples are scaled by 32767 and truncated. *)
Lemma pcm16_of_decoded (v : Z) :
  -32768 <= v < 32768 ->
  pcm16 (inject_Z v / 32768) = (if 0 <? v then v - 1 else v).
Proof.
  intros Hv. set (x := (inject_Z v / 32768)%Q).
  assert (Hx : (x == inject_Z v * (1 # 32768))%Q) by reflexivity.
  assert (H1 : (inject_Z (-32768) <= inject_Z v)%Q) by (rewrite <- Zle_Qle; lia).
  assert (H2 : (inject_Z v < inject_Z 32768)%Q) by (rewrite <- Zlt_Qlt; lia).
  change (inject_Z (-32768)) with (-32768)%Q in H1.
  change (inject_Z 32768) with 32768%Q in H2.
  assert (Hc : (clamp x == x)%Q) by (apply clamp_inside; lra).
  destruct (pcm16_truncate x) as [-> _].
  destruct (scale_cases (clamp x)) as [Hneg Hpos].
  destruct (truncate_bounds (scale (clamp x))) as [Tpos Tneg].
  set (t := JS.truncate (scale (clamp x))) in *.
  destruct (0 <? v) eqn:E; [apply Z.ltb_lt in E | apply Z.ltb_ge in E].
  - assert (E' : (inject_Z 0 < inject_Z v)%Q) by (rewrite <- Zlt_Qlt; lia).
    change (inject_Z 0) with 0%Q in E'.
    rewrite Hpos in * by lra. destruct Tpos as [T1 T2]; [lra|].
    assert (Ha : v + -2 < t)
      by (rewrite Zlt_Qlt, inject_Z_plus; change (inject_Z (-2)) with (-2)%Q; lra).
    assert (Hb : t < v) by (rewrite Zlt_Qlt; lra).
    lia.
  - assert (E' : (inject_Z v <= inject_Z 0)%Q) by (rewrite <- Zle_Qle; lia).
    change (inject_Z 0) with 0%Q in E'.
    destruct (Qlt_le_dec (clamp x) 0) as [Hlt|Hge].
    + rewrite Hneg in * by exact Hlt. destruct Tneg as [T1 T2]; [lra|].
      assert (Ha : t + -1 < v)
        by (rewrite Zlt_Qlt, inject_Z_plus; change (inject_Z (-1)) with (-1)%Q; lra).
      assert (Hb : v <= t) by (rewrite Zle_Qle; lra).
      lia.
    + rewrite Hpos in * by exact Hge. destruct Tneg as [T1 T2]; [lra|].
      assert (Ha : t + -1 < v)
        by (rewrite Zlt_Qlt, inject_Z_plus; change (inject_Z (-1)) with (-1)%Q; lra).
      assert (Hb : v <= t) by (rewrite Zle_Qle; lra).
      lia.
Qed.

(** X6. Decoding a chunk and exporting the segment gives the 16-bit stream of
    the chunk back in its order, up to the last whole frame, with every
    positive sample lowered by one. *)
Theorem export_of_decoded_chunk (data : list Z) (rate : positive) (numChannels : nat)
  (b : AudioBuffer) (k : nat) (v : Z) :
  decodeAudioData data rate numChannels = Normal b ->
  (k < length b * numChannels)%nat ->
  TypedArray.pairs16 data !! k = Some v ->
  DataView.getInt16 (44 + 2 * k) (audioBufferToWav b) = (if 0 <? v then v - 1 else v).
Proof.
  intros Hb Hk Hv.
  destruct (decodeAudioData_returns _ _ _ _ Hb) as (HC & Heven & Hfr).
  destruct (decodeAudioData_deinterleaves data rate numChannels HC Heven Hfr)
    as (b' & Hb' & Hch & _ & Hsamples).
  rewrite Hb in Hb'. injection Hb' as <-.
  specialize (Hsamples k Hk). unfold decode_float32 in Hsamples.
  rewrite lookup_map, Hv in Hsamples. injection Hsamples as Hsample.
  pose proof (Nat.div_mod_eq k numChannels) as Hdm.
  assert (Hj : (k mod numChannels < numChannels)%nat) by (apply Nat.mod_upper_bound; lia).
  assert (Hi : (k / numChannels < length b)%nat)
    by (apply Nat.Div0.div_lt_upper_bound; lia).
  pose proof (wav_sample_int16 b (k / numChannels) (k mod numChannels) Hi) as W.
  rewrite Hch in W. specialize (W Hj).
  replace (k / numChannels * numChannels + k mod numChannels)%nat with k in W by lia.
  rewrite W, <- Hsample. apply pcm16_of_decoded.
  pose proof (pairs16_range data) as Hr. rewrite Forall_lookup in Hr. exact (Hr _ _ Hv).
Qed.

Lemma export_of_decoded_chunk_witness :
  DataView.getInt16 (44 + 2 * 0) (audioBufferToWav buffer0)
  = (if 0 <? 16384 then 16384 - 1 else 16384).
Proof.
  apply (export_of_decoded_chunk chunk0 48000 2 buffer0 0 16384);
    [reflexivity | cbn; lia | reflexivity].
Defined.

(** * Further properties of the WAV writer *)

Lemma ToUint8_range (n : Z) : 0 <= JS.ToUint8 n < 256.
Proof. unfold JS.ToUint8. apply Z.mod_pos_bound. lia. Qed.

(** X8. The fixed part of the header: the four chunk tags, a 16-byte fmt
    chunk, format tag 1 (PCM), 16 bits per sample, and the channel count
    and the sample rate when they fit their fields. *)
Theorem wav_format_fields (buffer : AudioBuffer) :
  Z.of_nat (numberOfChannels buffer) < 65536 ->
  Z.pos (sampleRate buffer) < 4294967296 ->
  let wav := audioBufferToWav buffer in
  take 4 wav = charCodes "RIFF"
  /\ take 4 (drop 8 wav) = charCodes "WAVE"
  /\ take 4 (drop 12 wav) = charCodes "fmt "
  /\ take 4 (drop 36 wav) = charCodes "data"
  /\ DataView.getUint32 16 wav = 16
  /\ DataView.getUint16 20 wav = 1
  /\ DataView.getUint16 22 wav = Z.of_nat (numberOfChannels buffer)
  /\ DataView.getUint32 24 wav = Z.pos (sampleRate buffer)
  /\ DataView.getUint16 34 wav = 16.
Proof.
  intros HC HR wav. subst wav. rewrite audioBufferToWav_bytes.
  pose proof (wavHeader_fields (numberOfChannels buffer) (length buffer) (sampleRate buffer))
    as H. cbv zeta in H.
  destruct H as (_ & _ & _ & _ & H24 & H22 & H16 & H20 & H34 & T0 & T8 & T12 & T36).
  pose proof (wavHeader_length (numberOfChannels buffer) (length buffer) (sampleRate buffer))
    as Hlen.
  set (h := wavHeader _ _ _) in *.
  unfold DataView.getUint32, DataView.getUint16 in *.
  rewrite !byteAt_header by (rewrite Hlen; cbn; lia).
  rewrite H16, H20, H34, H22, H24.
  unfold JS.ToUint16, JS.ToUint32. rewrite !Z.mod_small by lia.
  rewrite take_app_le by lia.
  rewrite !drop_app_le by lia. rewrite !take_app_le by (rewrite length_drop; lia).
  auto 10.
Qed.

Lemma wav_format_fields_witness :
  let wav := audioBufferToWav buffer0 in
  take 4 wav = charCodes "RIFF"
  /\ take 4 (drop 8 wav) = charCodes "WAVE"
  /\ take 4 (drop 12 wav) = charCodes "fmt "
  /\ take 4 (drop 36 wav) = charCodes "data"
  /\ DataView.getUint32 16 wav = 16
  /\ DataView.getUint16 20 wav = 1
  /\ DataView.getUint16 22 wav = 2
  /\ DataView.getUint32 24 wav = 48000
  /\ DataView.getUint16 34 wav = 16.
Proof. apply (wav_format_fields buffer0); reflexivity. Defined.

(** * Further properties of the concatenation *)

Lemma fillChannel_before channel buffers j k : forall offset result,
  (k < offset)%nat ->
  getChannelData (fillChannel channel buffers offset result) j k = getChannelData result j k.
Proof.
  induction buffers as [|b buffers IH]; intros offset result Hk; [reflexivity|].
  cbn [fillChannel]. rewrite IH by lia.
  destruct (channel <? numberOfChannels b)%nat; [|reflexivity].
  cbn [setChannelData getChannelData].
  replace (offset <=? k)%nat with false by (symmetry; apply Nat.leb_gt; lia).
  rewrite Bool.andb_false_r. reflexivity.
Qed.

Lemma fillChannel_after channel buffers j k : forall offset result,
  (offset + totalLength buffers <= k)%nat ->
  getChannelData (fillChannel channel buffers offset result) j k = getChannelData result j k.
Proof.
  induction buffers as [|b buffers IH]; intros offset result Hk; [reflexivity|].
  rewrite totalLength_cons in Hk.
  cbn [fillChannel]. rewrite IH by lia.
  destruct (channel <? numberOfChannels b)%nat; [|reflexivity].
  cbn [setChannelData getChannelData].
  replace (k <? offset + length b)%nat with false by (symmetry; apply Nat.ltb_ge; lia).
  rewrite Bool.andb_false_r. reflexivity.
Qed.

Lemma totalLength_app (l1 l2 : list AudioBuffer) :
  totalLength (l1 ++ l2) = (totalLength l1 + totalLength l2)%nat.
Proof.
  induction l1 as [|b l1 IH]; [reflexivity|].
  cbn [app]. rewrite !totalLength_cons, IH. lia.
Qed.

(** One channel of the result, at a position inside segment [b]. *)
Lemma fillChannel_middle channel pre b post i result :
  (i < length b)%nat ->
  getChannelData (fillChannel channel (pre ++ b :: post) 0 result) channel
    (totalLength pre + i)
  = if (channel <? numberOfChannels b)%nat then getChannelData b channel i
    else getChannelData result channel (totalLength pre + i).
Proof.
  intros Hi. rewrite fillChannel_app. cbn [fillChannel Nat.add].
  rewrite fillChannel_before by lia.
  destruct (channel <? numberOfChannels b)%nat.
  - cbn [setChannelData getChannelData]. rewrite Nat.eqb_refl.
    replace (totalLength pre <=? totalLength pre + i)%nat with true
      by (symmetry; apply Nat.leb_le; lia).
    replace (totalLength pre + i <? totalLength pre + length b)%nat with true
      by (symmetry; apply Nat.ltb_lt; lia).
    cbn [andb]. f_equal. lia.
  - apply fillChannel_after. cbn. lia.
Qed.

Lemma concatenateAudioBuffers_spec (pre post : list AudioBuffer) (b : AudioBuffer) :
  let buffers := pre ++ b :: post in
  let firstBuffer := List.hd b pre in
  (1 <= numberOfChannels firstBuffer)%nat ->
  (1 <= totalLength buffers)%nat ->
  exists result,
    concatenateAudioBuffers buffers = Normal (Some result)
    /\ numberOfChannels result = numberOfChannels firstBuffer
    /\ sampleRate result = sampleRate firstBuffer
    /\ length result = totalLength buffers
    /\ forall i j, (i < length b)%nat -> (j < numberOfChannels firstBuffer)%nat ->
         getChannelData result j (totalLength pre + i)
         = if (j <? numberOfChannels b)%nat then getChannelData b j i else 0%Q.
Proof.
  intros buffers firstBuffer HC Hlen.
  assert (Hfirst : exists tl, buffers = firstBuffer :: tl).
  { subst buffers firstBuffer. destruct pre as [|c pre]; cbn; eauto. }
  destruct Hfirst as (tl & Heq).
  unfold concatenateAudioBuffers. rewrite Heq, <- Heq. unfold createBuffer.
  replace (numberOfChannels firstBuffer =? 0)%nat with false
    by (symmetry; apply Nat.eqb_neq; lia).
  replace (totalLength buffers =? 0)%nat with false
    by (symmetry; apply Nat.eqb_neq; lia).
  cbn [orb mbind Completion_bind JS.bind].
  eexists. split; [reflexivity|].
  match goal with |- context [fold_left ?f ?l ?r0] =>
    pose proof (fillChannels_shape buffers l r0) as Hshape end.
  cbv zeta in Hshape. destruct Hshape as (S1 & S2 & S3).
  split; [exact S1|]. split; [exact S3|]. split; [exact S2|].
  intros i j Hi Hj.
  replace (numberOfChannels firstBuffer)
    with (j + S (numberOfChannels firstBuffer - S j))%nat by lia.
  rewrite seq_app, fold_left_app. cbn [seq fold_left Nat.add].
  rewrite fillChannels_other by (rewrite in_seq; lia).
  subst buffers. rewrite fillChannel_middle by exact Hi.
  destruct (j <? numberOfChannels b)%nat; [reflexivity|].
  rewrite fillChannels_other by (rewrite in_seq; lia). reflexivity.
Qed.

(** X9. [concatenateAudioBuffers] keeps every segment in its place. The result
    has the channels and the rate of the first segment and the frames of
    all; the frames of each segment follow those of the segments before
    it, channel by channel, and a channel that a segment lacks is silent
    there. *)
Theorem concatenate_keeps_samples (pre post : list AudioBuffer) (b : AudioBuffer) :
  let buffers := pre ++ b :: post in
  let firstBuffer := List.hd b pre in
  (1 <= numberOfChannels firstBuffer)%nat ->
  (1 <= totalLength buffers)%nat ->
  exists result,
    concatenateAudioBuffers buffers = Normal (Some result)
    /\ numberOfChannels result = numberOfChannels firstBuffer
    /\ sampleRate result = sampleRate firstBuffer
    /\ length result = totalLength buffers
    /\ forall i j, (i < length b)%nat -> (j < numberOfChannels firstBuffer)%nat ->
         getChannelData result j (totalLength pre + i)
         = if (j <? numberOfChannels b)%nat then getChannelData b j i else 0%Q.
Proof. exact (concatenateAudioBuffers_spec pre post b). Qed.

Lemma concatenate_keeps_samples_witness :
  exists result,
    concatenateAudioBuffers ([buffer0] ++ buffer0 :: [buffer0]) = Normal (Some result)
    /\ numberOfChannels result = numberOfChannels buffer0
    /\ sampleRate result = sampleRate buffer0
    /\ length result = totalLength ([buffer0] ++ buffer0 :: [buffer0])
    /\ forall i j, (i < length buffer0)%nat -> (j < numberOfChannels buffer0)%nat ->
         getChannelData result j (totalLength [buffer0] + i)
         = if (j <? numberOfChannels buffer0)%nat then getChannelData buffer0 j i
           else 0%Q.
Proof.
  apply (concatenate_keeps_samples [buffer0] [buffer0] buffer0); cbn; lia.
Defined.

(** What [concatenateAudioBuffers] refuses: an empty list gives [null];
    a first segment without channels, or segments without frames, make
    [createBuffer] throw. *)
Theorem concatenate_edge_cases (buffers : list AudioBuffer) (firstBuffer : AudioBuffer) :
  concatenateAudioBuffers [] = Normal None
  /\ (numberOfChannels firstBuffer = 0%nat \/ totalLength (firstBuffer :: buffers) = 0%nat ->
      concatenateAudioBuffers (firstBuffer :: buffers) = Throw NotSupportedError).
Proof.
  split; [reflexivity|]. intros H. unfold concatenateAudioBuffers, createBuffer.
  destruct H as [-> | ->]; [reflexivity|].
  rewrite Bool.orb_true_r. reflexivity.
Qed.

(** * Further properties of the playback engine *)

Import Runs MoreSamples.

Lemma throttle_lastCall func delay now s :
  (forall s0, lastCall (fst (func s0)) = lastCall s0) ->
  (forall s0, (List.length (submitted (snd (func s0))) <= 1)%nat) ->
  let r := throttle func delay now s in
  200 <= delay ->
  200 * Z.of_nat (List.length (submitted (snd r))) <= lastCall (fst r) - lastCall s.
Proof.
  intros Hf Hn r Hd. subst r. unfold throttle.
  destruct (delay <=? now - lastCall s) eqn:E.
  - apply Z.leb_le in E. cbn [fst snd lastCall set_lastCall].
    specialize (Hn s). lia.
  - cbn. lia.
Qed.

Lemma setSessionPrompts_lastCall now s :
  200 * Z.of_nat (List.length (submitted (snd (setSessionPrompts now s))))
  <= lastCall (fst (setSessionPrompts now s)) - lastCall s.
Proof.
  unfold setSessionPrompts. apply throttle_lastCall; [reflexivity | cbn; lia | lia].
Qed.

Lemma clearTimer_lastCall flag s : lastCall (fst (clearTimer flag s)) = lastCall s.
Proof. unfold clearTimer. destruct (timerIntervalId s), flag; reflexivity. Qed.

Lemma reconnect_lastCall now s :
  200 * Z.of_nat (List.length (submitted (snd (reconnect now s))))
  <= lastCall (fst (reconnect now s)) - lastCall s.
Proof.
  unfold reconnect. destruct (connectionError s); [|cbn; lia].
  cbn [fst snd submitted flat_map app]. apply setSessionPrompts_lastCall.
Qed.

Lemma pauseAudio_quiet t s :
  submitted (snd (pauseAudio t s)) = [] /\ lastCall (fst (pauseAudio t s)) = lastCall s.
Proof.
  unfold pauseAudio. cbn [fst snd]. rewrite submitted_app.
  match goal with |- context [clearTimer false ?x] =>
    destruct (clearTimer_quiet false x) as (_ & _ & _ & ->);
    rewrite (clearTimer_lastCall false x) end.
  split; reflexivity.
Qed.

Lemma stopAudio_quiet t s :
  submitted (snd (stopAudio t s)) = [] /\ lastCall (fst (stopAudio t s)) = lastCall s.
Proof.
  unfold stopAudio. cbn [fst snd]. rewrite submitted_app.
  match goal with |- context [clearTimer true ?x] =>
    destruct (clearTimer_quiet true x) as (_ & _ & _ & ->);
    rewrite (clearTimer_lastCall true x) end.
  split; reflexivity.
Qed.

Lemma onAudioChunks_quiet chunks t s :
  submitted (snd (onAudioChunks chunks t s)) = []
  /\ lastCall (fst (onAudioChunks chunks t s)) = lastCall s
  /\ filteredPrompts (fst (onAudioChunks chunks t s)) = filteredPrompts s.
Proof.
  unfold onAudioChunks.
  destruct (pausedOrStopped (playbackState s)); [auto|].
  destruct chunks as [|data rest]; [auto|].
  destruct (decodeAudioData data 48000 2) as [b|]; [|auto].
  destruct (playingOrLoading (playbackState s));
    destruct (Qeq_bool _ 0); cbn [fst snd];
    destruct (Qltb _ t); cbn [fst snd]; autorewrite with trace;
    cbn [submitted flat_map app];
    try match goal with |- context [clearTimer true ?x] =>
      destruct (clearTimer_quiet true x) as (_ & _ & _ & ->);
      rewrite (clearTimer_lastCall true x);
      unfold clearTimer; destruct (timerIntervalId x) end;
    auto.
Qed.

Lemma onmessage_quiet e t s :
  submitted (snd (onmessage e t s)) = []
  /\ lastCall (fst (onmessage e t s)) = lastCall s.
Proof.
  unfold onmessage.
  destruct (audioChunks e) as [chunks|]; cbn [fst snd].
  - autorewrite with trace.
    match goal with |- context [onAudioChunks chunks t ?x] =>
      destruct (onAudioChunks_quiet chunks t x) as (-> & -> & _) end.
    destruct (setupComplete e), (filteredPrompt e); split; reflexivity.
  - destruct (setupComplete e), (filteredPrompt e); split; reflexivity.
Qed.

(** One event submits at most once, and only 200 ms or more after the
    submission before. *)
Lemma step_lastCall ev s :
  200 * Z.of_nat (List.length (submitted (snd (step ev s))))
  <= lastCall (fst (step ev s)) - lastCall s.
Proof.
  destruct ev as [e t|t|cb t|t n|t n|ps n|msg t]; cbn [step].
  - destruct (onmessage_quiet e t s) as [-> ->]. cbn. lia.
  - unfold onerror. cbn [fst snd]. autorewrite with trace.
    destruct (stopAudio_quiet t (set_connectionError true s)) as [-> ->]. cbn. lia.
  - destruct cb; cbn; try lia.
    unfold bufferElapsed. cbn. destruct (timerIntervalId s); cbn; lia.
  - unfold handlePlayPause. pose proof (reconnect_lastCall n s) as Hre.
    destruct (playbackState s); cbn [fst snd]; autorewrite with trace;
      cbn [loadAudio fst snd submitted flat_map app];
      rewrite ?app_nil_r; cbn [lastCall set_playbackState set_recordedChunks];
      try exact Hre.
    + destruct (pauseAudio_quiet t s) as [-> ->]. cbn. lia.
    + destruct (stopAudio_quiet t s) as [-> ->]. cbn. lia.
  - destruct (handleReset_spec t n s) as (_ & _ & _ & _ & _ & Hl & _ & _ & _ & _ & _ & _ & Hsub).
    rewrite Hl, Hsub. exact (reconnect_lastCall n s).
  - unfold reconfigure.
    pose proof (setSessionPrompts_lastCall n (set_prompts ps s)) as H. exact H.
  - unfold onSubmissionRejected. cbn [fst snd submitted flat_map app].
    destruct (pauseAudio_quiet t s) as [H1 ->]. unfold submitted in H1. rewrite H1.
    cbn. lia.
Qed.

(** The rate limit of the throttle over a whole run: the submissions made
    are at least 200 ms apart, so their number is at most the time from the
    submission before the run to the last one of the run, over 200 ms. *)
Lemma run_lastCall (evs : list Event) (s : State) :
  200 * Z.of_nat (List.length (submitted (snd (run evs s))))
  <= lastCall (fst (run evs s)) - lastCall s.
Proof.
  revert s. induction evs as [|ev evs IH]; intros s; [cbn; lia|].
  cbn [run fst snd]. rewrite submitted_app, length_app.
  pose proof (step_lastCall ev s). pose proof (IH (fst (step ev s))). lia.
Qed.

Lemma step_lastCall_bound ev s (T : Z) :
  (forall n, dateNow ev = Some n -> n <= T) ->
  lastCall s <= T -> lastCall (fst (step ev s)) <= T.
Proof.
  intros Hev Hs.
  assert (Hthr : forall n s0, n <= T -> lastCall s0 <= T ->
            lastCall (fst (setSessionPrompts n s0)) <= T).
  { intros n s0 Hn H0. unfold setSessionPrompts, throttle.
    destruct (200 <=? n - lastCall s0); cbn; lia. }
  assert (Hrec : forall n s0, n <= T -> lastCall s0 <= T ->
            lastCall (fst (reconnect n s0)) <= T).
  { intros n s0 Hn H0. unfold reconnect. destruct (connectionError s0); cbn [fst]; auto. }
  destruct ev as [e t|t|cb t|t n|t n|ps n|msg t]; cbn [step].
  - destruct (onmessage_quiet e t s) as [_ ->]. exact Hs.
  - unfold onerror. cbn [fst].
    destruct (stopAudio_quiet t (set_connectionError true s)) as [_ ->]. exact Hs.
  - destruct cb; cbn; try exact Hs.
    unfold bufferElapsed. cbn. destruct (timerIntervalId s); exact Hs.
  - specialize (Hev n eq_refl). specialize (Hrec n s Hev Hs).
    unfold handlePlayPause. destruct (playbackState s); cbn [fst]; try exact Hrec.
    + destruct (pauseAudio_quiet t s) as [_ ->]. exact Hs.
    + destruct (stopAudio_quiet t s) as [_ ->]. exact Hs.
  - specialize (Hev n eq_refl). specialize (Hrec n s Hev Hs).
    destruct (handleReset_spec t n s) as (_ & _ & _ & _ & _ & -> & _). exact Hrec.
  - specialize (Hev n eq_refl). unfold reconfigure. apply Hthr; [exact Hev | exact Hs].
  - unfold onSubmissionRejected. cbn [fst].
    destruct (pauseAudio_quiet t s) as [_ ->]. exact Hs.
Qed.

(** X12. The rate limit of the throttle over a whole run: submissions are at
    least 200 ms apart, so in a run whose events read the wall clock at
    [T] or before, with the submission before the run at [lastCall], there
    are at most [(T - lastCall) / 200] submissions. *)
Theorem submission_rate_limit (evs : list Event) (s : State) (T : Z) :
  Forall (fun ev => forall n, dateNow ev = Some n -> n <= T) evs ->
  lastCall s <= T ->
  200 * Z.of_nat (List.length (submitted (snd (run evs s)))) <= T - lastCall s.
Proof.
  intros Hevs Hs. pose proof (run_lastCall evs s) as Hrun.
  assert (Hfin : lastCall (fst (run evs s)) <= T).
  { clear Hrun. revert s Hs. induction Hevs as [|ev evs Hev _ IH]; intros s Hs; [exact Hs|].
    cbn [run fst]. apply IH. apply step_lastCall_bound; assumption. }
  lia.
Qed.

Lemma submission_rate_limit_witness :
  200 * Z.of_nat (List.length (submitted (snd (run burst0 (initial []))))) <= 1040 - 0.
Proof.
  apply (submission_rate_limit burst0 (initial []) 1040).
  - repeat constructor; intros n H; injection H as <-; lia.
  - cbn. lia.
Defined.

(** What [setSessionPrompts] sends never holds a filtered or a
    zero-weight prompt. *)
Lemma promptsToSend_spec (s : State) (p : Prompt) :
  In p (promptsToSend s) ->
  In p (prompts s) /\ (text p ∉ filteredPrompts s) /\ ~ (weight p == 0)%Q.
Proof.
  unfold promptsToSend. rewrite filter_In. intros [Hin Hp].
  apply andb_true_iff in Hp as [H1 H2]. apply negb_true_iff in H1, H2.
  split; [exact Hin|]. split.
  - apply bool_decide_eq_false in H1. exact H1.
  - apply Qeq_bool_neq. exact H2.
Qed.

Lemma setSessionPrompts_avoids (T : string) now s :
  T ∈ filteredPrompts s ->
  Forall (avoids T) (submitted (snd (setSessionPrompts now s)))
  /\ filteredPrompts (fst (setSessionPrompts now s)) = filteredPrompts s.
Proof.
  intros HT. unfold setSessionPrompts, throttle.
  destruct (200 <=? now - lastCall s); cbn; [|auto].
  split; [|reflexivity]. constructor; [|constructor].
  unfold avoids. rewrite List.Forall_forall. intros p Hp.
  apply promptsToSend_spec in Hp as (_ & Hf & Hw). split; [|exact Hw].
  intros Heq. apply Hf. rewrite Heq. exact HT.
Qed.

Lemma reconnect_avoids (T : string) now s :
  T ∈ filteredPrompts s ->
  Forall (avoids T) (submitted (snd (reconnect now s)))
  /\ filteredPrompts (fst (reconnect now s)) = filteredPrompts s.
Proof.
  intros HT. unfold reconnect. destruct (connectionError s); [|cbn; auto].
  cbn [fst snd submitted flat_map app]. apply setSessionPrompts_avoids, HT.
Qed.

Lemma clearTimer_filtered flag s :
  filteredPrompts (fst (clearTimer flag s)) = filteredPrompts s.
Proof. unfold clearTimer. destruct (timerIntervalId s), flag; reflexivity. Qed.

Lemma step_avoids (T : string) ev s :
  T ∈ filteredPrompts s ->
  Forall (avoids T) (submitted (snd (step ev s)))
  /\ T ∈ filteredPrompts (fst (step ev s)).
Proof.
  intros HT. destruct ev as [e t|t|cb t|t n|t n|ps n|msg t]; cbn [step].
  - destruct (onmessage_quiet e t s) as [-> _]. split; [constructor|].
    unfold onmessage.
    destruct (audioChunks e) as [chunks|]; cbn [fst].
    + match goal with |- context [onAudioChunks chunks t ?x] =>
        destruct (onAudioChunks_quiet chunks t x) as (_ & _ & ->) end.
      destruct (setupComplete e), (filteredPrompt e); cbn; set_solver.
    + destruct (setupComplete e), (filteredPrompt e); cbn; set_solver.
  - unfold onerror. cbn [fst snd]. autorewrite with trace.
    destruct (stopAudio_quiet t (set_connectionError true s)) as [-> _].
    split; [constructor|]. unfold stopAudio. cbn [fst].
    rewrite clearTimer_filtered. exact HT.
  - destruct cb; cbn [step].
    + unfold bufferElapsed. cbn. destruct (timerIntervalId s); cbn; (split; [constructor | exact HT]).
    + cbn. split; [constructor | exact HT].
    + cbn. split; [constructor | exact HT].
  - destruct (reconnect_avoids T n s HT) as [Hre Hf].
    unfold handlePlayPause.
    destruct (playbackState s); cbn [fst snd]; autorewrite with trace;
      cbn [loadAudio fst snd submitted flat_map app filteredPrompts
           set_playbackState set_recordedChunks];
      rewrite ?app_nil_r, ?Hf; try (split; [exact Hre | exact HT]).
    + destruct (pauseAudio_quiet t s) as [-> _]. split; [constructor|].
      unfold pauseAudio. cbn [fst]. rewrite clearTimer_filtered. exact HT.
    + destruct (stopAudio_quiet t s) as [-> _]. split; [constructor|].
      unfold stopAudio. cbn [fst]. rewrite clearTimer_filtered. exact HT.
  - destruct (reconnect_avoids T n s HT) as [Hre Hf].
    destruct (handleReset_spec t n s)
      as (_ & _ & _ & _ & _ & _ & _ & Hfp & _ & _ & _ & _ & Hsub).
    rewrite Hsub, Hfp. split; [exact Hre | exact HT].
  - unfold reconfigure.
    destruct (setSessionPrompts_avoids T n (set_prompts ps s) HT) as [H1 H2].
    split; [exact H1|]. rewrite H2. exact HT.
  - unfold onSubmissionRejected. cbn [fst snd submitted flat_map app].
    destruct (pauseAudio_quiet t s) as [H1 _]. unfold submitted in H1. rewrite H1.
    split; [constructor|]. unfold pauseAudio. cbn [fst].
    rewrite clearTimer_filtered. exact HT.
Qed.

Lemma run_avoids (T : string) (evs : list Event) : forall s,
  T ∈ filteredPrompts s -> Forall (avoids T) (submitted (snd (run evs s))).
Proof.
  induction evs as [|ev evs IH]; intros s HT; [constructor|].
  cbn [run snd]. rewrite submitted_app. apply Forall_app.
  destruct (step_avoids T ev s HT) as [H1 H2]. split; [exact H1 | apply IH, H2].
Qed.

(** X13. Once the session has reported a prompt text as filtered, no later
    submission holds a prompt with that text, whatever the events that
    follow; nor does any submission hold a prompt of weight zero. *)
Theorem filtered_prompt_is_never_sent (e : LiveMusicServerMessage) (T reason : string)
  (clock : Q) (s : State) (evs : list Event) :
  filteredPrompt e = Some (T, reason) ->
  let r := onmessage e clock s in
  T ∈ filteredPrompts (fst r)
  /\ In (ToastShow reason) (snd r)
  /\ Forall (avoids T) (submitted (snd (run evs (fst r)))).
Proof.
  intros He r.
  assert (HT : T ∈ filteredPrompts (fst r)).
  { subst r. unfold onmessage. rewrite He.
    destruct (audioChunks e) as [chunks|]; cbn [fst].
    - match goal with |- context [onAudioChunks chunks clock ?x] =>
        destruct (onAudioChunks_quiet chunks clock x) as (_ & _ & ->) end.
      destruct (setupComplete e); cbn; set_solver.
    - destruct (setupComplete e); cbn; set_solver. }
  split; [exact HT|]. split; [|apply run_avoids, HT].
  subst r. unfold onmessage. rewrite He.
  destruct (audioChunks e), (setupComplete e); cbn; auto.
Qed.

Lemma filtered_prompt_is_never_sent_witness :
  let r := onmessage filtered0 1 (initial [funk 1]) in
  "Funk"%string ∈ filteredPrompts (fst r)
  /\ In (ToastShow "Prompt blocked") (snd r)
  /\ Forall (avoids "Funk") (submitted (snd (run burst0 (fst r)))).
Proof.
  apply (filtered_prompt_is_never_sent filtered0 "Funk" "Prompt blocked" 1
           (initial [funk 1]) burst0).
  reflexivity.
Defined.

(** With the text filtered, the burst submits an empty list of prompts. *)
Example burst_after_filter :
  submitted (snd (run burst0 (fst (onmessage filtered0 1 (initial [funk 1]))))) = [[]].
Proof. reflexivity. Qed.

Lemma run_messages_closed (evs : list Event) (s : State) :
  pausedOrStopped (playbackState s) = true ->
  forallb isMessage evs = true ->
  let r := run evs s in
  playbackState (fst r) = playbackState s
  /\ nextStartTime (fst r) = nextStartTime s
  /\ recordedChunks (fst r) = recordedChunks s
  /\ decoded (snd r) = []
  /\ scheduled (snd r) = [].
Proof.
  revert s. induction evs as [|ev evs IH]; intros s Hg Hm; [cbn; auto|].
  cbn [forallb] in Hm. apply andb_true_iff in Hm as [Hev Hm].
  destruct ev as [e t| | | | | |]; try discriminate.
  cbn [run step fst snd]. autorewrite with trace.
  assert (Hstep : playbackState (fst (onmessage e t s)) = playbackState s
                  /\ nextStartTime (fst (onmessage e t s)) = nextStartTime s
                  /\ recordedChunks (fst (onmessage e t s)) = recordedChunks s
                  /\ decoded (snd (onmessage e t s)) = []
                  /\ scheduled (snd (onmessage e t s)) = []).
  { destruct (audioChunks e) as [chunks|] eqn:He.
    - destruct (onmessage_audio e t s chunks He)
        as (s0 & pre & Hr & Hc0 & Hp0 & Hr0 & _ & Hsch & _ & Hdec & _).
      rewrite Hr. cbn [fst snd]. autorewrite with trace. rewrite Hsch, Hdec.
      unfold onAudioChunks. rewrite Hp0, Hg. cbn. auto.
    - unfold onmessage. rewrite He.
      destruct (setupComplete e), (filteredPrompt e); cbn; auto. }
  destruct Hstep as (H1 & H2 & H3 & H4 & H5).
  destruct (IH (fst (onmessage e t s))) as (I1 & I2 & I3 & I4 & I5);
    [rewrite H1; exact Hg | exact Hm |].
  cbv zeta in *. rewrite I1, I2, I3, I4, I5, H1, H2, H3, H4, H5. auto.
Qed.

(** While the state is 'paused' or 'stopped', messages alone change
    nothing of the playback: a run of messages leaves the state, the cursor
    and the Capture Log as they were, decodes nothing and starts nothing. *)
Theorem closed_gate_run (evs : list Event) (s : State) :
  pausedOrStopped (playbackState s) = true ->
  forallb isMessage evs = true ->
  let r := run evs s in
  playbackState (fst r) = playbackState s
  /\ nextStartTime (fst r) = nextStartTime s
  /\ recordedChunks (fst r) = recordedChunks s
  /\ decoded (snd r) = []
  /\ scheduled (snd r) = [].
Proof. exact (run_messages_closed evs s). Qed.

Lemma closed_gate_run_witness :
  let r := run [Message audio0 1; Message filtered0 2; Message audio0 3] (initial []) in
  playbackState (fst r) = playbackState (initial [])
  /\ nextStartTime (fst r) = nextStartTime (initial [])
  /\ recordedChunks (fst r) = recordedChunks (initial [])
  /\ decoded (snd r) = []
  /\ scheduled (snd r) = [].
Proof.
  apply (closed_gate_run [Message audio0 1; Message filtered0 2; Message audio0 3]
           (initial [])); reflexivity.
Defined.

(** ** The idle state *)

Lemma clearTimer_playback flag s :
  playbackState (fst (clearTimer flag s)) = playbackState s
  /\ timerIntervalId (fst (clearTimer flag s)) = false.
Proof.
  unfold clearTimer. destruct (timerIntervalId s) eqn:E, flag; cbn; auto.
Qed.

Lemma pauseAudio_idle t s :
  playbackState (fst (pauseAudio t s)) = paused
  /\ nextStartTime (fst (pauseAudio t s)) = 0%Q
  /\ timerIntervalId (fst (pauseAudio t s)) = false.
Proof.
  unfold pauseAudio. cbn [fst].
  destruct (clearTimer_state false (set_nextStartTime 0 (set_playbackState paused s)))
    as (Hc & Hr & _).
  destruct (clearTimer_playback false (set_nextStartTime 0 (set_playbackState paused s)))
    as (Hp & Ht).
  rewrite Hc, Hp, Ht. auto.
Qed.

Lemma stopAudio_idle t s :
  playbackState (fst (stopAudio t s)) = stopped
  /\ nextStartTime (fst (stopAudio t s)) = 0%Q
  /\ timerIntervalId (fst (stopAudio t s)) = false.
Proof.
  unfold stopAudio. cbn [fst].
  destruct (clearTimer_state true (set_nextStartTime 0 (set_playbackState stopped s)))
    as (Hc & Hr & _).
  destruct (clearTimer_playback true (set_nextStartTime 0 (set_playbackState stopped s)))
    as (Hp & Ht).
  rewrite Hc, Hp, Ht. auto.
Qed.

Lemma onAudioChunks_stays_open chunks t s :
  pausedOrStopped (playbackState s) = false ->
  pausedOrStopped (playbackState (fst (onAudioChunks chunks t s))) = false.
Proof.
  intros Hg. unfold onAudioChunks. rewrite Hg.
  destruct chunks as [|data rest]; [exact Hg|].
  destruct (decodeAudioData data 48000 2) as [b|]; [|exact Hg].
  rewrite (pausedOrStopped_open _ Hg).
  destruct (Qeq_bool (nextStartTime (set_recordedChunks (recordedChunks s ++ [b]) s)) 0);
    cbn [fst snd];
    match goal with |- context [Qltb ?c ?n] => destruct (Qltb c n) end;
    cbn [fst snd]; try exact Hg;
    match goal with
    | |- context [clearTimer ?f ?x] =>
        destruct (clearTimer_playback f x) as [-> _]; reflexivity
    end.
Qed.

Lemma onmessage_idle e t s : idle s -> idle (fst (onmessage e t s)).
Proof.
  intros Hi. unfold onmessage.
  set (s1 := if setupComplete e then set_connectionError false s else s).
  set (r := match filteredPrompt e with
            | Some fp => (set_filteredPrompts (filteredPrompts s1 ∪ {[fst fp]}) s1,
                          [ToastShow (snd fp)])
            | None => (s1, [])
            end).
  assert (Hr : playbackState (fst r) = playbackState s
               /\ nextStartTime (fst r) = nextStartTime s
               /\ timerIntervalId (fst r) = timerIntervalId s).
  { unfold r, s1. destruct (setupComplete e), (filteredPrompt e); cbn; auto. }
  destruct Hr as (Hp & Hc & Ht).
  assert (Hir : idle (fst r)) by (unfold idle; rewrite Hp, Hc, Ht; exact Hi).
  destruct (audioChunks e) as [chunks|]; [|exact Hir].
  cbn [fst]. destruct (pausedOrStopped (playbackState (fst r))) eqn:Hg.
  - unfold onAudioChunks. rewrite Hg. exact Hir.
  - intros Hclosed. rewrite (onAudioChunks_stays_open chunks t _ Hg) in Hclosed.
    discriminate.
Qed.


Lemma step_idle ev s : idle s -> idle (fst (step ev s)).
Proof.
  intros Hi. destruct ev as [e t|t|cb t|t n|t n|ps n|msg t]; cbn [step].
  - apply onmessage_idle, Hi.
  - intros _. unfold onerror. cbn [fst].
    destruct (stopAudio_idle t (set_connectionError true s)) as (_ & Hc & Ht). auto.
  - destruct cb.
    + intros Hclosed. unfold bufferElapsed in Hclosed. cbn in Hclosed.
      destruct (timerIntervalId s); discriminate.
    + exact Hi.
    + intros Hclosed. discriminate.
  - intros Hclosed. unfold handlePlayPause in *.
    destruct (playbackState s) eqn:Ep.
    + cbn in Hclosed. discriminate.
    + destruct (pauseAudio_idle t s) as (_ & Hc & Ht). auto.
    + destruct (stopAudio_idle t s) as (_ & Hc & Ht). auto.
    + cbn in Hclosed. discriminate.
  - intros _. destruct (handleReset_spec t n s) as (Hc & _ & _ & Ht & _). auto.
  - unfold reconfigure, setSessionPrompts, throttle. cbn.
    destruct (200 <=? n - lastCall s); exact Hi.
  - intros _. unfold onSubmissionRejected. cbn [fst].
    destruct (pauseAudio_idle t s) as (_ & Hc & Ht). auto.
Qed.

Lemma run_idle (evs : list Event) : forall s, idle s -> idle (fst (run evs s)).
Proof.
  induction evs as [|ev evs IH]; intros s Hi; [exact Hi|].
  cbn [run fst]. apply IH, step_idle, Hi.
Qed.

(** X14. However the component got there, a 'paused' or 'stopped' state has the
    cursor unset and holds no elapsed-time interval. *)
Theorem idle_invariant (evs : list Event) (prompts : list Prompt) :
  idle (fst (run evs (initial prompts))).
Proof. apply run_idle. intros _. split; reflexivity. Qed.


(** ** Starting and resuming *)

(** A segment accepted while the cursor is unset: the cursor is put
    [bufferTime] ahead of the clock, the deferred switch to 'playing' is
    armed, and the segment is started there; this is never an under-run. *)
Lemma onAudioChunks_cold data rest clock s b :
  playingOrLoading (playbackState s) = true ->
  decodeAudioData data 48000 2 = Normal b ->
  nextStartTime s = 0%Q ->
  onAudioChunks (data :: rest) clock s
  = (set_nextStartTime (clock + bufferTime + duration b)
       (set_nextStartTime (clock + bufferTime)
          (set_recordedChunks (recordedChunks s ++ [b]) s)),
     [DecodeAudioData data; SetTimeout BufferElapsed (bufferTime * 1000);
      SourceStart b (clock + bufferTime)%Q]).
Proof.
  intros Hacc Hdec Hc. unfold onAudioChunks.
  rewrite (playingOrLoading_open _ Hacc), Hdec, Hacc.
  assert (Hrec : forall v, nextStartTime (set_recordedChunks v s) = nextStartTime s)
    by reflexivity.
  rewrite Hrec, Hc.
  change (Qeq_bool 0 0) with true.
  cbn [fst snd nextStartTime set_nextStartTime].
  assert (Hlt : Qltb (clock + bufferTime) clock = false)
    by (apply Qltb_ge; unfold bufferTime; lra).
  rewrite Hlt. reflexivity.
Qed.



Lemma onSubmissionRejected_spec message t s :
  let r := onSubmissionRejected message t s in
  playbackState (fst r) = paused
  /\ nextStartTime (fst r) = 0%Q
  /\ recordedChunks (fst r) = recordedChunks s
  /\ decoded (snd r) = [] /\ scheduled (snd r) = []
  /\ In (ToastShow message) (snd r) /\ In SessionPause (snd r).
Proof.
  unfold onSubmissionRejected, pauseAudio, clearTimer. cbn.
  destruct (timerIntervalId s); cbn; repeat split; auto.
Qed.





(** X16. The deferred switch to 'playing' is not cancelled when playback is
    paused or stopped: if it fires afterwards, the state becomes 'playing'
    again, and the next segment that arrives is accepted and started a
    fresh [bufferTime] after the clock. *)
Theorem deferred_switch_survives_pause (t0 : Q) (now : Z) (tfire clock : Q)
  (e : LiveMusicServerMessage) (data : list Z) (rest : list (list Z))
  (b : AudioBuffer) (s : State) :
  playingOrLoading (playbackState s) = true ->
  audioChunks e = Some (data :: rest) ->
  decodeAudioData data 48000 2 = Normal b ->
  let s1 := fst (handlePlayPause t0 now s) in
  let s2 := fst (bufferElapsed tfire s1) in
  let r := onmessage e clock s2 in
  pausedOrStopped (playbackState s1) = true
  /\ playbackState s2 = playing
  /\ scheduled (snd r) = [(b, (clock + bufferTime)%Q)]
  /\ recordedChunks (fst r) = recordedChunks s ++ [b].
Proof.
  intros Hacc He Hdec s1 s2 r.
  assert (H1 : pausedOrStopped (playbackState s1) = true
               /\ nextStartTime s1 = 0%Q /\ recordedChunks s1 = recordedChunks s).
  { unfold s1, handlePlayPause.
    destruct (playbackState s) eqn:Ep; try discriminate.
    - destruct (pauseAudio_idle t0 s) as (Hp & Hc & _).
      rewrite Hp, Hc. repeat split; try reflexivity.
      unfold pauseAudio. cbn [fst].
      match goal with |- context [clearTimer ?f ?x] =>
        destruct (clearTimer_state f x) as (_ & _ & ->) end. reflexivity.
    - destruct (stopAudio_idle t0 s) as (Hp & Hc & _).
      rewrite Hp, Hc. repeat split; try reflexivity.
      unfold stopAudio. cbn [fst].
      match goal with |- context [clearTimer ?f ?x] =>
        destruct (clearTimer_state f x) as (_ & _ & ->) end. reflexivity. }
  destruct H1 as (Hg1 & Hc1 & Hr1).
  destruct (bufferElapsed_state tfire s1) as (Hc2 & Hr2 & Hp2 & _). fold s2 in Hc2, Hr2, Hp2.
  split; [exact Hg1|]. split; [exact Hp2|].
  destruct (onmessage_audio e clock s2 _ He)
    as (s0 & pre & Hr & Hc0 & Hp0 & Hr0 & _ & Hsch & _).
  unfold r. rewrite Hr.
  rewrite (onAudioChunks_cold data rest clock s0 b);
    [| rewrite Hp0, Hp2; reflexivity | exact Hdec | rewrite Hc0, Hc2; exact Hc1].
  cbn [fst snd]. autorewrite with trace. rewrite Hsch. cbn.
  rewrite Hr0, Hr2, Hr1. auto.
Qed.

Lemma deferred_switch_survives_pause_witness :
  let s := fst (onmessage audio0 1 loaded0) in
  let s1 := fst (handlePlayPause (3 # 2) 2000 s) in
  let s2 := fst (bufferElapsed 3 s1) in
  let r := onmessage audio0 4 s2 in
  pausedOrStopped (playbackState s1) = true
  /\ playbackState s2 = playing
  /\ scheduled (snd r) = [(buffer0, (4 + bufferTime)%Q)]
  /\ recordedChunks (fst r) = recordedChunks s ++ [buffer0].
Proof.
  apply (deferred_switch_survives_pause (3 # 2) 2000 3 4 audio0 chunk0 [] buffer0
           (fst (onmessage audio0 1 loaded0))); reflexivity.
Defined.

(** ** The connection *)

Lemma connects_app (l1 l2 : list Call) :
  connects (l1 ++ l2) = (connects l1 + connects l2)%nat.
Proof. unfold connects. rewrite List.filter_app, length_app. reflexivity. Qed.

Lemma clearTimer_connection flag s :
  connects (snd (clearTimer flag s)) = 0%nat
  /\ connectionError (fst (clearTimer flag s)) = connectionError s.
Proof. unfold clearTimer. destruct (timerIntervalId s), flag; cbn; auto. Qed.

Lemma onAudioChunks_connection chunks t s :
  connects (snd (onAudioChunks chunks t s)) = 0%nat
  /\ connectionError (fst (onAudioChunks chunks t s)) = connectionError s.
Proof.
  unfold onAudioChunks.
  destruct (pausedOrStopped (playbackState s)); [auto|].
  destruct chunks as [|data rest]; [auto|].
  destruct (decodeAudioData data 48000 2) as [b|]; [|auto].
  destruct (playingOrLoading (playbackState s));
    match goal with |- context [Qeq_bool ?c 0] => destruct (Qeq_bool c 0) end;
    cbn [fst snd];
    match goal with |- context [Qltb ?c ?n] => destruct (Qltb c n) end;
    cbn [fst snd]; rewrite ?connects_app;
    try match goal with |- context [clearTimer ?f ?x] =>
      destruct (clearTimer_connection f x) as [-> ->] end;
    cbn; auto.
Qed.

Lemma step_connection ev s :
  isSessionError ev = false ->
  connectionError s = false ->
  connects (snd (step ev s)) = 0%nat /\ connectionError (fst (step ev s)) = false.
Proof.
  intros Hev Hc. destruct ev as [e t|t|cb t|t n|t n|ps n|msg t]; cbn [step];
    try discriminate.
  - unfold onmessage.
    set (s1 := if setupComplete e then set_connectionError false s else s).
    assert (H1 : connectionError s1 = false)
      by (unfold s1; destruct (setupComplete e); [reflexivity|exact Hc]).
    destruct (filteredPrompt e) as [fp|], (audioChunks e) as [chunks|];
      cbn [fst snd]; rewrite ?connects_app;
      try match goal with |- context [onAudioChunks ?c ?t ?x] =>
        destruct (onAudioChunks_connection c t x) as [-> ->] end;
      cbn; auto.
  - destruct cb; cbn.
    + unfold bufferElapsed. cbn. destruct (timerIntervalId s); cbn; auto.
    + auto.
    + auto.
  - unfold handlePlayPause, reconnect, pauseAudio, stopAudio. rewrite Hc.
    destruct (playbackState s); cbn [fst snd]; rewrite ?connects_app;
      try match goal with |- context [clearTimer ?f ?x] =>
        destruct (clearTimer_connection f x) as [-> ->] end;
      cbn; auto.
  - unfold handleReset, updateSettings, reconnect, pauseAudio, clearTimer.
    destruct s as [ps c st rc fp ce ts ti el lc slc]. cbn in Hc. subst ce. cbn.
    destruct ti; cbn; destruct (200 <=? n - slc); cbn; auto.
  - unfold reconfigure, setSessionPrompts, throttle. cbn.
    destruct (200 <=? n - lastCall s); cbn; auto.
  - unfold onSubmissionRejected, pauseAudio, clearTimer.
    destruct s as [ps c st rc fp ce ts ti el lc slc]. cbn in Hc. subst ce. cbn.
    destruct ti; cbn; auto.
Qed.

(** X17. Once the connection is marked sound, nothing but a session error or
    close makes the component connect again: in a run without one, no
    connection is opened and the mark stays. *)
Theorem no_reconnect_while_connected (evs : list Event) (s : State) :
  connectionError s = false ->
  forallb (fun ev => negb (isSessionError ev)) evs = true ->
  connects (snd (run evs s)) = 0%nat
  /\ connectionError (fst (run evs s)) = false.
Proof.
  revert s. induction evs as [|ev evs IH]; intros s Hc Hev; [auto|].
  cbn [forallb] in Hev. apply andb_true_iff in Hev as [H1 H2].
  apply negb_true_iff in H1.
  destruct (step_connection ev s H1 Hc) as [Hn Hc'].
  destruct (IH (fst (step ev s)) Hc' H2) as [Hn' Hc''].
  cbn [run fst snd]. rewrite connects_app, Hn, Hn'. auto.
Qed.

Lemma no_reconnect_while_connected_witness :
  let s := fst (onmessage setup0 0 (initial [])) in
  let evs := [PlayPause 0 1000; Message audio0 1; Fired BufferElapsed 3;
              PlayPause 4 5000; Reset 5 6000; Fired LoadAudio 6] in
  connects (snd (run evs s)) = 0%nat
  /\ connectionError (fst (run evs s)) = false.
Proof.
  apply (no_reconnect_while_connected
           [PlayPause 0 1000; Message audio0 1; Fired BufferElapsed 3;
            PlayPause 4 5000; Reset 5 6000; Fired LoadAudio 6]
           (fst (onmessage setup0 0 (initial [])))); reflexivity.
Defined.

(** X18. A session error or close stops playback, marks the connection
    broken and tells the user; the next play request then connects first,
    submits the prompts again (through the same throttle as every
    submission) and starts loading: the state is 'loading' when the
    handler returns.  If the session then rejects a submission, the
    [catch] branch shows the error message and pauses playback. *)
Theorem session_error_recovery (t t' : Q) (now : Z) (s : State) :
  let r1 := onerror t s in
  let r2 := handlePlayPause t' now (fst r1) in
  (playbackState (fst r1) = stopped
   /\ nextStartTime (fst r1) = 0%Q
   /\ connectionError (fst r1) = true
   /\ In SessionStop (snd r1)
   /\ In (ToastShow "Connection error, please restart audio.") (snd r1))
  /\ (head (snd r2) = Some Connect
      /\ connects (snd r2) = 1%nat
      /\ submitted (snd r2)
         = (if 200 <=? now - lastCall s then [promptsToSend s] else [])
      /\ In SessionPlay (snd r2)
      /\ playbackState (fst r2) = loading)
  /\ (forall (message : string) (t'' : Q),
        let r3 := step (SubmissionRejected message t'') (fst r2) in
        playbackState (fst r3) = paused
        /\ nextStartTime (fst r3) = 0%Q
        /\ In (ToastShow message) (snd r3)
        /\ In SessionPause (snd r3)).
Proof.
  cbv zeta. split; [|split].
  - unfold onerror, stopAudio, clearTimer. cbn.
    destruct (timerIntervalId s); cbn; intuition auto.
  - unfold onerror, stopAudio, clearTimer, handlePlayPause, reconnect,
      setSessionPrompts, throttle, loadAudio.
    cbn. destruct (timerIntervalId s); cbn;
      destruct (200 <=? now - lastCall s); cbn; intuition auto.
  - intros message t''. cbn [step].
    match goal with |- context [onSubmissionRejected message t'' ?x] =>
      destruct (onSubmissionRejected_spec message t'' x)
        as (H1 & H2 & _ & _ & _ & H3 & H4) end.
    auto.
Qed.




(** * Further properties of the decoder and of the cursor *)

Lemma pairs16_lookup (k : nat) : forall bs : list Z,
  (2 * k + 1 < List.length bs)%nat ->
  TypedArray.pairs16 bs !! k = Some (DataView.getInt16 (2 * k) bs).
Proof.
  induction k as [|k IH]; intros bs Hlen.
  - destruct bs as [|b0 [|b1 rest]]; cbn in Hlen; try lia. reflexivity.
  - destruct bs as [|b0 [|b1 rest]]; cbn in Hlen; try lia.
    cbn [TypedArray.pairs16]. rewrite lookup_cons.
    rewrite IH by (cbn in Hlen; lia).
    unfold DataView.getInt16, DataView.getUint16, DataView.byteAt.
    replace (2 * S k)%nat with (S (S (2 * k))) by lia.
    replace (S (S (2 * k)) + 1)%nat with (S (S (2 * k + 1))) by lia.
    reflexivity.
Qed.

(** X2. In a decoded segment, sample [i] of channel [c] is the little-endian
    signed 16-bit integer at byte [2 * (i * numChannels + c)] of the chunk,
    divided by 32768: the decoder de-interleaves the frames. *)
Theorem decode_sample_layout (data : list Z) (rate : positive) (numChannels : nat)
  (b : AudioBuffer) (i c : nat) :
  decodeAudioData data rate numChannels = Normal b ->
  (i < length b)%nat -> (c < numChannels)%nat ->
  getChannelData b c i
  = (inject_Z (DataView.getInt16 (2 * (i * numChannels + c)) data) / 32768)%Q.
Proof.
  intros Hb Hi Hc.
  destruct (decodeAudioData_returns _ _ _ _ Hb) as (HC & Heven & Hfr).
  destruct (decodeAudioData_deinterleaves data rate numChannels HC Heven Hfr)
    as (b' & Hb' & Hch & Hlen & Hsamples).
  rewrite Hb in Hb'. injection Hb' as <-.
  assert (Hk : (i * numChannels + c < length b * numChannels)%nat) by nia.
  specialize (Hsamples _ Hk).
  replace ((i * numChannels + c) mod numChannels)%nat with c in Hsamples
    by (rewrite Nat.add_comm, Nat.Div0.mod_add; symmetry; apply Nat.mod_small; lia).
  replace ((i * numChannels + c) / numChannels)%nat with i in Hsamples
    by (rewrite Nat.div_add_l by lia; rewrite Nat.div_small by lia; lia).
  unfold decode_float32 in Hsamples. rewrite lookup_map in Hsamples.
  rewrite pairs16_lookup in Hsamples.
  - cbn in Hsamples. injection Hsamples as <-. reflexivity.
  - rewrite Hlen in Hk. unfold frameCount in Hk.
    replace (numChannels =? 0)%nat with false in Hk by (symmetry; apply Nat.eqb_neq; lia).
    pose proof (Nat.Div0.mul_div_le (List.length data / 2) numChannels).
    pose proof (Nat.Div0.mul_div_le (List.length data) 2).
    apply Nat.even_spec in Heven. destruct Heven as [h Hh].
    assert (List.length data / 2 = h)%nat
      by (rewrite Hh, Nat.mul_comm; apply Nat.div_mul; lia).
    nia.
Qed.

Lemma decode_sample_layout_witness :
  getChannelData buffer0 1 0
  = (inject_Z (DataView.getInt16 (2 * (0 * 2 + 1)) chunk0) / 32768)%Q.
Proof.
  apply (decode_sample_layout chunk0 48000 2 buffer0 0 1); [reflexivity | cbn; lia | lia].
Defined.

Lemma reachable_cursor_nonneg_witness :
  (0 <= nextStartTime
          (fst (run [PlayPause 0 1000; Message audio0 1; Message audio0 4;
                     Message audio0 5] (initial []))))%Q.
Proof.
  apply (reachable_cursor_nonneg
           [PlayPause 0 1000; Message audio0 1; Message audio0 4; Message audio0 5]
           (initial [])).
  - reflexivity.
  - cbn. lra.
Defined.

(** * Properties of the base64 transport *)

Import Base64.

Lemma list_ind3 {A} (P : list A -> Prop) :
  P [] -> (forall a, P [a]) -> (forall a b, P [a; b]) ->
  (forall a b c l, P l -> P (a :: b :: c :: l)) ->
  forall l, P l.
Proof.
  intros H0 H1 H2 H3.
  assert (H : forall n (l : list A), (List.length l < n)%nat -> P l).
  { induction n as [|n IH]; intros l Hl; [lia|].
    destruct l as [|a [|b [|c l]]]; auto.
    apply H3, IH. cbn in Hl. lia. }
  intros l. apply (H (S (List.length l))). lia.
Qed.

Lemma sextet_cases (s : Z) : 0 <= s < 64 -> In s (map Z.of_nat (seq 0 64)).
Proof.
  intros H. apply in_map_iff. exists (Z.to_nat s). split; [lia|].
  apply in_seq. lia.
Qed.

Lemma digit_spec (s : Z) :
  0 <= s < 64 ->
  value (digit s) = Some s
  /\ isWhitespace (digit s) = false
  /\ (digit s =? pad) = false.
Proof.
  intros H. apply sextet_cases in H. rename H into Hs.
  assert (Hall : forallb (fun s => match value (digit s) with
                                   | Some v => (v =? s)
                                   | None => false
                                   end
                                   && negb (isWhitespace (digit s))
                                   && negb (digit s =? pad))
                   (map Z.of_nat (seq 0 64)) = true) by (vm_compute; reflexivity).
  rewrite forallb_forall in Hall. specialize (Hall s Hs).
  apply andb_true_iff in Hall as [Hall H3]. apply andb_true_iff in Hall as [H1 H2].
  destruct (value (digit s)) as [v|]; [|discriminate].
  apply Z.eqb_eq in H1. subst v.
  apply negb_true_iff in H2, H3. auto.
Qed.

Lemma sextets_range (bs : list Z) :
  Forall (fun b => 0 <= b < 256) bs -> Forall (fun s => 0 <= s < 64) (sextets bs).
Proof.
  induction bs as [|a|a b|a b c l IH] using list_ind3; intros H; cbn [sextets app].
  - constructor.
  - inversion_clear H as [|? ? Ha _].
    repeat constructor; Z.to_euclidean_division_equations; lia.
  - inversion_clear H as [|? ? Ha H']. inversion_clear H' as [|? ? Hb _].
    repeat constructor; Z.to_euclidean_division_equations; lia.
  - inversion_clear H as [|? ? Ha H']. inversion_clear H' as [|? ? Hb H''].
    inversion_clear H'' as [|? ? Hc Hl].
    repeat (constructor; [Z.to_euclidean_division_equations; lia|]).
    apply IH, Hl.
Qed.

Lemma octets_sextets (bs : list Z) :
  Forall (fun b => 0 <= b < 256) bs -> octets (sextets bs) = bs.
Proof.
  induction bs as [|a|a b|a b c l IH] using list_ind3; intros H; cbn [sextets app octets].
  - reflexivity.
  - inversion_clear H as [|? ? Ha _].
    f_equal. Z.to_euclidean_division_equations; lia.
  - inversion_clear H as [|? ? Ha H']. inversion_clear H' as [|? ? Hb _].
    f_equal; [|f_equal]; Z.to_euclidean_division_equations; lia.
  - inversion_clear H as [|? ? Ha H']. inversion_clear H' as [|? ? Hb H''].
    inversion_clear H'' as [|? ? Hc Hl].
    rewrite IH by exact Hl.
    f_equal; [|f_equal; [|f_equal]]; Z.to_euclidean_division_equations; lia.
Qed.

(** The number of sextets and of padding characters, by the length of the
    input modulo 3. *)
Lemma sextets_length (bs : list Z) :
  exists q r : nat,
    List.length bs = (3 * q + r)%nat /\ (r < 3)%nat
    /\ List.length (sextets bs) = (4 * q + (if (r =? 0)%nat then 0 else r + 1))%nat
    /\ ((3 - List.length bs mod 3) mod 3 = (if (r =? 0)%nat then 0 else 3 - r))%nat.
Proof.
  induction bs as [|a|a b|a b c l IH] using list_ind3.
  - exists 0%nat, 0%nat. cbn. lia.
  - exists 0%nat, 1%nat. cbn. lia.
  - exists 0%nat, 2%nat. cbn. lia.
  - destruct IH as (q & r & Hl & Hr & Hs & Hp). exists (S q), r.
    cbn [sextets List.length app]. rewrite Hs.
    split; [lia|]. split; [exact Hr|]. split; [lia|].
    rewrite <- Hp. f_equal. f_equal.
    change (S (S (S (List.length l)))) with (1 * 3 + List.length l)%nat.
    rewrite Nat.add_comm, Nat.Div0.mod_add. reflexivity.
Qed.

Lemma rev_repeat {A} (x : A) (n : nat) : rev (repeat x n) = repeat x n.
Proof.
  induction n as [|n IH]; [reflexivity|].
  cbn [repeat rev]. rewrite IH. symmetry. apply repeat_cons.
Qed.

Lemma stripPadding_padded (xs : list Z) (p : nat) :
  Forall (fun c => (c =? pad) = false) xs -> (p <= 2)%nat ->
  stripPadding (xs ++ repeat pad p) = xs.
Proof.
  intros Hxs Hp. unfold stripPadding. rewrite rev_app_distr, rev_repeat.
  assert (Hrev : Forall (fun c => (c =? pad) = false) (rev xs))
    by (apply Forall_rev; exact Hxs).
  destruct p as [|[|[|p]]]; [| | |lia]; cbn [repeat app].
  - rewrite app_nil_r.
    destruct (rev xs) as [|c1 [|c2 r]] eqn:E.
    + reflexivity.
    + inversion_clear Hrev as [|? ? H1 _]. rewrite H1. reflexivity.
    + inversion_clear Hrev as [|? ? H1 _]. rewrite H1. reflexivity.
  - rewrite Z.eqb_refl.
    destruct (rev xs) as [|c2 r] eqn:E.
    + apply (f_equal (@rev Z)) in E. rewrite rev_involutive in E. subst xs. reflexivity.
    + inversion_clear Hrev as [|? ? H1 _]. rewrite H1, <- E. apply rev_involutive.
  - rewrite !Z.eqb_refl. apply rev_involutive.
Qed.

Lemma mapM_value_digit (ss : list Z) :
  Forall (fun s => 0 <= s < 64) ss -> mapM value (map digit ss) = Some ss.
Proof.
  induction 1 as [|s ss Hs _ IH]; [reflexivity|].
  cbn [map mapM]. destruct (digit_spec s Hs) as (-> & _). cbn. rewrite IH. reflexivity.
Qed.

Lemma filter_all {A} (f : A -> bool) (l : list A) :
  Forall (fun x => f x = true) l -> List.filter f l = l.
Proof.
  induction 1 as [|x l Hx _ IH]; [reflexivity|].
  cbn [List.filter]. rewrite Hx, IH. reflexivity.
Qed.

Lemma atob_btoa (data : list Z) :
  Forall (fun b => 0 <= b < 256) data ->
  exists text,
    btoa data = Some text
    /\ atob text = Some data
    /\ List.length text = (4 * ((List.length data + 2) / 3))%nat.
Proof.
  intros Hb. unfold btoa.
  assert (Hle : forallb (fun c => c <=? 255) data = true).
  { apply forallb_forall. intros c Hc. rewrite Forall_forall in Hb.
    apply Z.leb_le. apply list_elem_of_In in Hc. specialize (Hb c Hc). lia. }
  rewrite Hle. eexists. split; [reflexivity|].
  pose proof (sextets_range data Hb) as Hs.
  destruct (sextets_length data) as (q & r & Hl & Hr & Hsl & Hp).
  set (xs := map digit (sextets data)).
  set (p := ((3 - List.length data mod 3) mod 3)%nat) in *.
  assert (Hxs : Forall (fun c => isWhitespace c = false /\ (c =? pad) = false) xs).
  { unfold xs. apply Forall_map. eapply Forall_impl; [exact Hs|].
    intros s Hs'. cbn. destruct (digit_spec s Hs') as (_ & H1 & H2). auto. }
  assert (Hlen : List.length xs = List.length (sextets data))
    by (unfold xs; apply length_map).
  assert (Hp2 : (p <= 2)%nat) by (rewrite Hp; destruct (r =? 0)%nat eqn:E; [lia|];
                                 apply Nat.eqb_neq in E; lia).
  split.
  - unfold atob.
    rewrite filter_all.
    2:{ apply Forall_app. split.
        - eapply Forall_impl; [exact Hxs|]. intros c [H1 _]. cbn. rewrite H1. reflexivity.
        - apply Forall_forall. intros c Hc. apply list_elem_of_In, repeat_spec in Hc.
          subst c. reflexivity. }
    assert (H4 : ((List.length (xs ++ repeat pad p)) mod 4 =? 0)%nat = true).
    { apply Nat.eqb_eq. rewrite length_app, repeat_length, Hlen, Hsl, Hp.
      destruct (r =? 0)%nat eqn:E.
      - rewrite !Nat.add_0_r, Nat.mul_comm. apply Nat.Div0.mod_mul.
      - apply Nat.eqb_neq in E.
        replace (4 * q + (r + 1) + (3 - r))%nat with (4 + q * 4)%nat by lia.
        rewrite Nat.Div0.mod_add. reflexivity. }
    rewrite H4.
    rewrite stripPadding_padded;
      [| eapply Forall_impl; [exact Hxs|]; intros c [_ H2]; exact H2 | exact Hp2].
    assert (H1 : ((List.length xs) mod 4 =? 1)%nat = false).
    { apply Nat.eqb_neq. rewrite Hlen, Hsl.
      rewrite Nat.add_comm, Nat.mul_comm, Nat.Div0.mod_add.
      destruct r as [|[|[|r]]]; cbn; lia. }
    rewrite H1. unfold xs. rewrite mapM_value_digit by exact Hs.
    cbn. rewrite octets_sextets by exact Hb. reflexivity.
  - rewrite length_app, repeat_length, Hlen, Hsl, Hp, Hl.
    destruct r as [|[|[|r]]]; [| | |lia]; cbn [Nat.eqb].
    + replace (3 * q + 0 + 2)%nat with (2 + q * 3)%nat by lia.
      rewrite Nat.div_add by lia. cbn. lia.
    + replace (3 * q + 1 + 2)%nat with (3 + q * 3)%nat by lia.
      rewrite Nat.div_add by lia. cbn. lia.
    + replace (3 * q + 2 + 2)%nat with (4 + q * 3)%nat by lia.
      rewrite Nat.div_add by lia. cbn. lia.
Qed.

Lemma map_bytes (f : Z -> Z) (bytes : list Z) :
  (forall b, 0 <= b < 256 -> f b = b) ->
  Forall (fun b => 0 <= b < 256) bytes -> map f bytes = bytes.
Proof.
  intros Hf. induction 1 as [|b l Hb _ IH]; [reflexivity|].
  cbn [map]. rewrite Hf by exact Hb. rewrite IH. reflexivity.
Qed.

Lemma encode_then_decode (bytes : list Z) :
  Forall (fun b => 0 <= b < 256) bytes ->
  exists text, encode bytes = Some text /\ decode text = Some bytes.
Proof.
  intros Hb. unfold encode, decode.
  rewrite (map_bytes ToUint16) by
    (exact Hb || (intros b H; unfold ToUint16; apply Z.mod_small; lia)).
  destruct (atob_btoa bytes Hb) as (text & H1 & H2 & _).
  exists text. rewrite H1, H2. cbn.
  rewrite (map_bytes ToUint8) by
    (exact Hb || (intros b H; unfold ToUint8; apply Z.mod_small; lia)).
  auto.
Qed.

(** X20. [decode] undoes [encode]: every byte array survives the base64
    transport, and the text that carries it is four characters for every
    three bytes, the last group padded. *)
Theorem decode_encode (bytes : list Z) :
  Forall (fun b => 0 <= b < 256) bytes ->
  exists text,
    encode bytes = Some text
    /\ decode text = Some bytes
    /\ List.length text = (4 * ((List.length bytes + 2) / 3))%nat.
Proof.
  intros Hb. unfold encode, decode.
  rewrite (map_bytes ToUint16) by
    (exact Hb || (intros b H; unfold ToUint16; apply Z.mod_small; lia)).
  destruct (atob_btoa bytes Hb) as (text & H1 & H2 & H3).
  exists text. rewrite H1, H2. cbn.
  rewrite (map_bytes ToUint8) by
    (exact Hb || (intros b H; unfold ToUint8; apply Z.mod_small; lia)).
  auto.
Qed.

Lemma decode_encode_witness :
  exists text,
    encode chunk0 = Some text
    /\ decode text = Some chunk0
    /\ List.length text = (4 * ((List.length chunk0 + 2) / 3))%nat.
Proof.
  apply (decode_encode chunk0). repeat constructor; lia.
Defined.

Example encode_chunk0 : encode chunk0 = Some (charCodes "AEAAwAEA//8=").
Proof. reflexivity. Qed.

Lemma ToInt16_range (n : Z) : -32768 <= ToInt16 n < 32768.
Proof.
  unfold ToInt16. cbv zeta.
  pose proof (Z.mod_pos_bound n 65536 ltac:(lia)).
  destruct (32768 <=? _) eqn:E; [apply Z.leb_le in E | apply Z.leb_gt in E]; lia.
Qed.

Lemma pairs16_bytes16 (a : list Z) :
  Forall (fun v => -32768 <= v < 32768) a ->
  TypedArray.pairs16 (TypedArray.Uint8Array_of_Int16Array a) = a.
Proof.
  unfold TypedArray.Uint8Array_of_Int16Array.
  induction 1 as [|v a Hv _ IH]; [reflexivity|].
  cbn [flat_map TypedArray.bytes16 app TypedArray.pairs16].
  rewrite IH, bytes16_signed by exact Hv. reflexivity.
Qed.

Lemma Uint8Array_bytes (a : list Z) :
  Forall (fun b => 0 <= b < 256) (TypedArray.Uint8Array_of_Int16Array a)
  /\ List.length (TypedArray.Uint8Array_of_Int16Array a) = (2 * List.length a)%nat.
Proof.
  unfold TypedArray.Uint8Array_of_Int16Array.
  induction a as [|v a [IH1 IH2]]; [split; [constructor|reflexivity]|].
  cbn [flat_map TypedArray.bytes16 app List.length]. split.
  - repeat (constructor; [apply ToUint8_range|]). exact IH1.
  - rewrite IH2. lia.
Qed.

(** X21. A mono block of samples in [-1, 1) survives the whole transport:
    [createBlob] and its base64 text, [decode], and [decodeAudioData] with
    one channel give a segment of as many frames, each within one
    quantization step of the sample sent. *)
Theorem transport_roundtrip (data : list Q) (rate : positive) :
  data <> [] ->
  Forall (fun x => -1 <= x /\ x < 1)%Q data ->
  exists text bytes b,
    createBlob_data data = Some text
    /\ decode text = Some bytes
    /\ decodeAudioData bytes rate 1 = Normal b
    /\ length b = List.length data
    /\ forall (i : nat) (x : Q), data !! i = Some x ->
         (Qabs (x - getChannelData b 0 i) < 1 # 32768)%Q.
Proof.
  intros Hne Hrange. unfold createBlob_data, createBlob. cbn [fst].
  set (ints := createBlob_int16 data).
  assert (Hints : Forall (fun v => -32768 <= v < 32768) ints).
  { unfold ints, createBlob_int16. apply Forall_map, Forall_forall.
    intros x _. apply ToInt16_range. }
  assert (Hil : List.length ints = List.length data)
    by (unfold ints, createBlob_int16; apply length_map).
  destruct (Uint8Array_bytes ints) as [Hbytes Hlen].
  set (bytes := TypedArray.Uint8Array_of_Int16Array ints) in *.
  destruct (encode_then_decode bytes Hbytes) as (text & He & Hd).
  assert (Hn : (1 <= List.length data)%nat)
    by (destruct data; [contradiction | cbn; lia]).
  assert (Hfc : frameCount (List.length bytes) 1 = List.length data).
  { unfold frameCount. cbn [Nat.eqb]. rewrite Hlen, Hil, Nat.div_1_r.
    rewrite Nat.mul_comm. apply Nat.div_mul. lia. }
  destruct (decodeAudioData_deinterleaves bytes rate 1) as (b & Hb & _ & Hbl & Hs).
  - lia.
  - rewrite Hlen. apply Nat.even_spec. exists (List.length ints). reflexivity.
  - rewrite Hfc. exact Hn.
  - exists text, bytes, b. rewrite Hbl, Hfc.
    repeat split; try assumption.
    intros i x Hx.
    assert (Hi : (i < List.length data)%nat) by (eapply lookup_lt_Some; exact Hx).
    specialize (Hs i). rewrite Hbl, Hfc, Nat.mul_1_r in Hs. specialize (Hs Hi).
    rewrite Nat.mod_1_r, Nat.div_1_r in Hs.
    unfold bytes in Hs. rewrite pairs16_bytes16 in Hs by exact Hints.
    unfold ints in Hs. rewrite roundtrip_map, lookup_map, Hx in Hs.
    cbn in Hs. injection Hs as <-.
    rewrite Forall_forall in Hrange.
    destruct (Hrange x) as [Hlo Hhi]; [eapply list_elem_of_lookup_2; exact Hx|].
    apply roundtrip_below_full_scale; assumption.
Qed.

Lemma transport_roundtrip_witness :
  exists text bytes b,
    createBlob_data [(1 # 2)%Q; (-1)%Q; (-1 # 3)%Q] = Some text
    /\ decode text = Some bytes
    /\ decodeAudioData bytes 16000 1 = Normal b
    /\ length b = List.length [(1 # 2)%Q; (-1)%Q; (-1 # 3)%Q]
    /\ forall (i : nat) (x : Q), [(1 # 2)%Q; (-1)%Q; (-1 # 3)%Q] !! i = Some x ->
         (Qabs (x - getChannelData b 0 i) < 1 # 32768)%Q.
Proof.
  apply (transport_roundtrip [(1 # 2)%Q; (-1)%Q; (-1 # 3)%Q] 16000).
  - discriminate.
  - repeat constructor; vm_compute; congruence.
Defined.

(** * Properties of the colours and of the default prompts *)

Import Palette.

Lemma pick_spec {A} (random : Q) (array : list A) :
  (0 <= random)%Q -> (random < 1)%Q -> array <> [] ->
  exists x, pick random array = Some x /\ x ∈ array.
Proof.
  intros Hlo Hhi Hne. unfold pick.
  set (n := List.length array).
  assert (Hn : (0 < n)%nat) by (destruct array; [contradiction | cbn; lia]).
  set (index := Qfloor (random * inject_Z (Z.of_nat n))).
  assert (Hnq : (0 < inject_Z (Z.of_nat n))%Q)
    by (change 0%Q with (inject_Z 0); rewrite <- Zlt_Qlt; lia).
  assert (H0 : 0 <= index).
  { change 0 with (Qfloor 0). apply Qfloor_resp_le. nra. }
  assert (H1 : index < Z.of_nat n).
  { rewrite Zlt_Qlt. eapply Qle_lt_trans; [apply Qfloor_le|]. nra. }
  replace (index <? 0) with false by (symmetry; apply Z.ltb_ge; exact H0).
  destruct (lookup_lt_is_Some_2 array (Z.to_nat index)) as [x Hx]; [fold n; lia|].
  exists x. split; [exact Hx|]. eapply list_elem_of_lookup_2; exact Hx.
Qed.

Lemma getUnusedRandomColor_spec (random : Q) (usedColors : list string) :
  (0 <= random)%Q -> (random < 1)%Q ->
  exists c,
    getUnusedRandomColor random usedColors = Some c
    /\ c ∈ COLORS
    /\ (c ∈ usedColors -> Forall (fun c' => c' ∈ usedColors) COLORS).
Proof.
  intros Hlo Hhi. unfold getUnusedRandomColor.
  set (availableColors :=
         List.filter (fun c => negb (bool_decide (c ∈ usedColors))) COLORS).
  destruct (List.length availableColors =? 0)%nat eqn:E.
  - apply Nat.eqb_eq in E.
    destruct (pick_spec random COLORS Hlo Hhi) as (c & Hc & Hin); [discriminate|].
    exists c. split; [exact Hc|]. split; [exact Hin|]. intros _.
    apply Forall_forall. intros c' Hc'.
    destruct (decide (c' ∈ usedColors)) as [Hu|Hu]; [exact Hu|].
    assert (Hav : In c' availableColors).
    { apply filter_In. split; [apply list_elem_of_In; exact Hc'|].
      apply negb_true_iff, bool_decide_eq_false_2, Hu. }
    destruct availableColors; [contradiction | discriminate].
  - apply Nat.eqb_neq in E.
    destruct (pick_spec random availableColors Hlo Hhi) as (c & Hc & Hin).
    { intros ->. apply E. reflexivity. }
    exists c. split; [exact Hc|].
    apply list_elem_of_In, filter_In in Hin as [Hin Hun].
    apply negb_true_iff, bool_decide_eq_false in Hun.
    split; [apply list_elem_of_In; exact Hin|]. intros Hu. contradiction.
Qed.

(** X22. With [Math.random()] in [0, 1), [getUnusedRandomColor] returns one of
    [COLORS], and one that is in use only when every colour is. *)
Theorem unused_colour_is_picked (random : Q) (usedColors : list string) :
  (0 <= random)%Q -> (random < 1)%Q ->
  exists c,
    getUnusedRandomColor random usedColors = Some c
    /\ c ∈ COLORS
    /\ (c ∈ usedColors -> Forall (fun c' => c' ∈ usedColors) COLORS).
Proof. exact (getUnusedRandomColor_spec random usedColors). Qed.

Lemma unused_colour_is_picked_witness :
  exists c,
    getUnusedRandomColor (99 # 100) ["#d9b2ff"%string] = Some c
    /\ c ∈ COLORS
    /\ (c ∈ ["#d9b2ff"%string] -> Forall (fun c' => c' ∈ ["#d9b2ff"%string]) COLORS).
Proof.
  apply (unused_colour_is_picked (99 # 100) ["#d9b2ff"%string]); lra.
Defined.

Lemma COLORS_NoDup : List.NoDup COLORS.
Proof.
  unfold COLORS. repeat (constructor; [cbn; intuition discriminate|]). constructor.
Qed.

(** Fewer colours in use than there are colours: one is free. *)
Lemma colour_left (usedColors : list string) :
  (List.length usedColors < List.length COLORS)%nat ->
  ~ Forall (fun c' => c' ∈ usedColors) COLORS.
Proof.
  intros Hlt Hall.
  assert (Hincl : incl COLORS usedColors).
  { intros c Hc. rewrite Forall_forall in Hall.
    apply list_elem_of_In, Hall, list_elem_of_In, Hc. }
  pose proof (NoDup_incl_length COLORS_NoDup Hincl). lia.
Qed.

Lemma defaultPrompts_from_spec (random : nat -> Q) (texts : list string) (n : nat) :
  (forall i, 0 <= random i /\ random i < 1)%Q ->
  forall (i : nat) (acc : list Prompt) (usedColors : list string),
  (i + n <= List.length texts)%nat ->
  (List.length usedColors + n <= List.length COLORS)%nat ->
  exists ps,
    defaultPrompts_from n i texts random acc usedColors = Some (acc ++ ps)
    /\ map promptId ps = map (fun k => "prompt-" +:+ pretty k) (seq i n)
    /\ map text ps = take n (drop i texts)
    /\ Forall (fun p => weight p = 0%Q) ps
    /\ Forall (fun p => color p ∈ COLORS) ps
    /\ (List.NoDup usedColors -> List.NoDup (usedColors ++ map color ps)).
Proof.
  intros Hr. induction n as [|n IH]; intros i acc usedColors Hi Hu.
  - exists []. cbn. rewrite !app_nil_r, take_0. repeat split; auto.
  - cbn [defaultPrompts_from].
    destruct (lookup_lt_is_Some_2 texts i) as [t Ht]; [lia|]. rewrite Ht. cbn.
    destruct (Hr i) as [Hlo Hhi].
    destruct (getUnusedRandomColor_spec (random i) usedColors Hlo Hhi)
      as (c & Hc & Hin & Hfree).
    rewrite Hc. cbn.
    assert (Hnew : c ∉ usedColors).
    { intros Hcu. apply (colour_left usedColors); [lia | auto]. }
    set (p := {| promptId := "prompt-" +:+ pretty i; text := t;
                 weight := 0; color := c |}).
    destruct (IH (S i) (acc ++ [p]) (usedColors ++ [c])) as (ps & Hps & H1 & H2 & H3 & H4 & H5).
    { lia. }
    { rewrite length_app. cbn [List.length]. lia. }
    exists (p :: ps). rewrite Hps, <- app_assoc. cbn [app map seq].
    split; [reflexivity|]. split; [rewrite H1; reflexivity|].
    split.
    { rewrite H2. rewrite (drop_S texts t i Ht). reflexivity. }
    split; [constructor; [reflexivity | exact H3]|].
    split; [constructor; [exact Hin | exact H4]|].
    intros Hnd. rewrite <- app_assoc in H5. apply H5.
    apply NoDup_ListNoDup, NoDup_app. split; [apply NoDup_ListNoDup; exact Hnd|].
    split; [|apply NoDup_singleton].
    intros x Hx Hx'. apply list_elem_of_singleton in Hx'. subst x. contradiction.
Qed.

(** X23. When nothing usable is stored, the component starts with four
    prompts, [prompt-0] to [prompt-3], that carry the first four shuffled
    texts and four different colours of [COLORS]; two of them have weight
    1 and two weight 0, so the first submission carries two prompts. *)
Theorem default_prompts (texts : list string) (random : nat -> Q) (order : list nat) :
  (4 <= List.length texts)%nat ->
  (forall i, 0 <= random i /\ random i < 1)%Q ->
  order ≡ₚ [0; 1; 2; 3]%nat ->
  exists ps,
    getStoredPrompts texts random order = Some ps
    /\ map promptId ps = ["prompt-0"; "prompt-1"; "prompt-2"; "prompt-3"]%string
    /\ map text ps = take 4 texts
    /\ List.NoDup (map color ps)
    /\ Forall (fun p => color p ∈ COLORS) ps
    /\ Forall (fun p => weight p = 0%Q \/ weight p = 1%Q) ps
    /\ List.length (promptsToSend (initial ps)) = 2%nat.
Proof.
  intros Hlen Hr Hperm. unfold getStoredPrompts.
  rewrite (Nat.min_l 4) by exact Hlen.
  destruct (defaultPrompts_from_spec random texts 4 Hr 0%nat [] [])
    as (ps0 & Hps & Hid & Htx & Hw & Hcol & Hnd); [lia | cbn; lia |].
  rewrite Hps. cbn [app mbind option_bind]. rewrite drop_0 in Htx.
  specialize (Hnd (List.NoDup_nil _)). cbn [app] in Hnd.
  assert (H4 : List.length ps0 = 4%nat)
    by (rewrite <- (length_map promptId), Hid; reflexivity).
  destruct ps0 as [|a [|b [|c [|d [|? ?]]]]]; try discriminate. clear H4.
  cbn [List.length Nat.min].
  pose proof (Permutation_length Hperm) as Hol.
  destruct order as [|j0 [|j1 [|j2 [|j3 [|? ?]]]]]; try discriminate. clear Hol.
  assert (Hin : forall j, In j [j0; j1; j2; j3] -> (j < 4)%nat).
  { intros j Hj. apply (Permutation_in _ Hperm) in Hj. cbn in Hj. lia. }
  assert (Hne : j0 <> j1).
  { assert (Hnd' : List.NoDup [j0; j1; j2; j3]).
    { apply (Permutation_NoDup (Permutation_sym Hperm)).
      repeat (constructor; [cbn; lia|]). constructor. }
    inversion_clear Hnd' as [|? ? Hni _]. intros ->. apply Hni. now left. }
  pose proof (Hin j0 ltac:(cbn; auto)) as H0.
  pose proof (Hin j1 ltac:(cbn; auto)) as H1.
  destruct a as [ia ta wa ca], b as [ib tb wb cb], c as [ic tc wc cc],
           d as [id td wd cd].
  inversion_clear Hw as [|? ? Ha Hw']. inversion_clear Hw' as [|? ? Hb Hw''].
  inversion_clear Hw'' as [|? ? Hc Hw''']. inversion_clear Hw''' as [|? ? Hd _].
  cbn in Ha, Hb, Hc, Hd. subst wa wb wc wd.
  rewrite !Forall_cons in Hcol. cbn [color] in Hcol.
  destruct Hcol as (Ca & Cb & Cc & Cd & _).
  eexists. split; [reflexivity|].
  destruct j0 as [|[|[|[|j0]]]]; try lia;
    destruct j1 as [|[|[|[|j1]]]]; try lia; try contradiction;
    cbn [activate lookup list_lookup list_insert insert set_weight
         promptId text weight color map];
    (split; [exact Hid|]); (split; [exact Htx|]); (split; [exact Hnd|]);
    (split; [repeat (apply Forall_cons_2; [assumption|]); apply Forall_nil_2|]);
    (split; [repeat (apply Forall_cons_2; [cbn; auto|]); apply Forall_nil_2|]);
    unfold promptsToSend, initial;
    cbn [prompts filteredPrompts List.filter text weight];
    repeat match goal with
           | |- context [@bool_decide ?P ?d] =>
               rewrite (@bool_decide_eq_false_2 P d) by apply not_elem_of_empty
           end;
    reflexivity.
Qed.

Lemma default_prompts_witness :
  exists ps,
    getStoredPrompts ["Funk"; "Ska"; "Jungle"; "Trap"; "Cello"]%string
      (fun _ => 1 # 2)%Q [2; 0; 3; 1]%nat = Some ps
    /\ map promptId ps = ["prompt-0"; "prompt-1"; "prompt-2"; "prompt-3"]%string
    /\ map text ps = take 4 ["Funk"; "Ska"; "Jungle"; "Trap"; "Cello"]%string
    /\ List.NoDup (map color ps)
    /\ Forall (fun p => color p ∈ COLORS) ps
    /\ Forall (fun p => weight p = 0%Q \/ weight p = 1%Q) ps
    /\ List.length (promptsToSend (initial ps)) = 2%nat.
Proof.
  apply (default_prompts ["Funk"; "Ska"; "Jungle"; "Trap"; "Cello"]%string
           (fun _ => 1 # 2)%Q [2; 0; 3; 1]%nat).
  - cbn. lia.
  - intros _. split; lra.
  - change [2; 0; 3; 1]%nat with ([2] ++ [0] ++ [3; 1])%nat.
    rewrite (Permutation_app_swap_app [2%nat] [0%nat]). cbn [app].
    apply perm_skip.
    change [2; 3; 1]%nat with ([2; 3] ++ [1])%nat.
    rewrite (Permutation_app_comm [2; 3]%nat [1%nat]). reflexivity.
Defined.

(** * Properties of the weight slider *)

Lemma clamp02 (x : Q) : (0 <= Qmax 0 (Qmin 2 x) <= 2)%Q.
Proof.
  split; [apply Q.le_max_l|].
  apply Q.max_lub; [lra | apply Q.le_min_l].
Qed.

Lemma slider_step_range (ev : WeightSlider.Event) (s : WeightSlider.State) :
  (0 <= WeightSlider.value s <= 2)%Q ->
  (0 <= WeightSlider.value (fst (WeightSlider.step ev s)) <= 2)%Q
  /\ Forall (fun v => 0 <= v <= 2)%Q (snd (WeightSlider.step ev s)).
Proof.
  intros Hs. destruct ev as [a|a| |d]; cbn [WeightSlider.step].
  - split; [exact Hs | constructor].
  - unfold WeightSlider.handlePointerMove.
    destruct (WeightSlider.isDragging s); cbn [negb fst snd].
    + cbn. split; [apply clamp02 | repeat constructor; apply clamp02].
    + split; [exact Hs | constructor].
  - split; [exact Hs | constructor].
  - cbn. split; [apply clamp02 | repeat constructor; apply clamp02].
Qed.

(** X24. Whatever the pointer and the wheel do, the value of the slider stays
    within [0, 2], every input event carries a value within [0, 2], and
    the indicator stays within its 270 degrees, from -135 to +135. *)
Theorem slider_stays_in_range (evs : list WeightSlider.Event) (s : WeightSlider.State) :
  (0 <= WeightSlider.value s <= 2)%Q ->
  let r := WeightSlider.run evs s in
  (0 <= WeightSlider.value (fst r) <= 2)%Q
  /\ Forall (fun v => 0 <= v <= 2)%Q (snd r)
  /\ (-135 <= WeightSlider.indicatorRotation (fst r) <= 135)%Q.
Proof.
  revert s. induction evs as [|ev evs IH]; intros s Hs.
  - cbn. split; [exact Hs|]. split; [constructor|].
    unfold WeightSlider.indicatorRotation.
    assert (H : (WeightSlider.value s / 2 * 270 == WeightSlider.value s * 135)%Q)
      by (field; discriminate).
    rewrite H. lra.
  - destruct (slider_step_range ev s Hs) as [H1 H2].
    destruct (IH _ H1) as (I1 & I2 & I3).
    cbn [WeightSlider.run fst snd]. split; [exact I1|]. split; [|exact I3].
    apply Forall_app. split; assumption.
Qed.

Lemma slider_stays_in_range_witness :
  let r := WeightSlider.run
             [WeightSlider.PointerDown 170; WeightSlider.PointerMove (-170);
              WeightSlider.PointerUp; WeightSlider.Wheel 1000]
             (WeightSlider.initial 1) in
  (0 <= WeightSlider.value (fst r) <= 2)%Q
  /\ Forall (fun v => 0 <= v <= 2)%Q (snd r)
  /\ (-135 <= WeightSlider.indicatorRotation (fst r) <= 135)%Q.
Proof.
  apply (slider_stays_in_range
           [WeightSlider.PointerDown 170; WeightSlider.PointerMove (-170);
            WeightSlider.PointerUp; WeightSlider.Wheel 1000]
           (WeightSlider.initial 1)).
  cbn. lra.
Defined.

(** * Properties of the name of the downloaded file *)

Import Download.

Lemma removeSymbols_spec (text : list Z) :
  Forall (fun c => isAlnum c || isSpace c = true) (removeSymbols text).
Proof.
  apply Forall_forall. intros c Hc.
  apply list_elem_of_In, filter_In in Hc. tauto.
Qed.

Lemma hyphen_is_symbol : isAlnum 45 || isSpace 45 = false.
Proof. reflexivity. Qed.

Lemma hyphenate_chars (text : list Z) : forall inRun,
  Forall (fun c => isAlnum c || isSpace c = true) text ->
  Forall (fun c => isAlnum c = true \/ c = 45) (hyphenate inRun text).
Proof.
  induction text as [|c rest IH]; intros inRun H; [constructor|].
  inversion_clear H as [|? ? Hc Hrest]. cbn [hyphenate].
  destruct (isSpace c) eqn:E.
  - destruct inRun; [apply IH, Hrest|].
    constructor; [right; reflexivity | apply IH, Hrest].
  - rewrite orb_false_r in Hc. constructor; [left; exact Hc | apply IH, Hrest].
Qed.

Lemma hyphenate_in_run (text : list Z) (tail : list Z) :
  Forall (fun c => c <> 45) text -> hyphenate true text <> 45 :: tail.
Proof.
  induction text as [|c rest IH]; intros H; [discriminate|].
  inversion_clear H as [|? ? Hc Hrest]. cbn [hyphenate].
  destruct (isSpace c); [apply IH, Hrest|].
  intros Heq. injection Heq as Heq _. contradiction.
Qed.

Lemma hyphenate_single (text : list Z) :
  Forall (fun c => c <> 45) text ->
  forall inRun l1 l2, hyphenate inRun text <> l1 ++ 45 :: 45 :: l2.
Proof.
  induction text as [|c rest IH]; intros H inRun l1 l2.
  - destruct l1; discriminate.
  - inversion_clear H as [|? ? Hc Hrest]. cbn [hyphenate].
    destruct (isSpace c).
    + destruct inRun; [apply IH, Hrest|].
      destruct l1 as [|x l1]; cbn [app]; intros Heq.
      * injection Heq as Heq. exact (hyphenate_in_run rest l2 Hrest Heq).
      * injection Heq as _ Heq. exact (IH Hrest true l1 l2 Heq).
    + destruct l1 as [|x l1]; cbn [app]; intros Heq.
      * injection Heq as Hx _. contradiction.
      * injection Heq as _ Heq. exact (IH Hrest false l1 l2 Heq).
Qed.

Lemma removeSymbols_no_hyphen (text : list Z) :
  Forall (fun c => c <> 45) (removeSymbols text).
Proof.
  eapply Forall_impl; [apply removeSymbols_spec|].
  intros c Hc ->. rewrite hyphen_is_symbol in Hc. discriminate.
Qed.

(** X26. The part of the file name made of a prompt text has at most 30 code
    units, all of them letters, digits or hyphens, and no two hyphens in
    a row: symbols are dropped and each run of white space becomes one
    hyphen. *)
Theorem sanitize_spec (text : list Z) :
  (List.length (sanitize text) <= 30)%nat
  /\ Forall (fun c => isAlnum c = true \/ c = 45) (sanitize text)
  /\ forall l1 l2, sanitize text <> l1 ++ 45 :: 45 :: l2.
Proof.
  unfold sanitize. split; [rewrite length_take; lia|]. split.
  - apply Forall_take, hyphenate_chars, removeSymbols_spec.
  - intros l1 l2 Heq.
    apply (hyphenate_single (removeSymbols text) (removeSymbols_no_hyphen text) false
             l1 (l2 ++ drop 30 (hyphenate false (removeSymbols text)))).
    rewrite <- (take_drop 30 (hyphenate false (removeSymbols text))) at 1.
    rewrite Heq, <- app_assoc. reflexivity.
Qed.

Lemma sanitize_safe (text : list Z) :
  Forall (fun c => isSafe c = true) (sanitize text)
  /\ (List.length (sanitize text) <= 30)%nat.
Proof.
  unfold sanitize. split; [|rewrite length_take; lia].
  apply Forall_take.
  eapply Forall_impl; [apply hyphenate_chars, removeSymbols_spec|].
  intros c [Hc| ->]; [|reflexivity]. unfold isSafe. rewrite Hc. reflexivity.
Qed.

Lemma join_safe (parts : list (list Z)) :
  Forall (fun p => Forall (fun c => isSafe c = true) p /\ (List.length p <= 30)%nat) parts ->
  Forall (fun c => isSafe c = true) (join parts)
  /\ (List.length (join parts) <= 31 * List.length parts)%nat.
Proof.
  induction 1 as [|p parts [Hp Hl] _ [IH1 IH2]]; [split; [constructor | cbn; lia]|].
  destruct parts as [|q parts].
  - cbn [join List.length]. split; [exact Hp | lia].
  - change (join (p :: q :: parts)) with (p ++ 95 :: join (q :: parts)). split.
    + apply Forall_app. split; [exact Hp|]. constructor; [reflexivity | exact IH1].
    + rewrite length_app. cbn [List.length] in *. lia.
Qed.

(** X27. The name under which the recording is saved is a stem, [_], the
    timestamp and [.wav]; the stem is never empty and holds nothing but
    letters, digits, hyphens and underscores, whatever the prompt texts
    are, and at most 31 code units for each prompt (15 when no prompt
    gives any). *)
Theorem download_name_is_safe (timestamp : list Z) (s : State) :
  exists st,
    downloadName timestamp s = st ++ 95 :: timestamp ++ charCodes ".wav"
    /\ st <> []
    /\ Forall (fun c => isSafe c = true) st
    /\ (List.length st <= Nat.max 15 (31 * List.length (prompts s)))%nat.
Proof.
  unfold downloadName, filename.
  set (texts := map (fun p => charCodes (text p)) (prompts s)).
  exists (stem texts). split; [reflexivity|].
  assert (Hparts : Forall (fun p => (Forall (fun c => isSafe c = true) p
                                     /\ (List.length p <= 30)%nat)
                                    /\ p <> [])
                     (promptTexts texts)).
  { apply Forall_forall. intros p Hp. unfold promptTexts in Hp.
    apply list_elem_of_In, filter_In in Hp as [Hp Hne].
    apply in_map_iff in Hp as (t & <- & _).
    split; [apply sanitize_safe|]. intros E. rewrite E in Hne. discriminate. }
  assert (Hn : (List.length (promptTexts texts) <= List.length (prompts s))%nat).
  { unfold promptTexts. etransitivity; [apply List.filter_length_le|].
    unfold texts. rewrite !length_map. reflexivity. }
  unfold stem. destruct (0 <? List.length (promptTexts texts))%nat eqn:E.
  - apply Nat.ltb_lt in E.
    destruct (join_safe (promptTexts texts)) as [H1 H2].
    { eapply Forall_impl; [exact Hparts|]. intros p [H _]. exact H. }
    split; [|split; [exact H1 | lia]].
    destruct (promptTexts texts) as [|p [|q parts]]; [cbn in E; lia | |].
    + inversion_clear Hparts as [|? ? [_ Hne] _]. exact Hne.
    + cbn [join]. intros Heq. apply app_eq_nil in Heq as [_ Heq]. discriminate.
  - split; [discriminate|]. split; [|cbn; lia].
    repeat constructor.
Qed.

Example download_name :
  downloadName (charCodes "20261102_051500")
    (initial [{| promptId := "prompt-0"; text := "Lo-fi  Hip Hop!"; weight := 1;
                 color := "#9900ff" |};
              {| promptId := "prompt-1"; text := "../808 Bass"; weight := 0;
                 color := "#5200ff" |}])
  = charCodes "Lofi-Hip-Hop_808-Bass_20261102_051500.wav".
Proof. reflexivity. Qed.

(** * Properties of the prompt map and of the elapsed-time display *)

Import Prompts.

Lemma prompt_key_inj (j k : nat) :
  "prompt-" +:+ pretty j = "prompt-" +:+ pretty k -> j = k.
Proof.
  intros H. cbn in H. repeat injection H as H. apply (inj pretty). exact H.
Qed.

Lemma has_false (key : string) (m : list Prompt) :
  has key m = false <-> Forall (fun p => promptId p <> key) m.
Proof.
  unfold has. induction m as [|q m IH]; cbn [existsb].
  - split; [constructor | reflexivity].
  - rewrite orb_false_iff, IH, Forall_cons, String.eqb_neq. reflexivity.
Qed.

Lemma set_fresh (p : Prompt) (m : list Prompt) :
  has (promptId p) m = false -> set p m = m ++ [p].
Proof.
  rewrite has_false. induction 1 as [|q m Hq _ IH]; [reflexivity|].
  cbn [set app]. apply String.eqb_neq in Hq. rewrite Hq, IH. reflexivity.
Qed.

Lemma numbered_fresh (n : nat) (m : list Prompt) :
  numbered n m -> has ("prompt-" +:+ pretty n) m = false.
Proof.
  intros (ks & Hids & _ & Hlt). apply has_false.
  apply Forall_forall. intros p Hp Heq.
  assert (Hin : promptId p ∈ map promptId m) by (apply list_elem_of_fmap_2; exact Hp).
  rewrite Hids in Hin. apply list_elem_of_fmap in Hin as (k & Hk & Hkin).
  rewrite Heq in Hk. apply prompt_key_inj in Hk. subst k.
  rewrite Forall_forall in Hlt. specialize (Hlt n Hkin). lia.
Qed.

Lemma reconfigure_prompts newPrompts now s :
  prompts (fst (reconfigure newPrompts now s)) = newPrompts
  /\ filteredPrompts (fst (reconfigure newPrompts now s)) = filteredPrompts s
  /\ submitted (snd (reconfigure newPrompts now s))
     = (if 200 <=? now - lastCall s
        then [promptsToSend (set_prompts newPrompts s)] else []).
Proof.
  unfold reconfigure, setSessionPrompts, throttle. cbn.
  destruct (200 <=? now - lastCall s); cbn; auto.
Qed.

(** X28. Adding a prompt, when the keys are [prompt-k] for different [k] below
    [nextPromptId]: the new prompt goes to the end of the map under a key
    that was not there, with weight 0 and a colour that is in use only if
    every colour is; as its weight is 0 it is not among the prompts sent,
    so the session receives what it would have received without it. *)
Theorem added_prompt_is_not_sent (n : nat) (random : Q) (now : Z) (s : State) :
  numbered n (prompts s) ->
  (0 <= random)%Q -> (random < 1)%Q ->
  exists c r,
    handleAddPrompt n random now s = Some (S n, r)
    /\ prompts (fst r)
       = prompts s ++ [{| promptId := "prompt-" +:+ pretty n; text := "New Prompt";
                          weight := 0; color := c |}]
    /\ numbered (S n) (prompts (fst r))
    /\ (c ∈ map color (prompts s) ->
        Forall (fun c' => c' ∈ map color (prompts s)) COLORS)
    /\ promptsToSend (fst r) = promptsToSend s
    /\ submitted (snd r)
       = (if 200 <=? now - lastCall s then [promptsToSend s] else []).
Proof.
  intros Hnum Hlo Hhi. unfold handleAddPrompt.
  destruct (getUnusedRandomColor_spec random (map color (prompts s)) Hlo Hhi)
    as (c & Hc & _ & Hfree).
  rewrite Hc. cbn [mbind option_bind].
  set (p := {| promptId := "prompt-" +:+ pretty n; text := "New Prompt";
               weight := 0; color := c |}).
  rewrite (set_fresh p) by (apply numbered_fresh; exact Hnum).
  destruct (reconfigure_prompts (prompts s ++ [p]) now s) as (Hp & Hf & Hsub).
  exists c, (reconfigure (prompts s ++ [p]) now s).
  split; [reflexivity|]. split; [exact Hp|].
  assert (Hsend : forall s', prompts s' = prompts s ++ [p] ->
                    filteredPrompts s' = filteredPrompts s ->
                    promptsToSend s' = promptsToSend s).
  { intros s' H1 H2. unfold promptsToSend. rewrite H1, H2, List.filter_app.
    cbn [List.filter weight p]. change (Qeq_bool 0 0) with true.
    cbn [negb]. rewrite andb_false_r. apply app_nil_r. }
  split.
  { rewrite Hp. destruct Hnum as (ks & Hids & Hnd & Hlt).
    exists (ks ++ [n]). rewrite !map_app, Hids. split; [reflexivity|]. split.
    - apply NoDup_ListNoDup, NoDup_app. split; [apply NoDup_ListNoDup; exact Hnd|].
      split; [|apply NoDup_singleton].
      intros k Hk Hk'. apply list_elem_of_singleton in Hk'. subst k.
      rewrite Forall_forall in Hlt. specialize (Hlt n Hk). lia.
    - apply Forall_app. split.
      + eapply Forall_impl; [exact Hlt|]. intros k Hk. cbn beta in *. lia.
      + repeat constructor. }
  split; [exact Hfree|].
  split; [apply Hsend; assumption|].
  rewrite Hsub. destruct (200 <=? now - lastCall s); [|reflexivity].
  f_equal. apply Hsend; reflexivity.
Qed.

Lemma added_prompt_is_not_sent_witness :
  exists c r,
    handleAddPrompt 1 (1 # 2) 1000 (initial [funk 1]) = Some (2%nat, r)
    /\ prompts (fst r)
       = prompts (initial [funk 1])
         ++ [{| promptId := "prompt-" +:+ pretty 1%nat; text := "New Prompt";
                weight := 0; color := c |}]
    /\ numbered 2 (prompts (fst r))
    /\ (c ∈ map color (prompts (initial [funk 1])) ->
        Forall (fun c' => c' ∈ map color (prompts (initial [funk 1]))) COLORS)
    /\ promptsToSend (fst r) = promptsToSend (initial [funk 1])
    /\ submitted (snd r)
       = (if 200 <=? 1000 - lastCall (initial [funk 1])
          then [promptsToSend (initial [funk 1])] else []).
Proof.
  apply (added_prompt_is_not_sent 1 (1 # 2) 1000 (initial [funk 1])); [|lra|lra].
  exists [0%nat]. split; [reflexivity|]. split.
  - repeat constructor. intros [].
  - repeat constructor.
Defined.

Lemma filter_map_comm {A B} (g : B -> bool) (F : A -> B) (l : list A) :
  List.filter g (map F l) = map F (List.filter (fun x => g (F x)) l).
Proof.
  induction l as [|x l IH]; [reflexivity|].
  cbn [map List.filter]. destruct (g (F x)); cbn [map]; rewrite IH; reflexivity.
Qed.

Lemma filter_filter_comm {A} (f g : A -> bool) (l : list A) :
  List.filter f (List.filter g l) = List.filter g (List.filter f l).
Proof.
  induction l as [|x l IH]; [reflexivity|].
  cbn [List.filter]. destruct (f x) eqn:Ef, (g x) eqn:Eg; cbn [List.filter];
    rewrite ?Ef, ?Eg, IH; reflexivity.
Qed.

Lemma delete_spec (key : string) (m : list Prompt) (n : nat) :
  numbered n m -> numbered n (delete key m) /\ has key (delete key m) = false.
Proof.
  intros (ks & Hids & Hnd & Hlt). split.
  - exists (List.filter (fun k => negb (String.eqb ("prompt-" +:+ pretty k) key)) ks).
    split; [|split].
    + unfold delete.
      rewrite <- (filter_map_comm (fun i => negb (String.eqb i key))
                    (fun k => "prompt-" +:+ pretty k)).
      rewrite <- Hids.
      rewrite (filter_map_comm (fun i => negb (String.eqb i key)) promptId).
      reflexivity.
    + apply List.NoDup_filter, Hnd.
    + apply Forall_forall. intros k Hk.
      apply list_elem_of_In, filter_In in Hk as [Hk _].
      rewrite Forall_forall in Hlt. apply Hlt, list_elem_of_In, Hk.
  - apply has_false, Forall_forall. intros p Hp.
    apply list_elem_of_In, filter_In in Hp as [_ Hp].
    apply negb_true_iff, String.eqb_neq in Hp. exact Hp.
Qed.

(** X29. Removing a prompt: a key of the map is taken out, the other prompts
    keep their order, and what is sent is what was sent without that
    prompt; a key that is not in the map changes nothing and sends
    nothing. *)
Theorem removed_prompt_is_not_sent (n : nat) (key : string) (now : Z) (s : State) :
  numbered n (prompts s) ->
  let r := handlePromptRemoved key now s in
  numbered n (prompts (fst r))
  /\ has key (prompts (fst r)) = false
  /\ prompts (fst r) = delete key (prompts s)
  /\ promptsToSend (fst r) = delete key (promptsToSend s)
  /\ submitted (snd r)
     = (if has key (prompts s) && (200 <=? now - lastCall s)
        then [delete key (promptsToSend s)] else []).
Proof.
  intros Hnum r. unfold r, handlePromptRemoved.
  destruct (delete_spec key (prompts s) n Hnum) as [Hn' Hh'].
  assert (Hsend : forall s', prompts s' = delete key (prompts s) ->
                    filteredPrompts s' = filteredPrompts s ->
                    promptsToSend s' = delete key (promptsToSend s)).
  { intros s' H1 H2. unfold promptsToSend, delete. rewrite H1, H2.
    apply filter_filter_comm. }
  destruct (has key (prompts s)) eqn:Eh.
  - destruct (reconfigure_prompts (delete key (prompts s)) now s) as (Hp & Hf & Hsub).
    rewrite Hp. split; [exact Hn'|]. split; [exact Hh'|]. split; [reflexivity|].
    split; [apply Hsend; assumption|].
    rewrite Hsub. cbn [andb]. destruct (200 <=? now - lastCall s); [|reflexivity].
    f_equal. apply Hsend; reflexivity.
  - cbn [fst snd andb submitted flat_map].
    assert (Hid : delete key (prompts s) = prompts s).
    { unfold delete. apply filter_all. apply has_false in Eh.
      eapply Forall_impl; [exact Eh|]. intros p Hp. cbn.
      apply negb_true_iff, String.eqb_neq, Hp. }
    split; [exact Hnum|]. split; [exact Eh|]. split; [symmetry; exact Hid|].
    split; [|reflexivity].
    apply Hsend; [symmetry; exact Hid | reflexivity].
Qed.

Lemma removed_prompt_is_not_sent_witness :
  let r := handlePromptRemoved "prompt-0" 1000 (initial [funk 1]) in
  numbered 1 (prompts (fst r))
  /\ has "prompt-0" (prompts (fst r)) = false
  /\ prompts (fst r) = delete "prompt-0" (prompts (initial [funk 1]))
  /\ promptsToSend (fst r) = delete "prompt-0" (promptsToSend (initial [funk 1]))
  /\ submitted (snd r)
     = (if has "prompt-0" (prompts (initial [funk 1]))
           && (200 <=? 1000 - lastCall (initial [funk 1]))
        then [delete "prompt-0" (promptsToSend (initial [funk 1]))] else []).
Proof.
  apply (removed_prompt_is_not_sent 1 "prompt-0" 1000 (initial [funk 1])).
  exists [0%nat]. split; [reflexivity|]. split.
  - repeat constructor. intros [].
  - repeat constructor.
Defined.

(** ** The elapsed-time display *)

Lemma pad_two_digits (k : Z) : 0 <= k < 100 -> pad k = twoDigits k.
Proof.
  intros Hk.
  assert (Hin : In k (map Z.of_nat (seq 0 100))).
  { apply in_map_iff. exists (Z.to_nat k). split; [lia | apply in_seq; lia]. }
  assert (Hall : forallb (fun k => String.eqb (pad k) (twoDigits k))
                   (map Z.of_nat (seq 0 100)) = true) by (vm_compute; reflexivity).
  rewrite forallb_forall in Hall. apply String.eqb_eq, Hall, Hin.
Qed.

(** X30. Up to 99 minutes and 59 seconds the display is [MM:SS]: the two
    digits of the minutes, a colon, and the two digits of the seconds
    below 60. *)
Theorem formatTime_spec (seconds : Z) :
  0 <= seconds < 6000 ->
  let m := seconds / 60 in
  let r := seconds mod 60 in
  formatTime seconds = twoDigits m +:+ ":" +:+ twoDigits r
  /\ String.length (formatTime seconds) = 5%nat
  /\ 0 <= m < 100 /\ 0 <= r < 60.
Proof.
  intros Hs m r. unfold formatTime.
  rewrite Z.rem_mod_nonneg by lia. fold m r.
  assert (Hm : 0 <= m < 100) by (unfold m; Z.to_euclidean_division_equations; lia).
  assert (Hr : 0 <= r < 60) by (unfold r; apply Z.mod_pos_bound; lia).
  rewrite !pad_two_digits by lia. repeat split; try reflexivity; lia.
Qed.

Lemma formatTime_spec_witness :
  let m := 754 / 60 in
  let r := 754 mod 60 in
  formatTime 754 = twoDigits m +:+ ":" +:+ twoDigits r
  /\ String.length (formatTime 754) = 5%nat
  /\ 0 <= m < 100 /\ 0 <= r < 60.
Proof. apply (formatTime_spec 754). lia. Defined.

Example formatTime_754 : formatTime 754 = "12:34"%string.
Proof. reflexivity. Qed.

(** * The download of a recording *)

(** X11. Whatever the component went through, a download exports every segment
    of the Capture Log: the log never makes the concatenation fail, the
    file has 44 bytes of header and four bytes for each frame captured,
    and the frames of each segment are in it, quantized, after those of
    the segments captured before. *)
Theorem recording_is_exported (evs : list Event) (prompts : list Prompt)
  (pre post : list AudioBuffer) (b : AudioBuffer) :
  let s := fst (run evs (initial prompts)) in
  recordedChunks s = pre ++ b :: post ->
  exists wav,
    exportWav s = Some wav
    /\ List.length wav = (44 + 4 * totalLength (recordedChunks s))%nat
    /\ forall i j, (i < length b)%nat -> (j < 2)%nat ->
         DataView.getInt16 (44 + 2 * ((totalLength pre + i) * 2 + j)) wav
         = pcm16 (getChannelData b j i).
Proof.
  intros s Hlog.
  assert (Hdec : decodedLog s) by (apply run_decodedLog, initial_decodedLog).
  unfold decodedLog in Hdec. rewrite Hlog in Hdec.
  assert (Hshape : Forall (fun c => numberOfChannels c = 2%nat /\ (1 <= length c)%nat)
                     (pre ++ b :: post)).
  { eapply Forall_impl; [exact Hdec|]. intros c [data Hc].
    apply decodeAudioData_shape in Hc. tauto. }
  assert (Hb : numberOfChannels b = 2%nat /\ (1 <= length b)%nat).
  { rewrite Forall_app, Forall_cons in Hshape. tauto. }
  assert (Hfirst : numberOfChannels (List.hd b pre) = 2%nat).
  { destruct pre as [|c pre]; [tauto|]. cbn. inversion_clear Hshape. tauto. }
  destruct (concatenateAudioBuffers_spec pre post b)
    as (result & Hres & Hch & _ & Hlen & Hsamples).
  { rewrite Hfirst. lia. }
  { rewrite totalLength_app, totalLength_cons. lia. }
  unfold exportWav. rewrite Hlog, Hres. eexists. split; [reflexivity|].
  rewrite Hfirst in Hch, Hsamples.
  split.
  - rewrite audioBufferToWav_length, Hlen, Hch. lia.
  - intros i j Hi Hj.
    pose proof (wav_sample_int16 result (totalLength pre + i) j) as W.
    rewrite Hch, Hlen in W. rewrite W.
    + rewrite Hsamples by assumption.
      replace (j <? numberOfChannels b)%nat with true
        by (symmetry; apply Nat.ltb_lt; lia). reflexivity.
    + rewrite totalLength_app, totalLength_cons. lia.
    + exact Hj.
Qed.

Lemma recording_is_exported_witness :
  let s := fst (run [PlayPause 0 1000; Message audio0 1; Message audio0 (3 # 2)]
                  (initial [])) in
  exists wav,
    exportWav s = Some wav
    /\ List.length wav = (44 + 4 * totalLength (recordedChunks s))%nat
    /\ forall i j, (i < length buffer0)%nat -> (j < 2)%nat ->
         DataView.getInt16 (44 + 2 * ((totalLength [buffer0] + i) * 2 + j)) wav
         = pcm16 (getChannelData buffer0 j i).
Proof.
  apply (recording_is_exported [PlayPause 0 1000; Message audio0 1; Message audio0 (3 # 2)]
           [] [buffer0] [] buffer0).
  reflexivity.
Defined.
